(** * crawl4ai_download: link discovery, fetching, the challenge gate, storage

    A shallow embedding of the parts of the crawler that its specification
    talks about, each followed by the properties proved of it.

    - [PyStr]: the few Python [str] operations the code uses.
    - [MiniRe]: a fragment of the pattern language of [re], to run examples.
    - [ChallengeGate]: [_handle_cloudflare] of [page_capturer.py] and of
      [downloader_pdf.py], and the wait loop of the script built by
      [CrawlerService._build_js_code].
    - [LevelChain]: [ConfigValidator.validate_and_extract] of
      [verify_config.py]: resolution and filtering of candidates, the loop
      over the levels.
    - [CrawlerService]: [URLProcessor.filter_urls], [JSONLStorage], the
      save step of [CrawlerService.crawl] and the expanding loop of the
      script of [crawler_service.py].
    - [ConfigManager]: the merge with the defaults, [load] and [get] of
      [crawler_service.py].
    - [Launcher]: the configurations [run.py] writes for the three tools.
    - [PageCapturer]: [load_input_urls], [capture_page], the clips of a long
      page and [run] of [page_capturer.py].
    - [PdfDownloader]: [download_pdf_with_browser] and the loop of [run] of
      [downloader_pdf.py].
    - [FetchPolicy]: what the two fetch loops do with an HTTP error.
    - [DownloadPdf]: the links and the semaphore of
      [crawl_and_download_pdfs], the two semaphores of [process_jsonl] and
      [download_file] of [craw_paper/download_pdf.py].
    - [FilenameProcessor]: [sanitize] of [page_capturer.py] and of
      [downloader_pdf.py], and the names [capture_page] gives its files.

    What the code asks of the outside world (the browser, the web, the
    operator, [urljoin], [re]) is a parameter of the definitions: a function
    that gives the answer to the n-th request.  Effects are kept as a trace
    of events in the state that is passed along.

    Python strings are modelled as [string], read as the UTF-8 encoding of
    the text.  Prefix and substring tests are the same on code points and on
    their UTF-8 encoding, because no encoded character is a proper part of
    another one.  Where the code counts characters ([FilenameProcessor]) a
    string is the list of its code points. *)

From Stdlib Require Import ZArith QArith Lia Bool Ascii String List DecimalString.
From stdpp Require Import base list strings gmap.

#[local] Set Warnings "-clear-no-such-hyp".

Local Open Scope string_scope.
Local Open Scope list_scope.

(* ===================================================================== *)
(** ** Python string operations *)
(* ===================================================================== *)

Module PyStr.

  (** [s.startswith(p)] *)
Definition startswith (p s : string) : bool := String.prefix p s.

  (** [sub in s] *)
Fixpoint str_in (sub s : string) : bool :=
    String.prefix sub s ||
    match s with
    | EmptyString => false
    | String _ s' => str_in sub s'
    end.

  (** [bool(s)] for a string: the empty string is falsy. *)
Definition truthy (s : string) : bool :=
    match s with EmptyString => false | String _ _ => true end.

  (** [s.lower()] on the ASCII letters. *)
Definition lower_ascii (c : ascii) : ascii :=
    let n := nat_of_ascii c in
    if (65 <=? n)%nat && (n <=? 90)%nat then ascii_of_nat (n + 32) else c.

(** [str(n)] / [f"{n}"] for an integer. *)
Definition show_Z (z : Z) : string := NilZero.string_of_int (Z.to_int z).

Fixpoint lower (s : string) : string :=
    match s with
    | EmptyString => EmptyString
    | String c s' => String (lower_ascii c) (lower s')
    end.

Lemma append_cons a s t : String a s +:+ t = String a (s +:+ t).
Proof. reflexivity. Qed.
Lemma append_nil t : "" +:+ t = t.
Proof. reflexivity. Qed.
Lemma startswith_spec p s :
    startswith p s = true <-> exists post, s = p +:+ post.
Proof.
    unfold startswith. revert s.
    induction p as [|a p IH]; intros s; simpl.
    - split; [intros _; exists s; reflexivity | destruct s; reflexivity].
    - destruct s as [|b s]; simpl.
      + split; [discriminate | intros [post H]; discriminate].
      + destruct (Ascii.ascii_dec a b) as [->|Hab].
        * rewrite IH. split; intros [post H]; exists post;
            rewrite append_cons in *; congruence.
        * split; [discriminate | intros [post H]; rewrite append_cons in H; congruence].
Qed.
Lemma str_in_nil sub : str_in sub "" = startswith sub "".
Proof. unfold str_in, startswith. apply orb_false_r. Qed.
Lemma str_in_cons sub c s :
    str_in sub (String c s) = startswith sub (String c s) || str_in sub s.
Proof. reflexivity. Qed.
Lemma str_in_spec sub s :
    str_in sub s = true <-> exists pre post, s = pre +:+ sub +:+ post.
Proof.
    induction s as [|c s IH].
    - rewrite str_in_nil, startswith_spec. split.
      + intros [post H]. exists "", post. exact H.
      + intros [pre [post H]]. destruct pre.
        * exists post. exact H.
        * discriminate.
    - rewrite str_in_cons, orb_true_iff, IH, startswith_spec. split.
      + intros [[post H]|[pre [post H]]].
        * exists "", post. exact H.
        * exists (String c pre), post. rewrite append_cons. congruence.
      + intros [pre [post H]]. destruct pre as [|a pre].
        * left. exists post. exact H.
        * right. exists pre, post. rewrite append_cons in H. congruence.
Qed.

End PyStr.


(* ===================================================================== *)
(** ** A fragment of the pattern language of [re] *)
(* ===================================================================== *)

(** Patterns built from literal characters, escaped characters, [\d], [.],
    [^], [$] and the postfix [*], [+], [?] and [{n}], on ASCII text.  Only
    [re.match] is modelled: whether some prefix of the text matches.  The
    examples below run the code on such patterns; the theorems do not depend
    on this module. *)
Module MiniRe.

Inductive re :=
| Never                  (* no string *)
| Empty                  (* the empty string *)
| Chr (c : ascii)
| AnyChar                (* [.]: any character but the newline *)
| Digit                  (* [\d] *)
| Bol                    (* [^] *)
| Eol                    (* [$] *)
| Seq (r1 r2 : re)
| Alt (r1 r2 : re)
| Star (r : re).

Definition newline : ascii := ascii_of_nat 10.

Definition is_digit (c : ascii) : bool :=
  let n := nat_of_ascii c in (48 <=? n)%nat && (n <=? 57)%nat.

(** [$] holds at the end of the text and before a newline that ends it. *)
Definition at_end (s : string) : bool :=
  match s with
  | EmptyString => true
  | String c EmptyString => Ascii.eqb c newline
  | _ => false
  end.

(** Whether [r] matches the empty string at a position that is the start of
    the text ([bol]) or where [$] holds ([eol]). *)
Fixpoint nullable (bol eol : bool) (r : re) : bool :=
  match r with
  | Never | Chr _ | AnyChar | Digit => false
  | Empty | Star _ => true
  | Bol => bol
  | Eol => eol
  | Seq r1 r2 => nullable bol eol r1 && nullable bol eol r2
  | Alt r1 r2 => nullable bol eol r1 || nullable bol eol r2
  end.

(** What is left of [r] to match after the character [c] read at such a
    position. *)
Fixpoint after (bol eol : bool) (c : ascii) (r : re) : re :=
  match r with
  | Never | Empty | Bol | Eol => Never
  | Chr d => if Ascii.eqb c d then Empty else Never
  | AnyChar => if Ascii.eqb c newline then Never else Empty
  | Digit => if is_digit c then Empty else Never
  | Seq r1 r2 =>
      let first := Seq (after bol eol c r1) r2 in
      if nullable bol eol r1 then Alt first (after bol eol c r2) else first
  | Alt r1 r2 => Alt (after bol eol c r1) (after bol eol c r2)
  | Star r1 => Seq (after bol eol c r1) (Star r1)
  end.

(** [re.match(r, s)]: some prefix of [s] matches. *)
Fixpoint scan (bol : bool) (r : re) (s : string) : bool :=
  nullable bol (at_end s) r ||
  match s with
  | EmptyString => false
  | String c s' => scan false (after bol (at_end s) c r) s'
  end.

Definition rmatch (r : re) (s : string) : bool := scan true r s.

(** Reading a pattern: the atoms read so far, last first, and what the
    reader is in the middle of. *)
Inductive mode := Plain | Escaped | Counting (n : nat).

Fixpoint power (n : nat) (r : re) : re :=
  match n with
  | O => Empty
  | S n' => Seq r (power n' r)
  end.

(** The characters with a meaning of their own in a pattern. *)
Definition is_meta (c : ascii) : bool :=
  existsb (Ascii.eqb c) (list_ascii_of_string ".^$*+?{}[]()|\").

Definition is_alnum (c : ascii) : bool :=
  let n := nat_of_ascii c in
  is_digit c || ((65 <=? n)%nat && (n <=? 90)%nat)
  || ((97 <=? n)%nat && (n <=? 122)%nat).

Definition read (st : option (mode * list re)) (c : ascii)
  : option (mode * list re) :=
  match st with
  | None => None
  | Some (Escaped, atoms) =>
      if Ascii.eqb c "d" then Some (Plain, Digit :: atoms)
      else if is_alnum c then None
      else Some (Plain, Chr c :: atoms)
  | Some (Counting n, atoms) =>
      if is_digit c
      then Some (Counting (10 * n + (nat_of_ascii c - 48)), atoms)
      else if Ascii.eqb c "}" then
        match atoms with
        | a :: rest => Some (Plain, power n a :: rest)
        | [] => None
        end
      else None
  | Some (Plain, atoms) =>
      if Ascii.eqb c "\" then Some (Escaped, atoms)
      else if Ascii.eqb c "." then Some (Plain, AnyChar :: atoms)
      else if Ascii.eqb c "^" then Some (Plain, Bol :: atoms)
      else if Ascii.eqb c "$" then Some (Plain, Eol :: atoms)
      else if Ascii.eqb c "*" then
        match atoms with
        | a :: rest => Some (Plain, Star a :: rest)
        | [] => None
        end
      else if Ascii.eqb c "+" then
        match atoms with
        | a :: rest => Some (Plain, Seq a (Star a) :: rest)
        | [] => None
        end
      else if Ascii.eqb c "?" then
        match atoms with
        | a :: rest => Some (Plain, Alt a Empty :: rest)
        | [] => None
        end
      else if Ascii.eqb c "{" then
        match atoms with
        | _ :: _ => Some (Counting 0, atoms)
        | [] => None
        end
      else if is_meta c then None
      else Some (Plain, Chr c :: atoms)
  end.

(** [re.compile] on the fragment; [None] for a pattern outside it. *)
Definition parse (pattern : string) : option re :=
  match fold_left read (list_ascii_of_string pattern) (Some (Plain, [])) with
  | Some (Plain, atoms) => Some (fold_left (fun acc a => Seq a acc) atoms Empty)
  | _ => None
  end.

Definition compile (ignorecase : bool) (pattern : string) : option re :=
  parse pattern.

Example nips_pattern_accepts :
  option_map (fun r => rmatch r "/paper_files/paper/2024/file/abc.pdf")
    (parse "^/paper_files/paper/\d{4}/.*\.pdf$") = Some true.
Proof. vm_compute. reflexivity. Qed.

Example nips_pattern_rejects :
  option_map
    (fun r => (rmatch r "/other/x.pdf",
               rmatch r "https://papers.nips.cc/paper_files/paper/2024/file/abc.pdf",
               rmatch r "/paper_files/paper/24/file/abc.pdf",
               rmatch r "/paper_files/paper/2024/file/abc.pdf.txt"))
    (parse "^/paper_files/paper/\d{4}/.*\.pdf$")
  = Some (false, false, false, false).
Proof. vm_compute. reflexivity. Qed.

End MiniRe.
(* ===================================================================== *)
(** ** The challenge gate *)
(* ===================================================================== *)

Module ChallengeGate.
Import PyStr.

  (** What [_handle_cloudflare] does to the outside world, in order.  Reading
    the title and the content of the page is taken to succeed. *)
Inductive event :=
  | Inspect (title content : string)   (* page.title(); page.content() *)
  | AutoClear (attempt : nat)          (* the clicking [try] block of the downloader *)
  | Sleep (seconds : nat)              (* asyncio.sleep *)
  | Prompt                             (* the three printed lines *)
  | AwaitEnter.                        (* run_in_executor(None, input) *)

  (** [input()] returns the line typed, or raises [EOFError] when standard
      input is closed. *)
Inductive operator := Enter (line : string) | EndOfInput.

Inductive outcome := Return (cleared : bool) | RaiseEOF.

Inductive verdict := CHALLENGED | CLEARED.

  (** [is_cloudflare] of [PageCapturerService._handle_cloudflare]. *)
Definition capturer_is_cloudflare (title content : string) : bool :=
    str_in "请稍候" title ||
    str_in "Just a moment" title ||
    str_in "Cloudflare" content ||
    str_in "Verify you are human" content.

  (** [is_cloudflare] of [PDFDownloaderService._handle_cloudflare]. *)
Definition downloader_is_cloudflare (title content : string) : bool :=
    str_in "请稍候" title ||
    str_in "Just a moment" title ||
    str_in "Cloudflare" content ||
    str_in "确认您是真人" content ||
    str_in "Verify you are human" content.

  (** The condition of the wait loop in the script of [_build_js_code]. *)
Definition js_still_verifying (title bodyText : string) : bool :=
    str_in "请稍候" title || str_in "Just a moment" title ||
    str_in "Checking" title || str_in "Verify" title ||
    str_in "Checking if the site connection is secure" bodyText ||
    str_in "正在验证" bodyText.

Section Gate.
    (** The marker test and what one round does after a positive test. *)
Variable is_cloudflare : string -> string -> bool.
Variable after_detection : nat -> list event.
    (** The page as it shows at the n-th inspection. *)
Variable page : nat -> string * string.

Definition inspect (n : nat) : verdict :=
      if is_cloudflare (fst (page n)) (snd (page n)) then CHALLENGED else CLEARED.

    (** [for attempt in range(max_attempts)], from round [attempt] with
        [todo] rounds left: the events, and whether the loop returned. *)
Fixpoint rounds (attempt todo : nat) : list event * bool :=
      match todo with
      | O => ([], false)
      | S todo' =>
          let here := Inspect (fst (page attempt)) (snd (page attempt)) in
          match inspect attempt with
          | CLEARED => ([here], true)
          | CHALLENGED =>
              let '(tr, returned) := rounds (S attempt) todo' in
              (here :: after_detection attempt ++ tr, returned)
          end
      end.

Definition handle_cloudflare (max_attempts : nat) (op : operator)
      : list event * outcome :=
      let '(tr, returned) := rounds 0 max_attempts in
      if returned then (tr, Return true)
      else (tr ++ [Prompt; AwaitEnter],
            match op with Enter _ => Return true | EndOfInput => RaiseEOF end).
End Gate.

  (** [PageCapturerService._handle_cloudflare]: three rounds, five seconds
      of sleep after each detection. *)
Definition capturer_handle_cloudflare (page : nat -> string * string)
      (op : operator) : list event * outcome :=
    handle_cloudflare capturer_is_cloudflare (fun _ => [Sleep 5]) page 3 op.

  (** [PDFDownloaderService._handle_cloudflare]: the clicking attempt, whose
      exceptions are swallowed, then two seconds of sleep. *)
Definition downloader_handle_cloudflare (page : nat -> string * string)
      (max_attempts : nat) (op : operator) : list event * outcome :=
    handle_cloudflare downloader_is_cloudflare
      (fun attempt => [AutoClear attempt; Sleep 2]) page max_attempts op.

Definition is_inspect (e : event) : bool :=
    match e with Inspect _ _ => true | _ => false end.

Definition inspections (tr : list event) : nat :=
    length (List.filter is_inspect tr).


(** *** Properties of the gate *)

Section GateFacts.
Variable is_cloudflare : string -> string -> bool.
Variable after_detection : nat -> list event.
Variable page : nat -> string * string.

(** The events of [n] rounds that all detect the challenge, from round [k]. *)
Fixpoint detected_rounds (k n : nat) : list event :=
  match n with
  | O => []
  | S n' => Inspect (fst (page k)) (snd (page k))
              :: after_detection k ++ detected_rounds (S k) n'
  end.

Lemma rounds_all_detected n : forall k,
  (forall i, (k <= i < k + n)%nat ->
             is_cloudflare (fst (page i)) (snd (page i)) = true) ->
  rounds is_cloudflare after_detection page k n = (detected_rounds k n, false).
Proof.
  induction n as [|n IH]; intros k Hall; simpl.
  - reflexivity.
  - unfold inspect. rewrite (Hall k) by lia.
    rewrite IH; [reflexivity|]. intros i Hi. apply Hall. lia.
Qed.

Lemma rounds_first_cleared k n :
  is_cloudflare (fst (page k)) (snd (page k)) = false ->
  rounds is_cloudflare after_detection page k (S n)
  = ([Inspect (fst (page k)) (snd (page k))], true).
Proof. intros H. simpl. unfold inspect. rewrite H. reflexivity. Qed.

Lemma inspections_detected_rounds n : forall k,
  (forall i, inspections (after_detection i) = 0%nat) ->
  inspections (detected_rounds k n) = n.
Proof.
  unfold inspections. induction n as [|n IH]; intros k Hno; simpl.
  - reflexivity.
  - rewrite List.filter_app, length_app.
    rewrite (Hno k), (IH (S k) Hno). reflexivity.
Qed.
End GateFacts.


(** A page that shows the phrase and none of the markers of the code. *)
Definition phrase_page (n : nat) : string * string :=
  ("Example Domain", "<p>checking if the connection is secure</p>").

(** A page that stays a challenge page for ever. *)
Definition stuck_page (n : nat) : string * string :=
  ("Just a moment...", "<title>Just a moment...</title>").





(** C7: when the markers are still there at each of the three inspections,
    the gate prints its prompt and waits for Enter as its last action; once
    Enter is pressed it returns [True], whatever was typed and whatever the
    page shows by then: the page was inspected three times, all before the
    wait.  This holds for the gate of the page capturer and, with its own
    markers and its default of three attempts, for the gate of the PDF
    downloader. *)
Theorem manual_fallback_after_three_rounds
    (page : nat -> string * string) (line : string) :
  let look i := Inspect (fst (page i)) (snd (page i)) in
  ((forall i, (i < 3)%nat ->
      capturer_is_cloudflare (fst (page i)) (snd (page i)) = true) ->
   capturer_handle_cloudflare page (Enter line)
   = ([look 0%nat; Sleep 5; look 1%nat; Sleep 5; look 2%nat; Sleep 5;
       Prompt; AwaitEnter], Return true) /\
   inspections (fst (capturer_handle_cloudflare page (Enter line))) = 3%nat)
  /\
  ((forall i, (i < 3)%nat ->
      downloader_is_cloudflare (fst (page i)) (snd (page i)) = true) ->
   downloader_handle_cloudflare page 3 (Enter line)
   = ([look 0%nat; AutoClear 0; Sleep 2; look 1%nat; AutoClear 1; Sleep 2;
       look 2%nat; AutoClear 2; Sleep 2; Prompt; AwaitEnter], Return true) /\
   inspections (fst (downloader_handle_cloudflare page 3 (Enter line))) = 3%nat).
Proof.
  intros look. split.
  - intros Hc.
    assert (E : capturer_handle_cloudflare page (Enter line)
      = ([look 0%nat; Sleep 5; look 1%nat; Sleep 5; look 2%nat; Sleep 5;
          Prompt; AwaitEnter], Return true)).
    { unfold capturer_handle_cloudflare, handle_cloudflare.
      rewrite rounds_all_detected by (intros i Hi; apply Hc; lia).
      reflexivity. }
    rewrite E. split; reflexivity.
  - intros Hd.
    assert (E : downloader_handle_cloudflare page 3 (Enter line)
      = ([look 0%nat; AutoClear 0; Sleep 2; look 1%nat; AutoClear 1; Sleep 2;
          look 2%nat; AutoClear 2; Sleep 2; Prompt; AwaitEnter], Return true)).
    { unfold downloader_handle_cloudflare, handle_cloudflare.
      rewrite rounds_all_detected by (intros i Hi; apply Hd; lia).
      reflexivity. }
    rewrite E. split; reflexivity.
Qed.

Lemma manual_fallback_witness :
  (forall i, (i < 3)%nat ->
     capturer_is_cloudflare (fst (stuck_page i)) (snd (stuck_page i)) = true) /\
  capturer_handle_cloudflare stuck_page (Enter "ok")
  = ([Inspect "Just a moment..." "<title>Just a moment...</title>"; Sleep 5;
      Inspect "Just a moment..." "<title>Just a moment...</title>"; Sleep 5;
      Inspect "Just a moment..." "<title>Just a moment...</title>"; Sleep 5;
      Prompt; AwaitEnter], Return true).
Proof.
  assert (H : forall i, (i < 3)%nat ->
     capturer_is_cloudflare (fst (stuck_page i)) (snd (stuck_page i)) = true)
    by (intros i _; reflexivity).
  split; [exact H|].
  exact (proj1 (proj1 (manual_fallback_after_three_rounds stuck_page "ok") H)).
Defined.

(** When standard input is closed the wait raises instead of returning. *)
Example manual_fallback_without_operator :
  snd (capturer_handle_cloudflare stuck_page EndOfInput) = RaiseEOF.
Proof. reflexivity. Qed.

(** *** The whole behaviour of the gate *)

Section GateShape.
Variable is_cloudflare : string -> string -> bool.
Variable after_detection : nat -> list event.
Variable page : nat -> string * string.

Definition detects (i : nat) : bool :=
  is_cloudflare (fst (page i)) (snd (page i)).

Definition look (i : nat) : event := Inspect (fst (page i)) (snd (page i)).

(** The loop either runs through all its rounds, every one of which detects
    the challenge, or returns at the first round that does not. *)
Lemma rounds_shape n : forall k,
  exists j, (j <= n)%nat /\
    (forall i, (k <= i < k + j)%nat -> detects i = true) /\
    ((j < n)%nat -> detects (k + j) = false) /\
    rounds is_cloudflare after_detection page k n
    = if (j <? n)%nat
      then (detected_rounds after_detection page k j ++ [look (k + j)], true)
      else (detected_rounds after_detection page k n, false).
Proof.
  induction n as [|n IH]; intros k.
  - exists 0%nat. split; [lia|]. split; [intros i Hi; lia|].
    split; [lia|]. reflexivity.
  - destruct (detects k) eqn:Hk.
    + destruct (IH (S k)) as (j & Hj & Hall & Hstop & Hrun).
      exists (S j). split; [lia|]. split.
      * intros i Hi. destruct (Nat.eq_dec i k) as [->|Hne]; [exact Hk|].
        apply Hall. lia.
      * split.
        -- intros Hlt. replace (k + S j)%nat with (S k + j)%nat by lia.
           apply Hstop. lia.
        -- cbn [rounds]. unfold inspect. fold (detects k). rewrite Hk, Hrun.
           replace (k + S j)%nat with (S k + j)%nat by lia.
           change (S j <? S n)%nat with (j <? n)%nat.
           destruct (j <? n)%nat; cbn [detected_rounds app];
             rewrite <- ?app_assoc; reflexivity.
    + exists 0%nat. split; [lia|]. split; [intros i Hi; lia|]. split.
      * intros _. rewrite Nat.add_0_r. exact Hk.
      * cbn [rounds]. unfold inspect. fold (detects k). rewrite Hk.
        rewrite Nat.add_0_r. reflexivity.
Qed.

(** What a round does after a detection is neither an inspection nor the
    prompt nor the wait for the operator. *)
Definition quiet (e : event) : Prop :=
  is_inspect e = false /\ e <> Prompt /\ e <> AwaitEnter.

Hypothesis after_detection_quiet : forall i, Forall quiet (after_detection i).

Lemma detected_rounds_count n : forall k,
  inspections (detected_rounds after_detection page k n) = n /\
  ~ In Prompt (detected_rounds after_detection page k n) /\
  ~ In AwaitEnter (detected_rounds after_detection page k n).
Proof.
  assert (Hq : forall i,
            inspections (after_detection i) = 0%nat /\
            ~ In Prompt (after_detection i) /\
            ~ In AwaitEnter (after_detection i)).
  { intros i. specialize (after_detection_quiet i).
    induction (after_detection i) as [|e l IHl].
    - split; [reflexivity|]. split; intros [].
    - inversion after_detection_quiet as [|? ? (He1 & He2 & He3) Hl]; subst.
      destruct (IHl Hl) as (H1 & H2 & H3). unfold inspections in *. simpl.
      rewrite He1. split; [exact H1|].
      split; intros [Heq|Hin]; [congruence|tauto|congruence|tauto]. }
  induction n as [|n IH]; intros k; cbn [detected_rounds].
  - split; [reflexivity|]. split; intros [].
  - destruct (IH (S k)) as (H1 & H2 & H3).
    destruct (Hq k) as (Q1 & Q2 & Q3).
    unfold inspections in *. simpl. rewrite List.filter_app, length_app, Q1, H1.
    split; [reflexivity|].
    split; (intros [Heq|Hin]; [discriminate|apply in_app_or in Hin; tauto]).
Qed.

(** The gate as a whole: [j] is the number of rounds that detect the
    challenge before the first that does not, or all of them. *)
Lemma handle_cloudflare_shape max_attempts op :
  exists j, (j <= max_attempts)%nat /\
    (forall i, (i < j)%nat -> detects i = true) /\
    ((j < max_attempts)%nat -> detects j = false) /\
    handle_cloudflare is_cloudflare after_detection page max_attempts op
    = if (j <? max_attempts)%nat
      then (detected_rounds after_detection page 0 j ++ [look j], Return true)
      else (detected_rounds after_detection page 0 max_attempts
              ++ [Prompt; AwaitEnter],
            match op with Enter _ => Return true | EndOfInput => RaiseEOF end).
Proof.
  destruct (rounds_shape max_attempts 0) as (j & Hj & Hall & Hstop & Hrun).
  exists j. split; [exact Hj|]. split; [intros i Hi; apply Hall; lia|].
  split; [exact Hstop|]. unfold handle_cloudflare. rewrite Hrun.
  destruct (j <? max_attempts)%nat; reflexivity.
Qed.

End GateShape.

Lemma capturer_rounds_quiet i :
  Forall quiet ((fun _ : nat => [Sleep 5]) i).
Proof. repeat constructor; discriminate. Qed.

Lemma downloader_rounds_quiet i :
  Forall quiet ((fun attempt : nat => [AutoClear attempt; Sleep 2]) i).
Proof. repeat constructor; discriminate. Qed.

(** *** The gate when the page cannot be read *)

(** [page.title()] and [page.content()] are awaited outside any [try]: when
    one of them raises, the exception leaves [_handle_cloudflare]. *)
Inductive gate_exit :=
| Leaves (o : outcome)     (* as above: a return, or EOFError from input() *)
| PageReadRaises.          (* the error of page.title() or page.content() *)

Inductive loop_end := LoopReturns | LoopExhausted | LoopRaises.

Section GateReading.
Variable is_cloudflare : string -> string -> bool.
Variable after_detection : nat -> list event.
(** The title and the content read at the n-th round, [None] when one of
    the two reads raises. *)
Variable reads : nat -> option (string * string).

(** [for attempt in range(max_attempts)] with reads that can fail. *)
Fixpoint reading_rounds (attempt todo : nat) : list event * loop_end :=
  match todo with
  | O => ([], LoopExhausted)
  | S todo' =>
      match reads attempt with
      | None => ([], LoopRaises)
      | Some (title, content) =>
          if is_cloudflare title content then
            let '(tr, e) := reading_rounds (S attempt) todo' in
            (Inspect title content :: after_detection attempt ++ tr, e)
          else ([Inspect title content], LoopReturns)
      end
  end.

Definition reading_handle_cloudflare (max_attempts : nat) (op : operator)
  : list event * gate_exit :=
  let '(tr, e) := reading_rounds 0 max_attempts in
  match e with
  | LoopReturns => (tr, Leaves (Return true))
  | LoopRaises => (tr, PageReadRaises)
  | LoopExhausted =>
      (tr ++ [Prompt; AwaitEnter],
       Leaves (match op with Enter _ => Return true | EndOfInput => RaiseEOF end))
  end.

(** The round reads the page and finds the markers. *)
Definition found (i : nat) : bool :=
  match reads i with
  | Some (title, content) => is_cloudflare title content
  | None => false
  end.

Hypothesis after_detection_quiet : forall i, Forall quiet (after_detection i).

Lemma quiet_events (l : list event) :
  Forall quiet l ->
  inspections l = 0%nat /\ ~ In Prompt l /\ ~ In AwaitEnter l.
Proof.
  induction 1 as [|e l (He1 & He2 & He3) Hl (H1 & H2 & H3)].
  - split; [reflexivity|]. split; intros [].
  - unfold inspections in *. simpl. rewrite He1. split; [exact H1|].
    split; intros [Heq|Hin]; [congruence|tauto|congruence|tauto].
Qed.

Lemma reading_rounds_facts n : forall k,
  (inspections (fst (reading_rounds k n)) <= n)%nat /\
  ~ In Prompt (fst (reading_rounds k n)) /\
  ~ In AwaitEnter (fst (reading_rounds k n)) /\
  (snd (reading_rounds k n) = LoopExhausted <->
   forall i, (k <= i < k + n)%nat -> found i = true) /\
  (snd (reading_rounds k n) = LoopRaises <->
   exists j, (k <= j < k + n)%nat /\ reads j = None /\
             forall i, (k <= i < j)%nat -> found i = true).
Proof.
  induction n as [|n IH]; intros k; cbn [reading_rounds].
  - cbn [fst snd]. split; [unfold inspections; simpl; lia|].
    split; [intros []|]. split; [intros []|]. split.
    + split; [intros _ i Hi; lia|reflexivity].
    + split; [discriminate|intros (j & Hj & _); lia].
  - destruct (reads k) as [[title content]|] eqn:Hk.
    + destruct (is_cloudflare title content) eqn:Hc.
      * destruct (IH (S k)) as (I1 & I2 & I3 & I4 & I5).
        destruct (reading_rounds (S k) n) as [tr e]. cbn [fst snd] in *.
        destruct (quiet_events _ (after_detection_quiet k)) as (Q1 & Q2 & Q3).
        assert (Hfk : found k = true) by (unfold found; rewrite Hk; exact Hc).
        split.
        { unfold inspections in *. simpl.
          rewrite List.filter_app, length_app, Q1. lia. }
        split; [intros [Heq|Hin];
                [discriminate|apply in_app_or in Hin; tauto]|].
        split; [intros [Heq|Hin];
                [discriminate|apply in_app_or in Hin; tauto]|].
        split.
        { rewrite I4. split.
          - intros Hall i Hi. destruct (Nat.eq_dec i k) as [->|Hne];
              [exact Hfk|apply Hall; lia].
          - intros Hall i Hi. apply Hall. lia. }
        { rewrite I5. split.
          - intros (j & Hj & Hnone & Hall). exists j. split; [lia|].
            split; [exact Hnone|]. intros i Hi.
            destruct (Nat.eq_dec i k) as [->|Hne]; [exact Hfk|apply Hall; lia].
          - intros (j & Hj & Hnone & Hall).
            assert (j <> k) by (intros ->; congruence).
            exists j. split; [lia|]. split; [exact Hnone|].
            intros i Hi. apply Hall. lia. }
      * assert (Hfk : found k = false) by (unfold found; rewrite Hk; exact Hc).
        cbn [fst snd]. split; [unfold inspections; simpl; lia|].
        split; [intros [Heq|[]]; discriminate|].
        split; [intros [Heq|[]]; discriminate|]. split.
        { split; [discriminate|]. intros Hall.
          rewrite (Hall k) in Hfk by lia. discriminate. }
        { split; [discriminate|]. intros (j & Hj & Hnone & Hall).
          destruct (Nat.eq_dec j k) as [->|Hne]; [congruence|].
          rewrite (Hall k) in Hfk by lia. discriminate. }
    + cbn [fst snd]. split; [unfold inspections; simpl; lia|].
      split; [intros []|]. split; [intros []|]. split.
      * split; [discriminate|]. intros Hall.
        specialize (Hall k ltac:(lia)). unfold found in Hall.
        rewrite Hk in Hall. discriminate.
      * split; [|reflexivity]. intros _. exists k. split; [lia|].
        split; [exact Hk|]. intros i Hi. lia.
Qed.

(** The gate never returns [False]: it returns [True], or an exception
    leaves it. *)
Lemma reading_gate_never_refuses max_attempts op :
  let r := reading_handle_cloudflare max_attempts op in
  (snd r = Leaves (Return true) \/ snd r = PageReadRaises \/
   (op = EndOfInput /\ snd r = Leaves RaiseEOF)) /\
  (inspections (fst r) <= max_attempts)%nat /\
  (In Prompt (fst r) <->
   forall i, (i < max_attempts)%nat -> found i = true) /\
  (snd r = PageReadRaises <->
   exists j, (j < max_attempts)%nat /\ reads j = None /\
             forall i, (i < j)%nat -> found i = true) /\
  (snd r = Leaves RaiseEOF <->
   op = EndOfInput /\ forall i, (i < max_attempts)%nat -> found i = true).
Proof.
  cbv zeta. unfold reading_handle_cloudflare.
  destruct (reading_rounds_facts max_attempts 0) as (F1 & F2 & F3 & F4 & F5).
  assert (Hall : (forall i, (0 <= i < 0 + max_attempts)%nat -> found i = true)
                 <-> forall i, (i < max_attempts)%nat -> found i = true).
  { split; intros H i Hi; apply H; lia. }
  assert (Hex : (exists j, (0 <= j < 0 + max_attempts)%nat /\ reads j = None /\
                           forall i, (0 <= i < j)%nat -> found i = true)
                <-> exists j, (j < max_attempts)%nat /\ reads j = None /\
                              forall i, (i < j)%nat -> found i = true).
  { split; intros (j & Hj & Hn & H); exists j; (split; [lia|]);
      (split; [exact Hn|]); intros i Hi; apply H; lia. }
  rewrite Hall in F4. rewrite Hex in F5. clear Hall Hex.
  destruct (reading_rounds 0 max_attempts) as [tr e]. cbn [fst snd] in *.
  destruct e; cbn [fst snd].
  - split; [left; reflexivity|]. split; [exact F1|].
    split; [|split].
    + split; [contradiction|]. intros H. apply F4 in H. discriminate.
    + split; [discriminate|]. intros H. apply F5 in H. discriminate.
    + split; [discriminate|]. intros [_ H]. apply F4 in H. discriminate.
  - assert (Hd : forall i, (i < max_attempts)%nat -> found i = true)
      by (apply F4; reflexivity).
    split; [destruct op; [left; reflexivity|right; right; split; reflexivity]|].
    split.
    { unfold inspections in *. rewrite List.filter_app, length_app.
      simpl. lia. }
    split; [|split].
    + split; [intros _; exact Hd|]. intros _. apply in_or_app. right.
      left. reflexivity.
    + split; [destruct op; discriminate|]. intros H. apply F5 in H.
      discriminate.
    + destruct op; split; try discriminate; try (intros [H _]; discriminate).
      * intros _. split; [reflexivity|exact Hd].
      * intros _. reflexivity.
  - split; [right; left; reflexivity|]. split; [exact F1|].
    split; [|split].
    + split; [contradiction|]. intros H. apply F4 in H. discriminate.
    + split; [intros _; apply F5; reflexivity|reflexivity].
    + split; [discriminate|]. intros [_ H]. apply F4 in H. discriminate.
Qed.

(** When every read succeeds the gate is the one defined above. *)
Lemma reading_rounds_agree (page : nat -> string * string) n : forall k,
  (forall i, (k <= i < k + n)%nat -> reads i = Some (page i)) ->
  reading_rounds k n
  = (fst (rounds is_cloudflare after_detection page k n),
     if snd (rounds is_cloudflare after_detection page k n)
     then LoopReturns else LoopExhausted).
Proof.
  induction n as [|n IH]; intros k Hreads; [reflexivity|].
  cbn [reading_rounds rounds]. rewrite (Hreads k) by lia. unfold inspect.
  destruct (page k) as [title content]. cbn [fst snd].
  destruct (is_cloudflare title content); [|reflexivity].
  rewrite (IH (S k)) by (intros i Hi; apply Hreads; lia).
  destruct (rounds is_cloudflare after_detection page (S k) n) as [tr returned].
  reflexivity.
Qed.

Lemma reading_gate_agrees (page : nat -> string * string) max_attempts op :
  (forall i, (i < max_attempts)%nat -> reads i = Some (page i)) ->
  reading_handle_cloudflare max_attempts op
  = (fst (handle_cloudflare is_cloudflare after_detection page max_attempts op),
     Leaves (snd (handle_cloudflare is_cloudflare after_detection page
                    max_attempts op))).
Proof.
  intros Hreads. unfold reading_handle_cloudflare, handle_cloudflare.
  rewrite (reading_rounds_agree page max_attempts 0)
    by (intros i Hi; apply Hreads; lia).
  destruct (rounds is_cloudflare after_detection page 0 max_attempts)
    as [tr returned].
  destruct returned; reflexivity.
Qed.

End GateReading.

(** [PageCapturerService._handle_cloudflare] and
    [PDFDownloaderService._handle_cloudflare] with reads that can fail. *)
Definition capturer_gate (reads : nat -> option (string * string))
    (op : operator) : list event * gate_exit :=
  reading_handle_cloudflare capturer_is_cloudflare (fun _ => [Sleep 5])
    reads 3 op.

Definition downloader_gate (reads : nat -> option (string * string))
    (max_attempts : nat) (op : operator) : list event * gate_exit :=
  reading_handle_cloudflare downloader_is_cloudflare
    (fun attempt => [AutoClear attempt; Sleep 2]) reads max_attempts op.

(** X1: neither gate ever returns [False]: it returns [True], or an
    exception leaves it, which is the error of a read of the page (its
    title or its content) or [EOFError] from the wait for the operator on a
    closed input.  It inspects the page at most [max_attempts] times (three
    for the page capturer); it prompts the operator exactly when every one
    of these rounds read the page and found the markers, so with
    [max_attempts = 0] it goes straight to the prompt; the error of a read
    leaves it exactly when a read fails after rounds that all found the
    markers, and [EOFError] exactly when it prompts and the input is
    closed. *)
Theorem gate_never_refuses (reads : nat -> option (string * string))
    (op : operator) (max_attempts : nat) :
  let c := capturer_gate reads op in
  let d := downloader_gate reads max_attempts op in
  ((snd c = Leaves (Return true) \/ snd c = PageReadRaises \/
    (op = EndOfInput /\ snd c = Leaves RaiseEOF)) /\
   (inspections (fst c) <= 3)%nat /\
   (In Prompt (fst c) <->
    forall i, (i < 3)%nat -> found capturer_is_cloudflare reads i = true) /\
   (snd c = PageReadRaises <->
    exists j, (j < 3)%nat /\ reads j = None /\
      forall i, (i < j)%nat -> found capturer_is_cloudflare reads i = true) /\
   (snd c = Leaves RaiseEOF <->
    op = EndOfInput /\
    forall i, (i < 3)%nat -> found capturer_is_cloudflare reads i = true))
  /\
  ((snd d = Leaves (Return true) \/ snd d = PageReadRaises \/
    (op = EndOfInput /\ snd d = Leaves RaiseEOF)) /\
   (inspections (fst d) <= max_attempts)%nat /\
   (In Prompt (fst d) <->
    forall i, (i < max_attempts)%nat ->
      found downloader_is_cloudflare reads i = true) /\
   (snd d = PageReadRaises <->
    exists j, (j < max_attempts)%nat /\ reads j = None /\
      forall i, (i < j)%nat -> found downloader_is_cloudflare reads i = true) /\
   (snd d = Leaves RaiseEOF <->
    op = EndOfInput /\
    forall i, (i < max_attempts)%nat ->
      found downloader_is_cloudflare reads i = true)).
Proof.
  split.
  - exact (reading_gate_never_refuses capturer_is_cloudflare
             (fun _ => [Sleep 5]) reads capturer_rounds_quiet 3 op).
  - exact (reading_gate_never_refuses downloader_is_cloudflare
             (fun attempt => [AutoClear attempt; Sleep 2]) reads
             downloader_rounds_quiet max_attempts op).
Qed.

(** A page that stays a challenge page and cannot be read any more at the
    second round, as when the browser has been closed. *)
Definition lost_page (n : nat) : option (string * string) :=
  match n with 0%nat => Some (stuck_page 0) | _ => None end.

Example lost_page_run :
  capturer_gate lost_page (Enter "")
  = ([Inspect "Just a moment..." "<title>Just a moment...</title>"; Sleep 5],
     PageReadRaises).
Proof. vm_compute. reflexivity. Qed.

(** A page that is a challenge page at the first two inspections only. *)
Definition clearing_page (n : nat) : string * string :=
  if (n <? 2)%nat then stuck_page n else phrase_page n.

Example clearing_page_run :
  capturer_handle_cloudflare clearing_page EndOfInput
  = ([Inspect "Just a moment..." "<title>Just a moment...</title>"; Sleep 5;
      Inspect "Just a moment..." "<title>Just a moment...</title>"; Sleep 5;
      Inspect "Example Domain" "<p>checking if the connection is secure</p>"],
     Return true).
Proof. vm_compute. reflexivity. Qed.

(** The first step of the script of [_build_js_code]: up to thirty looks at
    the page, one second apart, then three more seconds. *)
Definition js_wait (page : nat -> string * string) : list event :=
  fst (rounds js_still_verifying (fun _ => [Sleep 1]) page 0 30) ++ [Sleep 3].

Definition seconds (e : event) : nat :=
  match e with Sleep n => n | _ => 0%nat end.

Definition waited (tr : list event) : nat := list_sum (map seconds tr).

Lemma waited_app tr1 tr2 : waited (tr1 ++ tr2) = (waited tr1 + waited tr2)%nat.
Proof. unfold waited. rewrite map_app, list_sum_app. reflexivity. Qed.

Lemma waited_one_second_rounds page n : forall k,
  waited (detected_rounds (fun _ => [Sleep 1]) page k n) = n.
Proof.
  induction n as [|n IH]; intros k; [reflexivity|].
  cbn [detected_rounds]. change (waited (?e :: ?l)) with (seconds e + waited l)%nat.
  rewrite waited_app, IH. reflexivity.
Qed.

(** X2: the script never waits for the verification for ever and never asks
    anybody: it sleeps one second for each look that still shows the
    verification, stops looking at the first that does not, gives up after
    thirty, and goes on three seconds later; the wait is between 3 and 33
    seconds, and 33 exactly when all thirty looks showed the verification. *)
Theorem js_wait_is_bounded (page : nat -> string * string) :
  exists j, (j <= 30)%nat /\
    (forall i, (i < j)%nat ->
       js_still_verifying (fst (page i)) (snd (page i)) = true) /\
    ((j < 30)%nat -> js_still_verifying (fst (page j)) (snd (page j)) = false) /\
    waited (js_wait page) = (j + 3)%nat /\
    ~ In Prompt (js_wait page) /\ ~ In AwaitEnter (js_wait page).
Proof.
  destruct (rounds_shape js_still_verifying (fun _ => [Sleep 1]) page 30 0)
    as (j & Hj & Hall & Hstop & Hrun).
  exists j. split; [exact Hj|]. split; [intros i Hi; apply Hall; lia|].
  split; [exact Hstop|]. unfold js_wait. rewrite Hrun.
  assert (Hq : forall i, Forall quiet ((fun _ : nat => [Sleep 1]) i))
    by (intros i; repeat constructor; discriminate).
  destruct (j <? 30)%nat eqn:Hlt; cbn [fst].
  - destruct (detected_rounds_count js_still_verifying (fun _ => [Sleep 1]) page Hq j 0)
      as (_ & C2 & C3).
    rewrite !waited_app, waited_one_second_rounds.
    split; [unfold waited, look; simpl; lia|].
    split; intros Hin; repeat (apply in_app_or in Hin; destruct Hin as [Hin|Hin]);
      try contradiction; simpl in Hin; intuition discriminate.
  - apply Nat.ltb_ge in Hlt. assert (j = 30)%nat as -> by lia.
    destruct (detected_rounds_count js_still_verifying (fun _ => [Sleep 1]) page Hq 30 0)
      as (_ & C2 & C3).
    rewrite !waited_app, waited_one_second_rounds.
    split; [unfold waited, look; simpl; lia|].
    split; intros Hin; repeat (apply in_app_or in Hin; destruct Hin as [Hin|Hin]);
      try contradiction; simpl in Hin; intuition discriminate.
Qed.

End ChallengeGate.

(* ===================================================================== *)
(** ** The level chain of [verify_config.py] *)
(* ===================================================================== *)

Module LevelChain.
Import PyStr.

(** One entry of [target.levels] as the YAML file gives it.  A key that is
    absent is [None]; the code reads it with [.get(key, default)]. *)
Record yaml_level := {
  y_level : Z;
  y_name : option string;
  y_extract_pattern : option string;
  y_filter_pattern : option string }.

Record yaml_target := {
  y_base_url : option string;
  y_levels : list yaml_level }.

(** [level_config.get('name', f'Level{level}')] and the two patterns, which
    default to the empty string. *)
Definition level_name (lc : yaml_level) : string :=
  default ("Level" +:+ show_Z (y_level lc)) (y_name lc).
Definition extract_pattern (lc : yaml_level) : string :=
  default "" (y_extract_pattern lc).
Definition filter_pattern (lc : yaml_level) : string :=
  default "" (y_filter_pattern lc).

(** The dictionary appended to [level_results]. *)
Record link_record := {
  r_level : Z;
  r_level_name : string;
  r_url : string;
  r_source_url : string;
  r_extract_pattern : string;
  r_filter_pattern : string;
  r_matched_text : string }.

(** [crawler.arun(url=..., bypass_cache=True)]: it raises, or returns a
    result whose [success] is false, or returns the page. *)
Inductive arun_result := ArunRaise | ArunFailed | ArunOk (html : string).

(** What the runner does, each action tagged with the position in the chain
    (0 for the first declared level) of the level that does it. *)
Inductive action :=
| Fetch (url : string)                  (* crawler.arun(url=source_url) *)
| Pause                                 (* asyncio.sleep(0.5) *)
| SaveJsonl (level : Z) (rows : list link_record)
| Handoff (next_urls : list string).    (* current_urls = next_urls *)

Definition event : Type := nat * action.

(** What the body of [for link in raw_links] does with one candidate. *)
Inductive candidate_fate := Raised | Rejected | Survived (full_url : string).

(** The lists a level accumulates. *)
Record level_acc := {
  level_results : list link_record;
  next_urls : list string;
  filtered_count : nat }.

Record chain_state := {
  clock : nat;                              (* calls of crawler.arun so far *)
  trace : list event;
  all_results : gmap Z (list link_record) }.

(** [list(set(xs))]: the distinct elements, in an order the code does not
    choose. *)
Definition list_set (xs : list string) : list string :=
  elements (list_to_set xs : gset string).

(** The loop that keeps the first record of every URL. *)
Fixpoint dedup_by_url (seen_urls : gset string) (items : list link_record)
  : list link_record :=
  match items with
  | [] => []
  | item :: rest =>
      if decide (r_url item ∈ seen_urls) then dedup_by_url seen_urls rest
      else item :: dedup_by_url ({[ r_url item ]} ∪ seen_urls) rest
  end.

Section Chain.
(** The libraries the code calls.  [urljoin] is [urllib.parse.urljoin], which
    raises [ValueError] on some malformed input ([None]).  A pattern is
    compiled by [re] before use, which raises [re.error] on an invalid one
    ([None]); the flag says whether [re.IGNORECASE] is passed.  The extraction
    pattern is taken to have at most one group, so that [findall] returns
    strings. *)
Variable urljoin : string -> string -> option string.
Variable regex : Type.
Variable re_compile : bool -> string -> option regex.
Variable rx_match : regex -> string -> bool.
Variable rx_findall : regex -> string -> list string.
(** The answer to the n-th call of [crawler.arun]. *)
Variable arun : nat -> string -> arun_result.

(** Lines 104-110: the absolute URL of a candidate. *)
Definition resolve (base_url source_url link : string) : option string :=
  if startswith "http" link then Some link
  else if startswith "/" link then urljoin base_url link
  else urljoin source_url link.

(** Lines 104-145 for one candidate. *)
Definition filter_link (filter_pattern base_url source_url link : string)
  : candidate_fate :=
  match resolve base_url source_url link with
  | None => Raised
  | Some full_url =>
      if truthy filter_pattern then
        match re_compile false filter_pattern with
        | None => Raised
        | Some rx =>
            if rx_match rx full_url || rx_match rx link
            then Survived full_url else Rejected
        end
      else Survived full_url
  end.

Definition mk_record (lc : yaml_level) (source_url link full_url : string)
  : link_record :=
  {| r_level := y_level lc;
     r_level_name := level_name lc;
     r_url := full_url;
     r_source_url := source_url;
     r_extract_pattern := extract_pattern lc;
     r_filter_pattern := filter_pattern lc;
     r_matched_text := link |}.

Definition keep (acc : level_acc) (rec : link_record) : level_acc :=
  {| level_results := level_results acc ++ [rec];
     next_urls := next_urls acc ++ [r_url rec];
     filtered_count := S (filtered_count acc) |}.

(** [for link in raw_links]: the lists after the loop, and whether it was
    left by an exception; what was appended before stays appended. *)
Fixpoint process_links (lc : yaml_level) (base_url source_url : string)
    (raw_links : list string) (acc : level_acc) : level_acc * bool :=
  match raw_links with
  | [] => (acc, false)
  | link :: rest =>
      match filter_link (filter_pattern lc) base_url source_url link with
      | Raised => (acc, true)
      | Rejected => process_links lc base_url source_url rest acc
      | Survived full_url =>
          process_links lc base_url source_url rest
            (keep acc (mk_record lc source_url link full_url))
      end
  end.

Definition log (st : chain_state) (evs : list event) : chain_state :=
  {| clock := clock st; trace := trace st ++ evs; all_results := all_results st |}.

Definition tick (st : chain_state) : chain_state :=
  {| clock := S (clock st); trace := trace st; all_results := all_results st |}.

(** One turn of [for idx, source_url in enumerate(current_urls, 1)].  The
    sleep is inside the [try], so an exception skips it. *)
Definition process_source (pos : nat) (lc : yaml_level) (base_url : string)
    (source_url : string) (acc : level_acc) (st : chain_state)
  : level_acc * chain_state :=
  let st1 := tick (log st [(pos, Fetch source_url)]) in
  match arun (clock st) source_url with
  | ArunRaise => (acc, st1)
  | ArunFailed => (acc, log st1 [(pos, Pause)])
  | ArunOk html =>
      if truthy (extract_pattern lc) then
        match re_compile true (extract_pattern lc) with
        | None => (acc, st1)
        | Some rx =>
            let raw_links := list_set (rx_findall rx html) in
            let '(acc', raised) :=
              process_links lc base_url source_url raw_links acc in
            (acc', if raised then st1 else log st1 [(pos, Pause)])
        end
      else (acc, log st1 [(pos, Pause)])
  end.

Fixpoint process_sources (pos : nat) (lc : yaml_level) (base_url : string)
    (current_urls : list string) (acc : level_acc) (st : chain_state)
  : level_acc * chain_state :=
  match current_urls with
  | [] => (acc, st)
  | source_url :: rest =>
      let '(acc', st') := process_source pos lc base_url source_url acc st in
      process_sources pos lc base_url rest acc' st'
  end.

Definition empty_acc : level_acc :=
  {| level_results := []; next_urls := []; filtered_count := 0 |}.

(** The body of [for level_config in levels] up to the update of
    [current_urls]: the next frontier and the state. *)
Definition process_level (pos : nat) (lc : yaml_level) (base_url : string)
    (current_urls : list string) (st : chain_state)
  : list string * chain_state :=
  let '(acc, st1) := process_sources pos lc base_url current_urls empty_acc st in
  let rows := dedup_by_url ∅ (level_results acc) in
  let nexts := list_set (next_urls acc) in
  (nexts,
   {| clock := clock st1;
      trace := trace st1 ++ [(pos, SaveJsonl (y_level lc) rows); (pos, Handoff nexts)];
      all_results := <[ y_level lc := rows ]> (all_results st1) |}).

(** [for level_config in levels], with the [break] on an empty frontier. *)
Fixpoint run_levels (pos : nat) (levels : list yaml_level) (base_url : string)
    (current_urls : list string) (st : chain_state) : chain_state :=
  match levels with
  | [] => st
  | lc :: rest =>
      let '(nexts, st') := process_level pos lc base_url current_urls st in
      match nexts with
      | [] => st'
      | _ :: _ => run_levels (S pos) rest base_url nexts st'
      end
  end.

Definition initial_state : chain_state :=
  {| clock := 0; trace := []; all_results := ∅ |}.

(** [ConfigValidator.validate_and_extract]. *)
Definition validate_and_extract (target : yaml_target) : chain_state :=
  let base_url := default "https://papers.nips.cc/" (y_base_url target) in
  match y_levels target with
  | [] => initial_state
  | levels => run_levels 0 levels base_url [base_url] initial_state
  end.


(** *** Resolution of a candidate *)

Lemma rooted_not_http link :
  startswith "/" link = true -> startswith "http" link = false.
Proof.
  intros H. apply startswith_spec in H as [post ->]. reflexivity.
Qed.

Lemma scheme_is_http link :
  startswith "http://" link = true \/ startswith "https://" link = true ->
  startswith "http" link = true.
Proof.
  rewrite !startswith_spec. intros [[post ->]|[post ->]].
  - exists ("://" +:+ post). reflexivity.
  - exists ("s://" +:+ post). reflexivity.
Qed.

Lemma resolve_with_scheme base_url source_url link :
  startswith "http://" link = true \/ startswith "https://" link = true ->
  resolve base_url source_url link = Some link.
Proof. intros H. unfold resolve. rewrite (scheme_is_http _ H). reflexivity. Qed.

Lemma resolve_rooted base_url source_url link :
  startswith "/" link = true ->
  resolve base_url source_url link = urljoin base_url link.
Proof.
  intros H. unfold resolve. rewrite (rooted_not_http _ H), H. reflexivity.
Qed.

Lemma resolve_relative base_url source_url link :
  startswith "http" link = false -> startswith "/" link = false ->
  resolve base_url source_url link = urljoin source_url link.
Proof. intros H1 H2. unfold resolve. rewrite H1, H2. reflexivity. Qed.

(** *** The filter *)

Lemma keep_results acc rec :
  level_results (keep acc rec) = level_results acc ++ [rec].
Proof. reflexivity. Qed.

Lemma keep_next_urls acc rec :
  next_urls (keep acc rec) = next_urls acc ++ [r_url rec].
Proof. reflexivity. Qed.

Lemma filter_link_survived fp base_url source_url link full_url :
  filter_link fp base_url source_url link = Survived full_url ->
  resolve base_url source_url link = Some full_url.
Proof.
  unfold filter_link. destruct (resolve base_url source_url link) as [u|];
    [|discriminate].
  destruct (truthy fp); [|congruence].
  destruct (re_compile false fp) as [rx|]; [|discriminate].
  destruct (rx_match rx u || rx_match rx link); congruence.
Qed.

(** The loop appends, and what it appends are records of candidates of the
    list that survived. *)
Lemma process_links_appends lc base_url source_url raw_links : forall acc acc' raised,
  process_links lc base_url source_url raw_links acc = (acc', raised) ->
  exists appended,
    level_results acc' = level_results acc ++ appended /\
    next_urls acc' = next_urls acc ++ map r_url appended /\
    forall rec, In rec appended ->
      exists link, In link raw_links /\
        filter_link (filter_pattern lc) base_url source_url link
          = Survived (r_url rec) /\
        rec = mk_record lc source_url link (r_url rec).
Proof.
  induction raw_links as [|link rest IH]; intros acc acc' raised Hrun;
    simpl in Hrun.
  - inversion Hrun; subst. exists []. rewrite !app_nil_r.
    repeat split; intros rec [].
  - destruct (filter_link (filter_pattern lc) base_url source_url link)
      as [| |full_url] eqn:Hfate.
    + inversion Hrun; subst. exists []. rewrite !app_nil_r.
      repeat split; intros rec [].
    + destruct (IH _ _ _ Hrun) as (appended & H1 & H2 & H3).
      exists appended. repeat split; [exact H1|exact H2|].
      intros rec Hin. destruct (H3 rec Hin) as (l & Hl & Hf & Hr).
      exists l. repeat split; [right; exact Hl|exact Hf|exact Hr].
    + destruct (IH _ _ _ Hrun) as (appended & H1 & H2 & H3).
      exists (mk_record lc source_url link full_url :: appended).
      rewrite H1, H2, keep_results, keep_next_urls, <- !app_assoc.
      repeat split.
      intros rec [<-|Hin].
      * exists link. repeat split; [left; reflexivity|exact Hfate].
      * destruct (H3 rec Hin) as (l & Hl & Hf & Hr).
        exists l. repeat split; [right; exact Hl|exact Hf|exact Hr].
Qed.

(** When the loop runs to its end, every candidate of the list was decided,
    and the survivors are in what was appended. *)
Lemma process_links_complete lc base_url source_url raw_links : forall acc acc',
  process_links lc base_url source_url raw_links acc = (acc', false) ->
  exists appended,
    level_results acc' = level_results acc ++ appended /\
    next_urls acc' = next_urls acc ++ map r_url appended /\
    (forall rec, In rec appended ->
       exists link, In link raw_links /\
         filter_link (filter_pattern lc) base_url source_url link
           = Survived (r_url rec) /\
         rec = mk_record lc source_url link (r_url rec)) /\
    (forall link, In link raw_links ->
       filter_link (filter_pattern lc) base_url source_url link <> Raised /\
       forall full_url,
         filter_link (filter_pattern lc) base_url source_url link
           = Survived full_url ->
         In (mk_record lc source_url link full_url) appended).
Proof.
  induction raw_links as [|l rest IH]; intros acc acc' Hrun; simpl in Hrun.
  - inversion Hrun; subst. exists []. rewrite !app_nil_r.
    split; [reflexivity|]. split; [reflexivity|].
    split; intros ? [].
  - destruct (filter_link (filter_pattern lc) base_url source_url l)
      as [| |u] eqn:Hfate; [discriminate| |].
    + destruct (IH _ _ Hrun) as (appended & H1 & H2 & H3 & H4).
      exists appended. split; [exact H1|]. split; [exact H2|]. split.
      * intros rec Hin. destruct (H3 rec Hin) as (k & Hk & Hf & Hr).
        exists k. repeat split; [right; exact Hk|exact Hf|exact Hr].
      * intros link Hin. simpl in Hin. destruct Hin as [->|Hin];
          [|exact (H4 _ Hin)].
        split; [congruence|]. intros full_url Hs. congruence.
    + destruct (IH _ _ Hrun) as (appended & H1 & H2 & H3 & H4).
      exists (mk_record lc source_url l u :: appended).
      rewrite H1, H2, keep_results, keep_next_urls, <- !app_assoc.
      split; [reflexivity|]. split; [reflexivity|]. split.
      * intros rec [<-|Hin].
        -- exists l. repeat split; [left; reflexivity|exact Hfate].
        -- destruct (H3 rec Hin) as (k & Hk & Hf & Hr).
           exists k. repeat split; [right; exact Hk|exact Hf|exact Hr].
      * intros link Hin. simpl in Hin. destruct Hin as [->|Hin].
        -- split; [congruence|]. intros full_url Hs.
           left. congruence.
        -- destruct (H4 _ Hin) as [Hn Hs]. split; [exact Hn|].
           intros full_url Hf. right. exact (Hs _ Hf).
Qed.

(** C1: when the loop over the candidates of a page runs to its end, every
    candidate was resolved, and its record is among the records the loop
    appended (the candidate survives) as follows: with a filter pattern
    declared, exactly when the pattern matches the resolved absolute URL or
    the raw candidate string; with no filter pattern declared, always.  The
    URLs handed to the next level are the URLs of the appended records. *)
Theorem filter_survival lc base_url source_url raw_links acc acc' :
  process_links lc base_url source_url raw_links acc = (acc', false) ->
  exists appended,
    level_results acc' = level_results acc ++ appended /\
    next_urls acc' = next_urls acc ++ map r_url appended /\
    forall link, In link raw_links ->
      exists full_url,
        resolve base_url source_url link = Some full_url /\
        let survives := In (mk_record lc source_url link full_url) appended in
        (truthy (filter_pattern lc) = false -> survives) /\
        (truthy (filter_pattern lc) = true ->
           exists rx, re_compile false (filter_pattern lc) = Some rx /\
             (survives <->
              rx_match rx full_url = true \/ rx_match rx link = true)).
Proof.
  intros Hrun.
  destruct (process_links_complete _ _ _ _ _ _ Hrun)
    as (appended & H1 & H2 & H3 & H4).
  exists appended. split; [exact H1|]. split; [exact H2|].
  intros link Hin. destruct (H4 link Hin) as [Hnr Hsurv].
  unfold filter_link in Hnr, Hsurv.
  destruct (resolve base_url source_url link) as [full_url|] eqn:Hres;
    [|congruence].
  exists full_url. split; [reflexivity|]. cbv zeta. split.
  - intros Hno. rewrite Hno in Hsurv. apply Hsurv. reflexivity.
  - intros Hyes. rewrite Hyes in Hnr, Hsurv.
    destruct (re_compile false (filter_pattern lc)) as [rx|] eqn:Hrx;
      [|congruence].
    exists rx. split; [reflexivity|]. split.
    + intros Hrec. destruct (H3 _ Hrec) as (k & Hk & Hf & Hr).
      assert (k = link) as -> by (apply (f_equal r_matched_text) in Hr; symmetry; exact Hr).
      simpl in Hf. unfold filter_link in Hf. rewrite Hres, Hyes, Hrx in Hf.
      apply orb_true_iff.
      destruct (rx_match rx full_url || rx_match rx link);
        [reflexivity|discriminate].
    + intros Hm. apply orb_true_iff in Hm. rewrite Hm in Hsurv.
      apply Hsurv. reflexivity.
Qed.

Lemma resolve_http_prefixed base_url source_url :
  resolve base_url source_url "http_files/paper.pdf"
  = Some "http_files/paper.pdf".
Proof. reflexivity. Qed.

(** *** The trace of the runner *)

(** An action done inside a level: anything but the handoff. *)
Definition inner (pos : nat) (e : event) : Prop :=
  fst e = pos /\ forall l, snd e <> Handoff l.

Ltac all_inner :=
  repeat (apply List.Forall_cons; [assumption|]); apply List.Forall_nil.

Lemma process_source_trace pos lc base_url source_url acc st acc' st' :
  process_source pos lc base_url source_url acc st = (acc', st') ->
  exists new, trace st' = trace st ++ new /\ Forall (inner pos) new.
Proof.
  unfold process_source. intros H.
  assert (Hf : inner pos (pos, Fetch source_url)) by (split; [reflexivity|discriminate]).
  assert (Hp : inner pos (pos, Pause)) by (split; [reflexivity|discriminate]).
  destruct (arun (clock st) source_url) as [| |html].
  - inversion H; subst. exists [(pos, Fetch source_url)]. split; [reflexivity|].
    all_inner.
  - inversion H; subst. exists [(pos, Fetch source_url); (pos, Pause)].
    simpl. rewrite <- app_assoc. split; [reflexivity|].
    all_inner.
  - destruct (truthy (extract_pattern lc)).
    + destruct (re_compile true (extract_pattern lc)) as [rx|].
      * destruct (process_links lc base_url source_url
                    (list_set (rx_findall rx html)) acc) as [a raised].
        inversion H; subst. destruct raised.
        -- exists [(pos, Fetch source_url)]. split; [reflexivity|].
           all_inner.
        -- exists [(pos, Fetch source_url); (pos, Pause)].
           simpl. rewrite <- app_assoc. split; [reflexivity|].
           all_inner.
      * inversion H; subst. exists [(pos, Fetch source_url)].
        split; [reflexivity|]. all_inner.
    + inversion H; subst. exists [(pos, Fetch source_url); (pos, Pause)].
      simpl. rewrite <- app_assoc. split; [reflexivity|].
      all_inner.
Qed.

Lemma process_sources_trace pos lc base_url current_urls :
  forall acc st acc' st',
  process_sources pos lc base_url current_urls acc st = (acc', st') ->
  exists new, trace st' = trace st ++ new /\ Forall (inner pos) new.
Proof.
  induction current_urls as [|u rest IH]; intros acc st acc' st' H; simpl in H.
  - inversion H; subst. exists []. rewrite app_nil_r. split; [reflexivity|constructor].
  - destruct (process_source pos lc base_url u acc st) as [a1 s1] eqn:E1.
    destruct (process_source_trace _ _ _ _ _ _ _ _ E1) as (n1 & T1 & F1).
    destruct (IH _ _ _ _ H) as (n2 & T2 & F2).
    exists (n1 ++ n2). rewrite T2, T1, <- app_assoc. split; [reflexivity|].
    apply Forall_app; split; assumption.
Qed.

Lemma process_level_trace pos lc base_url current_urls st nexts st' :
  process_level pos lc base_url current_urls st = (nexts, st') ->
  exists new rows,
    trace st' = trace st ++ new
                  ++ [(pos, SaveJsonl (y_level lc) rows); (pos, Handoff nexts)] /\
    Forall (inner pos) new.
Proof.
  unfold process_level. intros H.
  destruct (process_sources pos lc base_url current_urls empty_acc st)
    as [acc st1] eqn:E.
  destruct (process_sources_trace _ _ _ _ _ _ _ _ E) as (new & T & F).
  inversion H; subst; simpl. exists new, (dedup_by_url ∅ (level_results acc)).
  rewrite T, <- app_assoc. split; [reflexivity|exact F].
Qed.

(** What [run_levels] adds to the trace: actions of the declared levels
    only, and nothing after a handoff of an empty frontier. *)
Lemma run_levels_trace base_url levels : forall pos current_urls st,
  exists new,
    trace (run_levels pos levels base_url current_urls st) = trace st ++ new /\
    Forall (fun e => pos <= fst e < pos + length levels) new /\
    forall k, In (k, Handoff []) new -> Forall (fun e => fst e <= k) new.
Proof.
  induction levels as [|lc rest IH]; intros pos current_urls st; simpl.
  - exists []. rewrite app_nil_r. split; [reflexivity|].
    split; [constructor|intros k []].
  - destruct (process_level pos lc base_url current_urls st)
      as [nexts st1] eqn:E.
    destruct (process_level_trace _ _ _ _ _ _ _ E) as (new & rows & T & F).
    assert (Hhere : Forall (fun e : event => fst e = pos)
              (new ++ [(pos, SaveJsonl (y_level lc) rows); (pos, Handoff nexts)])).
    { apply Forall_app; split.
      - eapply Forall_impl; [exact F|]. intros e He. apply He.
      - repeat constructor. }
    destruct nexts as [|n nexts].
    + exists (new ++ [(pos, SaveJsonl (y_level lc) rows); (pos, Handoff [])]).
      split; [exact T|]. split.
      * eapply Forall_impl; [exact Hhere|]. simpl. intros e ->. lia.
      * intros k Hk.
        pose proof (proj1 (List.Forall_forall _ _) Hhere _ Hk) as Hpos.
        simpl in Hpos. subst k.
        eapply Forall_impl; [exact Hhere|]. simpl. intros e ->. lia.
    + destruct (IH (S pos) (n :: nexts) st1) as (more & T2 & F2 & Stop).
      exists ((new ++ [(pos, SaveJsonl (y_level lc) rows);
                       (pos, Handoff (n :: nexts))]) ++ more).
      rewrite T2, T, !app_assoc. split; [reflexivity|]. split.
      * apply Forall_app; split.
        -- eapply Forall_impl; [exact Hhere|]. simpl. intros e ->. lia.
        -- eapply Forall_impl; [exact F2|]. simpl. intros e He. lia.
      * intros k Hk. apply in_app_or in Hk. destruct Hk as [Hk|Hk].
        -- exfalso. apply in_app_or in Hk. destruct Hk as [Hk|Hk].
           ++ apply (proj1 (List.Forall_forall _ _) F) in Hk.
              destruct Hk as [_ Hk]. exact (Hk [] eq_refl).
           ++ simpl in Hk. destruct Hk as [Hk|[Hk|[]]]; discriminate.
        -- specialize (Stop k Hk).
           assert (Hle : S pos <= k).
           { apply (proj1 (List.Forall_forall _ _) F2) in Hk. simpl in Hk. lia. }
           apply Forall_app; split; [|exact Stop].
           eapply Forall_impl; [exact Hhere|]. simpl. intros e ->. lia.
Qed.

(** C3: the runner acts only at the declared levels, and once a level hands
    an empty frontier over, nothing is done at any later level: in
    particular no URL is fetched at the level after it. *)
Theorem chain_stops_on_empty_frontier (target : yaml_target) :
  let tr := trace (validate_and_extract target) in
  (forall pos a, In (pos, a) tr -> pos < length (y_levels target)) /\
  (forall k, In (k, Handoff []) tr ->
     (forall pos a, In (pos, a) tr -> pos <= k) /\
     (forall url, ~ In (S k, Fetch url) tr)).
Proof.
  unfold validate_and_extract.
  destruct (y_levels target) as [|lc rest] eqn:Hlv.
  - simpl. split; [intros pos a []|intros k []].
  - set (base_url := default "https://papers.nips.cc/" (y_base_url target)).
    destruct (run_levels_trace base_url (lc :: rest) 0 [base_url] initial_state)
      as (new & T & F & Stop).
    cbv zeta. rewrite T. simpl app. split.
    + intros pos a Hin.
      apply (proj1 (List.Forall_forall _ _) F) in Hin. simpl in Hin. simpl. lia.
    + intros k Hk. specialize (Stop k Hk).
      assert (Hall : forall pos a, In (pos, a) new -> pos <= k).
      { intros pos a Hin.
        apply (proj1 (List.Forall_forall _ _) Stop) in Hin. exact Hin. }
      split; [exact Hall|].
      intros url Hin. specialize (Hall _ _ Hin). lia.
Qed.

(** *** What a level fetches, keeps and hands on *)

(** The URLs fetched at position [p], in the order of the trace. *)
Fixpoint fetched_at (p : nat) (tr : list event) : list string :=
  match tr with
  | [] => []
  | (q, Fetch u) :: rest =>
      if (q =? p)%nat then u :: fetched_at p rest else fetched_at p rest
  | _ :: rest => fetched_at p rest
  end.

Lemma fetched_at_app p tr1 tr2 :
  fetched_at p (tr1 ++ tr2) = fetched_at p tr1 ++ fetched_at p tr2.
Proof.
  induction tr1 as [|[q a] tr1 IH]; [reflexivity|].
  simpl. destruct a; try exact IH.
  destruct (q =? p)%nat; [simpl; rewrite IH; reflexivity|exact IH].
Qed.

Lemma fetched_at_elsewhere p tr :
  Forall (fun e : event => fst e <> p) tr -> fetched_at p tr = [].
Proof.
  induction 1 as [|[q a] tr He _ IH]; [reflexivity|].
  simpl in *. destruct a; try exact IH.
  destruct (Nat.eqb_spec q p); [contradiction|exact IH].
Qed.

(** The loop over the candidates keeps the two lists in step. *)
Lemma process_links_in_step lc base_url source_url raw_links :
  forall acc acc' raised,
  process_links lc base_url source_url raw_links acc = (acc', raised) ->
  next_urls acc = map r_url (level_results acc) ->
  next_urls acc' = map r_url (level_results acc').
Proof.
  intros acc acc' raised Hrun Hstep.
  destruct (process_links_appends _ _ _ _ _ _ _ Hrun) as (app & H1 & H2 & _).
  rewrite H1, H2, Hstep, map_app. reflexivity.
Qed.

(** One source URL: exactly one fetch, of that URL, and the lists stay in
    step. *)
Lemma process_source_fetches pos lc base_url source_url acc st acc' st' :
  process_source pos lc base_url source_url acc st = (acc', st') ->
  exists new,
    trace st' = trace st ++ new /\
    Forall (inner pos) new /\
    fetched_at pos new = [source_url] /\
    all_results st' = all_results st /\
    (next_urls acc = map r_url (level_results acc) ->
     next_urls acc' = map r_url (level_results acc')).
Proof.
  unfold process_source. intros H.
  assert (Hf : inner pos (pos, Fetch source_url))
    by (split; [reflexivity|discriminate]).
  assert (Hp : inner pos (pos, Pause)) by (split; [reflexivity|discriminate]).
  assert (F1 : fetched_at pos [(pos, Fetch source_url)] = [source_url]).
  { simpl. rewrite Nat.eqb_refl. reflexivity. }
  assert (F2 : fetched_at pos [(pos, Fetch source_url); (pos, Pause)]
               = [source_url]).
  { simpl. rewrite Nat.eqb_refl. reflexivity. }
  assert (Short : forall a,
    exists new,
      trace (tick (log st [(pos, Fetch source_url)])) = trace st ++ new /\
      Forall (inner pos) new /\ fetched_at pos new = [source_url] /\
      all_results (tick (log st [(pos, Fetch source_url)])) = all_results st /\
      (next_urls acc = map r_url (level_results acc) ->
       next_urls a = map r_url (level_results a) ->
       next_urls a = map r_url (level_results a))).
  { intros a. exists [(pos, Fetch source_url)]. split; [reflexivity|].
    split; [all_inner|]. split; [exact F1|]. split; [reflexivity|auto]. }
  assert (Long : forall a,
    exists new,
      trace (log (tick (log st [(pos, Fetch source_url)])) [(pos, Pause)])
      = trace st ++ new /\
      Forall (inner pos) new /\ fetched_at pos new = [source_url] /\
      all_results (log (tick (log st [(pos, Fetch source_url)])) [(pos, Pause)])
      = all_results st /\
      (next_urls acc = map r_url (level_results acc) ->
       next_urls a = map r_url (level_results a) ->
       next_urls a = map r_url (level_results a))).
  { intros a. exists [(pos, Fetch source_url); (pos, Pause)].
    split; [simpl; rewrite <- app_assoc; reflexivity|].
    split; [all_inner|]. split; [exact F2|]. split; [reflexivity|auto]. }
  destruct (arun (clock st) source_url) as [| |html].
  - inversion H; subst. destruct (Short acc') as (new & T & I & F & A & _).
    exists new. repeat split; auto.
  - inversion H; subst. destruct (Long acc') as (new & T & I & F & A & _).
    exists new. repeat split; auto.
  - destruct (truthy (extract_pattern lc)).
    + destruct (re_compile true (extract_pattern lc)) as [rx|].
      * destruct (process_links lc base_url source_url
                    (list_set (rx_findall rx html)) acc) as [a raised] eqn:Hl.
        pose proof (process_links_in_step _ _ _ _ _ _ _ Hl) as Hstep.
        inversion H; subst. destruct raised.
        -- destruct (Short acc') as (new & T & I & F & A & _).
           exists new. repeat split; auto.
        -- destruct (Long acc') as (new & T & I & F & A & _).
           exists new. repeat split; auto.
      * inversion H; subst. destruct (Short acc') as (new & T & I & F & A & _).
        exists new. repeat split; auto.
    + inversion H; subst. destruct (Long acc') as (new & T & I & F & A & _).
      exists new. repeat split; auto.
Qed.

Lemma process_sources_fetches pos lc base_url current_urls :
  forall acc st acc' st',
  process_sources pos lc base_url current_urls acc st = (acc', st') ->
  exists new,
    trace st' = trace st ++ new /\
    Forall (inner pos) new /\
    fetched_at pos new = current_urls /\
    all_results st' = all_results st /\
    (next_urls acc = map r_url (level_results acc) ->
     next_urls acc' = map r_url (level_results acc')).
Proof.
  induction current_urls as [|u rest IH]; intros acc st acc' st' H; simpl in H.
  - inversion H; subst. exists []. rewrite app_nil_r.
    repeat split; auto.
  - destruct (process_source pos lc base_url u acc st) as [a1 s1] eqn:E1.
    destruct (process_source_fetches _ _ _ _ _ _ _ _ E1)
      as (n1 & T1 & I1 & F1 & A1 & S1).
    destruct (IH _ _ _ _ H) as (n2 & T2 & I2 & F2 & A2 & S2).
    exists (n1 ++ n2). rewrite T2, T1, <- app_assoc, fetched_at_app, F1, F2.
    repeat split; [apply Forall_app; split; assumption|congruence|auto].
Qed.

Lemma dedup_by_url_members items : forall seen u,
  In u (map r_url (dedup_by_url seen items)) <->
  In u (map r_url items) /\ u ∉ seen.
Proof.
  induction items as [|item items IH]; intros seen u; simpl.
  - tauto.
  - destruct (decide (r_url item ∈ seen)) as [Hin|Hout].
    + rewrite IH. split.
      * intros [H1 H2]. tauto.
      * intros [[<-|H1] H2]; [contradiction|tauto].
    + simpl. rewrite IH. split.
      * intros [<-|[H1 H2]]; [tauto|]. split; [tauto|set_solver].
      * intros [[<-|H1] H2]; [tauto|].
        destruct (decide (u = r_url item)) as [->|Hne]; [tauto|].
        right. split; [exact H1|set_solver].
Qed.

Lemma list_set_members xs u : In u (list_set xs) <-> In u xs.
Proof.
  unfold list_set.
  rewrite <- !list_elem_of_In, elem_of_elements, elem_of_list_to_set.
  reflexivity.
Qed.

Lemma list_set_nodup xs : NoDup (list_set xs).
Proof. unfold list_set. apply NoDup_elements. Qed.

Lemma dedup_by_url_once items : forall seen,
  NoDup (map r_url (dedup_by_url seen items)).
Proof.
  induction items as [|item items IH]; intros seen; simpl; [constructor|].
  destruct (decide (r_url item ∈ seen)) as [Hin|Hout]; [apply IH|].
  simpl. apply NoDup_cons. split; [|apply IH].
  intros Hi. apply list_elem_of_In, dedup_by_url_members in Hi.
  destruct Hi as [_ Hi]. set_solver.
Qed.

(** X3: a level fetches every URL of its frontier once, in order, whatever
    the fetches answer; the rows it saves hold each URL once, and these are
    the very URLs it hands on to the next level, which come without
    repetition. *)
Theorem level_fetches_frontier_and_hands_on_rows
    (pos : nat) (lc : yaml_level) (base_url : string)
    (current_urls : list string) (st : chain_state) :
  let out := process_level pos lc base_url current_urls st in
  exists new rows,
    trace (snd out)
    = trace st ++ new
        ++ [(pos, SaveJsonl (y_level lc) rows); (pos, Handoff (fst out))] /\
    Forall (inner pos) new /\
    fetched_at pos new = current_urls /\
    all_results (snd out) !! y_level lc = Some rows /\
    NoDup (map r_url rows) /\
    NoDup (fst out) /\
    (forall u, In u (fst out) <-> In u (map r_url rows)).
Proof.
  cbv zeta. unfold process_level.
  destruct (process_sources pos lc base_url current_urls empty_acc st)
    as [acc st1] eqn:E.
  destruct (process_sources_fetches _ _ _ _ _ _ _ _ E)
    as (new & T & I & F & A & S).
  specialize (S eq_refl). cbn [fst snd trace all_results].
  exists new, (dedup_by_url ∅ (level_results acc)).
  rewrite T, <- app_assoc. split; [reflexivity|]. split; [exact I|].
  split; [exact F|]. split; [apply lookup_insert_eq|].
  split; [apply dedup_by_url_once|]. split; [apply list_set_nodup|].
  intros u. rewrite list_set_members, S, dedup_by_url_members. set_solver.
Qed.

(** The chain as a whole: the first level fetches the base URL, and each
    further level that runs fetches what the level before handed on. *)
Lemma run_levels_fetches base_url levels : forall pos current_urls st,
  exists new,
    trace (run_levels pos levels base_url current_urls st) = trace st ++ new /\
    Forall (fun e : event => pos <= fst e) new /\
    (levels <> [] -> fetched_at pos new = current_urls) /\
    (forall p nexts, In (p, Handoff nexts) new ->
       nexts <> [] -> S p < pos + length levels ->
       fetched_at (S p) new = nexts).
Proof.
  induction levels as [|lc rest IH]; intros pos current_urls st.
  - exists []. cbn [run_levels]. rewrite app_nil_r. split; [reflexivity|].
    split; [constructor|]. split; [congruence|intros p nexts []].
  - cbn [run_levels].
    destruct (level_fetches_frontier_and_hands_on_rows pos lc base_url
                current_urls st) as (new & rows & T & I & F & _).
    destruct (process_level pos lc base_url current_urls st)
      as [nexts st1] eqn:E. cbn [fst snd] in T.
    set (here := new ++ [(pos, SaveJsonl (y_level lc) rows);
                         (pos, Handoff nexts)]) in *.
    assert (Hhere : Forall (fun e : event => fst e = pos) here).
    { apply Forall_app; split.
      - eapply Forall_impl; [exact I|]. intros e He. apply He.
      - repeat constructor. }
    assert (Fhere : fetched_at pos here = current_urls).
    { unfold here. rewrite fetched_at_app, F. simpl. apply app_nil_r. }
    assert (Hhand : forall p n, In (p, Handoff n) here -> p = pos /\ n = nexts).
    { intros p n Hin. apply in_app_or in Hin. destruct Hin as [Hin|Hin].
      - apply (proj1 (List.Forall_forall _ _) I) in Hin.
        destruct Hin as [_ Hin]. exfalso. exact (Hin n eq_refl).
      - simpl in Hin. destruct Hin as [Hin|[Hin|[]]]; [discriminate|].
        inversion Hin; subst. split; reflexivity. }
    destruct nexts as [|n nexts].
    + exists here. split; [exact T|]. split.
      * eapply Forall_impl; [exact Hhere|]. simpl. intros e ->. lia.
      * split; [intros _; exact Fhere|].
        intros p n Hin Hne. destruct (Hhand _ _ Hin) as [_ ->]. congruence.
    + destruct (IH (S pos) (n :: nexts) st1) as (more & T2 & L2 & F2 & H2).
      exists (here ++ more). rewrite T2, T, <- app_assoc.
      split; [reflexivity|]. split.
      * apply Forall_app; split.
        -- eapply Forall_impl; [exact Hhere|]. simpl. intros e ->. lia.
        -- eapply Forall_impl; [exact L2|]. simpl. intros e He. lia.
      * assert (Hmore : forall q, q <= pos -> fetched_at q more = []).
        { intros q Hq. apply fetched_at_elsewhere.
          eapply Forall_impl; [exact L2|]. simpl. intros e He. lia. }
        assert (Hnot : forall q, q <> pos -> fetched_at q here = []).
        { intros q Hq. apply fetched_at_elsewhere.
          eapply Forall_impl; [exact Hhere|]. simpl. intros e ->. lia. }
        split.
        -- intros _. rewrite fetched_at_app, Fhere, Hmore by lia.
           apply app_nil_r.
        -- intros p m Hin Hne Hlt. rewrite fetched_at_app.
           apply in_app_or in Hin. destruct Hin as [Hin|Hin].
           ++ destruct (Hhand _ _ Hin) as [-> ->].
              rewrite Hnot by lia.
              apply F2. destruct rest; [simpl in Hlt; lia|discriminate].
           ++ assert (S pos <= p).
              { apply (proj1 (List.Forall_forall _ _) L2) in Hin. exact Hin. }
              rewrite Hnot by lia.
              apply (H2 _ _ Hin Hne). simpl in Hlt. lia.
Qed.

(** X4: over the whole run, the first level fetches the base URL and nothing
    else, and every later level that the chain declares fetches exactly the
    URLs the level before it handed on, each once and in that order. *)
Theorem chain_fetches_what_was_handed_on (target : yaml_target) :
  let tr := trace (validate_and_extract target) in
  let base_url := default "https://papers.nips.cc/" (y_base_url target) in
  (y_levels target <> [] -> fetched_at 0 tr = [base_url]) /\
  (forall p nexts, In (p, Handoff nexts) tr ->
     nexts <> [] -> S p < length (y_levels target) ->
     fetched_at (S p) tr = nexts).
Proof.
  cbv zeta. unfold validate_and_extract.
  destruct (y_levels target) as [|lc rest] eqn:Hlv.
  - split; [congruence|]. intros p nexts [].
  - destruct (run_levels_fetches
                (default "https://papers.nips.cc/" (y_base_url target))
                (lc :: rest) 0
                [default "https://papers.nips.cc/" (y_base_url target)]
                initial_state) as (new & T & _ & F & H).
    rewrite T. cbn [trace initial_state app]. split.
    + intros _. apply F. discriminate.
    + intros p nexts Hin Hne Hlt. exact (H _ _ Hin Hne Hlt).
Qed.

(** A level whose extraction pattern is missing or does not compile, or
    whose filter pattern is declared and does not compile, keeps nothing. *)
Definition unusable (lc : yaml_level) : Prop :=
  truthy (extract_pattern lc) = false \/
  re_compile true (extract_pattern lc) = None \/
  (truthy (filter_pattern lc) = true /\
   re_compile false (filter_pattern lc) = None).

Lemma process_links_unusable lc base_url source_url raw_links acc :
  truthy (filter_pattern lc) = true ->
  re_compile false (filter_pattern lc) = None ->
  fst (process_links lc base_url source_url raw_links acc) = acc.
Proof.
  intros Ht Hc. destruct raw_links as [|link rest]; [reflexivity|].
  cbn [process_links]. unfold filter_link.
  destruct (resolve base_url source_url link); [|reflexivity].
  rewrite Ht, Hc. reflexivity.
Qed.

Lemma process_sources_unusable pos lc base_url current_urls :
  unusable lc ->
  forall acc st,
    fst (process_sources pos lc base_url current_urls acc st) = acc.
Proof.
  intros Hbad. induction current_urls as [|u rest IH]; intros acc st;
    [reflexivity|].
  cbn [process_sources].
  assert (Hone : fst (process_source pos lc base_url u acc st) = acc).
  { unfold process_source. destruct (arun (clock st) u); try reflexivity.
    destruct Hbad as [Hb|[Hb|[Ht Hc]]].
    - rewrite Hb. reflexivity.
    - destruct (truthy (extract_pattern lc)); [|reflexivity].
      rewrite Hb. reflexivity.
    - destruct (truthy (extract_pattern lc)); [|reflexivity].
      destruct (re_compile true (extract_pattern lc)) as [rx|]; [|reflexivity].
      pose proof (process_links_unusable lc base_url u
                    (list_set (rx_findall rx html)) acc Ht Hc) as Hl.
      destruct (process_links lc base_url u (list_set (rx_findall rx html)) acc)
        as [a raised]. simpl in Hl. subst a. reflexivity. }
  destruct (process_source pos lc base_url u acc st) as [a1 s1].
  simpl in Hone. subst a1. apply IH.
Qed.

(** X5: a pattern that is missing or invalid is no error for the runner.  A
    level without an extraction pattern, or with an extraction or filter
    pattern that [re] refuses, still fetches every URL of its frontier, but
    saves no row and hands on an empty frontier, so the chain ends with it
    and no later level runs. *)
Theorem unusable_level_ends_chain
    (pos : nat) (lc : yaml_level) (rest : list yaml_level)
    (base_url : string) (current_urls : list string) (st : chain_state) :
  unusable lc ->
  let out := process_level pos lc base_url current_urls st in
  fst out = [] /\
  all_results (snd out) !! y_level lc = Some [] /\
  fetched_at pos (trace (snd out)) = fetched_at pos (trace st) ++ current_urls /\
  run_levels pos (lc :: rest) base_url current_urls st = snd out.
Proof.
  intros Hbad. cbv zeta.
  destruct (level_fetches_frontier_and_hands_on_rows pos lc base_url
              current_urls st) as (new & rows & T & _ & F & _).
  assert (Hfst : fst (process_level pos lc base_url current_urls st) = []
                 /\ all_results (snd (process_level pos lc base_url
                                        current_urls st)) !! y_level lc
                    = Some []).
  { unfold process_level.
    pose proof (process_sources_unusable pos lc base_url current_urls Hbad
                  empty_acc st) as Hacc.
    destruct (process_sources pos lc base_url current_urls empty_acc st)
      as [acc st1]. simpl in Hacc. subst acc. cbn [fst snd all_results].
    split; [reflexivity|apply lookup_insert_eq]. }
  destruct Hfst as [Hn Hr]. split; [exact Hn|]. split; [exact Hr|]. split.
  - rewrite T, !fetched_at_app, F. simpl. rewrite app_nil_r. reflexivity.
  - cbn [run_levels].
    destruct (process_level pos lc base_url current_urls st) as [nexts st1].
    simpl in Hn. subst nexts. reflexivity.
Qed.

End Chain.

(** The rows written for a level hold every URL once: the file of a level
    never has two records of one URL, however often the level is run. *)
Lemma dedup_by_url_fresh items : forall seen,
  NoDup (map r_url (dedup_by_url seen items)) /\
  forall u, In u (map r_url (dedup_by_url seen items)) -> u ∉ seen.
Proof.
  induction items as [|item items IH]; intros seen; simpl.
  - split; [constructor|intros u []].
  - destruct (decide (r_url item ∈ seen)) as [Hin|Hout]; [exact (IH seen)|].
    destruct (IH ({[r_url item]} ∪ seen)) as [Hn Hf]. simpl. split.
    + apply NoDup_cons. split; [|exact Hn].
      intros Hi. apply list_elem_of_In, Hf in Hi. set_solver.
    + intros u [<-|Hi]; [exact Hout|]. apply Hf in Hi. set_solver.
Qed.

(** *** A chain on which to run the runner

    Patterns without metacharacters: for these [re.match] is a prefix test
    and [re.findall] returns the pattern once per occurrence.  The join is
    plain concatenation to the base, which is what [urljoin] gives for a
    rooted link and a base without a path. *)
Definition literal_compile (ignorecase : bool) (p : string) : option string :=
  Some p.
Definition literal_match (p s : string) : bool := startswith p s.
Definition literal_findall (p html : string) : list string :=
  if str_in p html then [p] else [].
Definition concat_join (base link : string) : option string :=
  Some (base +:+ link).

(** A site whose every page is the same one-link page. *)
Definition one_link_site (n : nat) (url : string) : arun_result :=
  ArunOk "<a href='/2024'>2024</a>".

Definition lv (n : Z) (extract : string) (filter : option string) : yaml_level :=
  {| y_level := n; y_name := None;
     y_extract_pattern := Some extract; y_filter_pattern := filter |}.

(** Three levels; the second extracts nothing from the pages of the site. *)
Definition three_levels : yaml_target :=
  {| y_base_url := Some "https://papers.nips.cc";
     y_levels := [lv 1 "/2024" None; lv 2 "/paper/" None; lv 3 ".pdf" None] |}.

Definition run_three_levels : chain_state :=
  validate_and_extract concat_join string literal_compile literal_match
    literal_findall one_link_site three_levels.

Lemma three_levels_witness :
  In (1, Handoff []) (trace run_three_levels) /\
  forall url, ~ In (2, Fetch url) (trace run_three_levels).
Proof.
  assert (H : In (1, Handoff []) (trace run_three_levels)).
  { vm_compute. tauto. }
  split; [exact H|].
  exact (proj2 (proj2 (chain_stops_on_empty_frontier concat_join string
           literal_compile literal_match literal_findall one_link_site
           three_levels) 1 H)).
Defined.

(** The two candidates of the specification's example under its filter
    pattern, which is written against the relative path: the first survives
    through its raw form, the second is rejected. *)
Definition paper_level : yaml_level :=
  lv 1 "href" (Some "^/paper_files/paper/\d{4}/.*\.pdf$").

Definition paper_links : list string :=
  ["/paper_files/paper/2024/file/abc.pdf"; "/other/x.pdf"].

Definition paper_run : level_acc * bool :=
  process_links concat_join MiniRe.re MiniRe.compile MiniRe.rmatch paper_level
    "https://papers.nips.cc" "https://papers.nips.cc/paper/2024"
    paper_links empty_acc.

Example paper_run_next_urls :
  next_urls (fst paper_run)
  = ["https://papers.nips.cc/paper_files/paper/2024/file/abc.pdf"] /\
  map r_matched_text (level_results (fst paper_run))
  = ["/paper_files/paper/2024/file/abc.pdf"] /\
  snd paper_run = false.
Proof. vm_compute. repeat split. Qed.

Lemma filter_survival_witness :
  paper_run = (fst paper_run, false) /\
  exists appended,
    level_results (fst paper_run) = level_results empty_acc ++ appended /\
    next_urls (fst paper_run) = next_urls empty_acc ++ map r_url appended /\
    forall link, In link paper_links ->
      exists full_url,
        resolve concat_join "https://papers.nips.cc"
          "https://papers.nips.cc/paper/2024" link = Some full_url /\
        let survives :=
          In (mk_record paper_level "https://papers.nips.cc/paper/2024"
                link full_url) appended in
        (truthy (filter_pattern paper_level) = false -> survives) /\
        (truthy (filter_pattern paper_level) = true ->
           exists rx,
             MiniRe.compile false (filter_pattern paper_level) = Some rx /\
             (survives <->
              MiniRe.rmatch rx full_url = true \/ MiniRe.rmatch rx link = true)).
Proof.
  assert (H : paper_run = (fst paper_run, false)) by (vm_compute; reflexivity).
  split; [exact H|].
  exact (filter_survival concat_join MiniRe.re MiniRe.compile MiniRe.rmatch
           paper_level "https://papers.nips.cc"
           "https://papers.nips.cc/paper/2024" paper_links empty_acc
           (fst paper_run) H).
Defined.


(** A level that declares no pattern at all. *)
Definition bare_level : yaml_level :=
  {| y_level := 2; y_name := Some "listing";
     y_extract_pattern := None; y_filter_pattern := None |}.

Lemma unusable_level_witness :
  unusable string literal_compile bare_level /\
  let out := process_level concat_join string literal_compile literal_match
               literal_findall one_link_site 1 bare_level
               "https://papers.nips.cc"
               ["https://papers.nips.cc/2023"; "https://papers.nips.cc/2024"]
               initial_state in
  fst out = [] /\
  all_results (snd out) !! y_level bare_level = Some [] /\
  fetched_at 1 (trace (snd out))
  = fetched_at 1 (trace initial_state)
      ++ ["https://papers.nips.cc/2023"; "https://papers.nips.cc/2024"] /\
  run_levels concat_join string literal_compile literal_match literal_findall
    one_link_site 1 [bare_level; lv 3 ".pdf" None] "https://papers.nips.cc"
    ["https://papers.nips.cc/2023"; "https://papers.nips.cc/2024"]
    initial_state = snd out.
Proof.
  assert (H : unusable string literal_compile bare_level)
    by (left; reflexivity).
  split; [exact H|].
  exact (unusable_level_ends_chain concat_join string literal_compile
           literal_match literal_findall one_link_site 1 bare_level
           [lv 3 ".pdf" None] "https://papers.nips.cc"
           ["https://papers.nips.cc/2023"; "https://papers.nips.cc/2024"]
           initial_state H).
Defined.

Lemma chain_fetches_witness :
  y_levels three_levels <> [] /\
  In (0, Handoff ["https://papers.nips.cc/2024"]) (trace run_three_levels) /\
  fetched_at 0 (trace run_three_levels) = ["https://papers.nips.cc"] /\
  fetched_at 1 (trace run_three_levels) = ["https://papers.nips.cc/2024"].
Proof.
  assert (H0 : y_levels three_levels <> []) by discriminate.
  assert (H1 : In (0, Handoff ["https://papers.nips.cc/2024"])
                 (trace run_three_levels)) by (vm_compute; tauto).
  split; [exact H0|]. split; [exact H1|].
  pose proof (chain_fetches_what_was_handed_on concat_join string
                literal_compile literal_match literal_findall one_link_site
                three_levels) as [Hbase Hnext].
  split; [exact (Hbase H0)|].
  refine (Hnext 0 ["https://papers.nips.cc/2024"] H1 _ _);
    [discriminate|simpl; lia].
Defined.
End LevelChain.

(* ===================================================================== *)
(** ** The single-page crawler of [crawler_service.py] *)
(* ===================================================================== *)

Module CrawlerService.
Import PyStr.

(** The value of a field of a JSON object as far as the code tells values
    apart: a string; another value that can be hashed (a number, true,
    false, null), which is equal to no string; a list or a mapping, which
    cannot be hashed. *)
Inductive json_value :=
| JString (s : string)
| JAtom
| JCompound.

(** A line of the JSONL file as reading it goes. *)
Inductive jsonl_line :=
| JsonObject (fields : gmap string json_value)
| JsonOther      (* JSON, but no object: [record.get] raises AttributeError *)
| NotJson        (* json.JSONDecodeError, also for a blank line: skipped *)
| Unreadable.    (* reading it raises another error: bytes that are no UTF-8
                    (UnicodeDecodeError), a number of too many digits
                    (ValueError), nesting too deep (RecursionError) *)

(** How the file ends.  What [open(..., "a")] writes starts right after the
    last character of the file, so it matters whether that is a newline. *)
Inductive file_end :=
| Terminated                   (* the file is empty or ends with a newline *)
| BlankEnd                     (* only white space after the last newline *)
| OpenEnd (line : jsonl_line). (* a last line that is not blank and has no
                                  newline, as it reads *)

(** The output file: its lines that end with a newline, and its end.  A file
    that does not exist yet reads as the empty file and is created by the
    first append. *)
Record jsonl_file := {
  full_lines : list jsonl_line;
  last_line : file_end }.

(** The lines [for line in f] yields. *)
Definition read_lines (file : jsonl_file) : list jsonl_line :=
  full_lines file ++
  match last_line file with
  | Terminated => []
  | BlankEnd => [NotJson]
  | OpenEnd line => [line]
  end.

(** The line [save_results] writes for one URL. *)
Definition record_line (timestamp source_url page_title url : string)
  : jsonl_line :=
  JsonObject (<[ "timestamp" := JString timestamp ]>
             (<[ "source_url" := JString source_url ]>
             (<[ "matched_url" := JString url ]>
             (<[ "page_title" := JString page_title ]> ∅)))).

(** A record written right after an open last line makes one line with it.
    The record is a whole JSON object and ends the line, so after a prefix
    that is not blank the line is no JSON text; a prefix on which reading
    raises still does so, since the line is read from its start. *)
Definition glued (line : jsonl_line) : jsonl_line :=
  match line with
  | Unreadable => Unreadable
  | _ => NotJson
  end.

(** [JSONLStorage.save_results]: the file after the append and the count.
    After white space the first record still reads as itself, since the line
    is stripped before it is parsed. *)
Definition save_results (timestamp source_url page_title : string)
    (matched_urls : list string) (file : jsonl_file) : jsonl_file * nat :=
  match matched_urls with
  | [] => (file, 0)
  | url :: rest =>
      let first :=
        match last_line file with
        | OpenEnd line => glued line
        | _ => record_line timestamp source_url page_title url
        end in
      ({| full_lines :=
            full_lines file
              ++ first :: map (record_line timestamp source_url page_title) rest;
          last_line := Terminated |},
       length matched_urls)
  end.

(** The loop of [JSONLStorage.load_existing_urls], from the set built so
    far, of which the strings are kept; [None] when a line makes it raise:
    [record.get] on what is no object, [existing_urls.add] on what cannot be
    hashed, or the decoding of the file. *)
Fixpoint load_from (existing_urls : gset string) (lines : list jsonl_line)
  : option (gset string) :=
  match lines with
  | [] => Some existing_urls
  | JsonObject record :: rest =>
      match record !! "matched_url" with
      | None => load_from ({[ "" ]} ∪ existing_urls) rest
      | Some (JString url) => load_from ({[ url ]} ∪ existing_urls) rest
      | Some JAtom => load_from existing_urls rest
      | Some JCompound => None
      end
  | NotJson :: rest => load_from existing_urls rest
  | JsonOther :: _ => None
  | Unreadable :: _ => None
  end.

Definition load_existing_urls (file : jsonl_file) : option (gset string) :=
  load_from ∅ (read_lines file).

(** Lines 648-661 of [CrawlerService.crawl]: drop what the log has, append
    the rest.  The result is the file and [saved_links]; [None] when reading
    the log raised, in which case [crawl] reports the error and writes
    nothing. *)
Definition store_new (timestamp source_url page_title : string)
    (matched_urls : list string) (file : jsonl_file)
  : option (jsonl_file * nat) :=
  match load_existing_urls file with
  | None => None
  | Some existing_urls =>
      let new_urls :=
        List.filter (fun url => bool_decide (url ∉ existing_urls)) matched_urls in
      match new_urls with
      | [] => Some (file, 0)
      | _ :: _ =>
          Some (save_results timestamp source_url page_title new_urls file)
      end
  end.

(** The URL a line records, as a string. *)
Definition logged_url (line : jsonl_line) : option string :=
  match line with
  | JsonObject record =>
      match record !! "matched_url" with
      | None => Some ""
      | Some (JString url) => Some url
      | Some _ => None
      end
  | _ => None
  end.

(** The URLs the lines record, in order. *)
Definition logged_urls (lines : list jsonl_line) : list string :=
  omap logged_url lines.

(** The URLs of the log as reading it finds them. *)
Definition urls_in (file : jsonl_file) : list string :=
  logged_urls (read_lines file).

(** A line on which reading the log raises. *)
Definition stray (line : jsonl_line) : bool :=
  match line with
  | JsonObject record =>
      match record !! "matched_url" with
      | Some JCompound => true
      | _ => false
      end
  | JsonOther => true
  | Unreadable => true
  | NotJson => false
  end.

Definition readable (line : jsonl_line) : Prop := stray line = false.

(** The file does not end inside a line. *)
Definition ends_well (file : jsonl_file) : Prop :=
  match last_line file with OpenEnd _ => False | _ => True end.

Section Processor.
(** [urljoin], and [self.pattern.search] for the compiled [regex_pattern]. *)
Variable urljoin : string -> string -> option string.
Variable pattern_search : string -> bool.

(** The loop of [URLProcessor.filter_urls] over [matched_urls]; [None] when
    [urljoin] raises. *)
Fixpoint filter_loop (base_url : string) (urls : list string)
    (matched_urls : gset string) : option (gset string) :=
  match urls with
  | [] => Some matched_urls
  | url :: rest =>
      match urljoin base_url url with
      | None => None
      | Some absolute_url =>
          filter_loop base_url rest
            (if pattern_search absolute_url
             then {[ absolute_url ]} ∪ matched_urls else matched_urls)
      end
  end.

Definition filter_urls (base_url : string) (urls : list string)
  : option (list string) :=
  elements <$> filter_loop base_url urls ∅.

End Processor.

(** *** What [filter_urls] keeps *)

Lemma filter_loop_spec urljoin pattern_search base_url urls : forall m m',
  filter_loop urljoin pattern_search base_url urls m = Some m' ->
  forall x, x ∈ m' <->
    x ∈ m \/ exists url, In url urls /\ urljoin base_url url = Some x /\
                         pattern_search x = true.
Proof.
  induction urls as [|u urls IH]; intros m m' H x; simpl in H.
  - inversion H; subst. split; [auto|]. intros [Hx|(url & [] & _)]. exact Hx.
  - destruct (urljoin base_url u) as [a|] eqn:Hj; [|discriminate].
    rewrite (IH _ _ H x). split.
    + intros [Hx|(url & Hin & Hu & Hp)].
      * destruct (pattern_search a) eqn:Hp; [|left; exact Hx].
        apply elem_of_union in Hx as [Hx|Hx]; [|left; exact Hx].
        apply elem_of_singleton in Hx. subst x.
        right. exists u. split; [left; reflexivity|]. split; assumption.
      * right. exists url. split; [right; exact Hin|]. split; assumption.
    + intros [Hx|(url & [<-|Hin] & Hu & Hp)].
      * left. destruct (pattern_search a); [set_solver|exact Hx].
      * left. assert (a = x) as -> by congruence. rewrite Hp. set_solver.
      * right. exists url. split; [exact Hin|]. split; assumption.
Qed.

(** [filter_urls] tests the pattern on the absolute URL only: a URL is kept
    exactly when it is the join of a candidate and the pattern is found in
    it. *)
Lemma filter_urls_spec urljoin pattern_search base_url urls matched :
  filter_urls urljoin pattern_search base_url urls = Some matched ->
  NoDup matched /\
  forall x, In x matched <->
    exists url, In url urls /\ urljoin base_url url = Some x /\
                pattern_search x = true.
Proof.
  unfold filter_urls.
  destruct (filter_loop urljoin pattern_search base_url urls ∅) as [m|] eqn:H;
    [|discriminate].
  intros E; inversion E; subst. split; [apply NoDup_elements|].
  intros x. rewrite <- list_elem_of_In, elem_of_elements.
  rewrite (filter_loop_spec _ _ _ _ _ _ H x). split.
  - intros [Hx|Hx]; [set_solver|exact Hx].
  - intros Hx. right. exact Hx.
Qed.

(** *** Facts about the log *)

Lemma logged_urls_app f g : logged_urls (f ++ g) = logged_urls f ++ logged_urls g.
Proof. unfold logged_urls. apply omap_app. Qed.

Lemma record_line_url ts src title url :
  logged_url (record_line ts src title url) = Some url.
Proof. reflexivity. Qed.

Lemma logged_urls_records ts src title urls :
  logged_urls (map (record_line ts src title) urls) = urls.
Proof.
  induction urls as [|u urls IH]; [reflexivity|].
  change (logged_urls (map (record_line ts src title) (u :: urls)))
    with (u :: logged_urls (map (record_line ts src title) urls)).
  rewrite IH. reflexivity.
Qed.

Lemma load_from_spec lines : forall s,
  Forall readable lines ->
  load_from s lines = Some (list_to_set (logged_urls lines) ∪ s).
Proof.
  induction lines as [|line lines IH]; intros s Hr.
  - simpl. f_equal. set_solver.
  - inversion Hr as [|? ? Hline Hrest]; subst. unfold readable in Hline.
    unfold logged_urls. destruct line as [o| | |]; simpl in Hline |- *;
      try discriminate.
    + destruct (o !! "matched_url") as [[url| |]|]; try discriminate;
        rewrite IH by exact Hrest; f_equal; unfold logged_urls; set_solver.
    + apply IH. exact Hrest.
Qed.

Lemma load_from_some lines : forall s t,
  load_from s lines = Some t -> Forall readable lines.
Proof.
  induction lines as [|line lines IH]; intros s t H; [constructor|].
  destruct line as [o| | |]; simpl in H; try discriminate.
  - destruct (o !! "matched_url") as [[url| |]|] eqn:Ho; try discriminate;
      (constructor;
       [unfold readable; simpl; rewrite Ho; reflexivity|exact (IH _ _ H)]).
  - constructor; [reflexivity|exact (IH _ _ H)].
Qed.

Lemma load_from_none lines : forall s,
  load_from s lines = None <-> exists line, In line lines /\ stray line = true.
Proof.
  induction lines as [|line lines IH]; intros s.
  - simpl. split; [discriminate|]. intros (line & [] & _).
  - assert (Hyes : stray line = true ->
              exists l, In l (line :: lines) /\ stray l = true).
    { intros H. exists line. split; [left; reflexivity|exact H]. }
    assert (Hno : stray line = false -> forall s',
              load_from s' lines = None <->
              exists l, In l (line :: lines) /\ stray l = true).
    { intros Hs s'. rewrite IH. split.
      - intros (l & Hin & Hl). exists l. split; [right; exact Hin|exact Hl].
      - intros (l & [<-|Hin] & Hl); [congruence|]. exists l. auto. }
    destruct line as [o| | |]; cbn [load_from].
    + destruct (o !! "matched_url") as [[url| |]|] eqn:Ho;
        try (apply Hno; simpl; rewrite Ho; reflexivity).
      split; [|reflexivity]. intros _. apply Hyes. simpl. rewrite Ho.
      reflexivity.
    + split; [|reflexivity]. intros _. apply Hyes. reflexivity.
    + apply Hno. reflexivity.
    + split; [|reflexivity]. intros _. apply Hyes. reflexivity.
Qed.

Lemma record_lines_readable ts src title urls :
  Forall readable (map (record_line ts src title) urls).
Proof.
  induction urls as [|u urls IH]; simpl; constructor; [reflexivity|exact IH].
Qed.

Lemma filter_not_in_twice (s : gset string) (urls again : list string) :
  (forall u, In u again -> In u urls) ->
  List.filter
    (fun url => bool_decide
       (url ∉ list_to_set
                (List.filter (fun url => bool_decide (url ∉ s)) urls) ∪ s))
    again = [].
Proof.
  set (new := List.filter (fun url => bool_decide (url ∉ s)) urls).
  assert (Hall : forall u, In u urls -> u ∈ (list_to_set new : gset string) ∪ s).
  { intros u Hu. destruct (decide (u ∈ s)) as [Hs|Hs]; [set_solver|].
    apply elem_of_union_l, elem_of_list_to_set, list_elem_of_In.
    apply List.filter_In. split; [exact Hu|]. apply bool_decide_eq_true. exact Hs. }
  clearbody new. intros Hsub.
  induction again as [|u again IH]; simpl; [reflexivity|].
  rewrite bool_decide_eq_false_2.
  - apply IH. intros v Hv. apply Hsub. right. exact Hv.
  - intros Hn. apply Hn, Hall, Hsub. left. reflexivity.
Qed.

(** The URLs the save step writes for, on a log that can be read. *)
Definition fresh_urls (matched_urls : list string) (file : jsonl_file)
  : list string :=
  List.filter
    (fun url => bool_decide
       (url ∉ (list_to_set (urls_in file) : gset string)))
    matched_urls.

Lemma fresh_urls_spec matched_urls file url :
  In url (fresh_urls matched_urls file) <->
  In url matched_urls /\ ~ In url (urls_in file).
Proof.
  unfold fresh_urls. rewrite List.filter_In, bool_decide_eq_true.
  rewrite elem_of_list_to_set, list_elem_of_In. reflexivity.
Qed.

Lemma load_readable file :
  Forall readable (read_lines file) ->
  load_existing_urls file = Some (list_to_set (urls_in file)).
Proof.
  intros Hr. unfold load_existing_urls. rewrite load_from_spec by exact Hr.
  f_equal. set_solver.
Qed.

(** On a log that can be read the save step is [save_results] on the
    matched URLs that reading the log has not found. *)
Lemma store_new_readable ts src title matched_urls file :
  Forall readable (read_lines file) ->
  store_new ts src title matched_urls file
  = Some (save_results ts src title (fresh_urls matched_urls file) file).
Proof.
  intros Hr. unfold store_new. rewrite (load_readable file Hr).
  fold (fresh_urls matched_urls file).
  destruct (fresh_urls matched_urls file); reflexivity.
Qed.

(** The lines of the file after an append. *)
Lemma read_lines_saved ts src title urls file :
  read_lines (fst (save_results ts src title urls file))
  = match urls with
    | [] => read_lines file
    | url :: rest =>
        full_lines file
          ++ match last_line file with
             | OpenEnd line => glued line
             | _ => record_line ts src title url
             end :: map (record_line ts src title) rest
    end.
Proof.
  destruct urls as [|url rest]; [reflexivity|].
  unfold save_results, read_lines. cbn [fst full_lines last_line].
  rewrite app_nil_r. reflexivity.
Qed.

Lemma glued_no_url line : logged_url (glued line) = None.
Proof. destruct line; reflexivity. Qed.

Lemma urls_in_ends_well file :
  ends_well file -> urls_in file = logged_urls (full_lines file).
Proof.
  unfold ends_well, urls_in, read_lines. intros H.
  destruct (last_line file); [| |destruct H];
    rewrite logged_urls_app; simpl; apply app_nil_r.
Qed.

(** The URLs of the log after an append: on a file that ends well the URLs
    written are added; after an open last line the URL of that line and the
    first URL written are lost. *)
Lemma urls_in_saved ts src title urls file :
  urls_in (fst (save_results ts src title urls file))
  = match urls, last_line file with
    | [], _ => urls_in file
    | _ :: rest, OpenEnd _ => logged_urls (full_lines file) ++ rest
    | _ :: _, _ => logged_urls (full_lines file) ++ urls
    end.
Proof.
  unfold urls_in at 1. rewrite read_lines_saved.
  destruct urls as [|url rest]; [reflexivity|].
  rewrite logged_urls_app.
  change (?x :: map ?f rest) with ([x] ++ map f rest).
  rewrite logged_urls_app, logged_urls_records.
  destruct (last_line file) as [| |line]; try reflexivity.
  replace (logged_urls [glued line]) with (@nil string); [reflexivity|].
  destruct line; reflexivity.
Qed.

Lemma saved_readable ts src title urls file :
  Forall readable (read_lines file) ->
  Forall readable (read_lines (fst (save_results ts src title urls file))).
Proof.
  intros Hr. rewrite read_lines_saved.
  destruct urls as [|url rest]; [exact Hr|].
  unfold read_lines in Hr. apply Forall_app in Hr as [Hfull Hlast].
  apply Forall_app. split; [exact Hfull|]. constructor.
  - destruct (last_line file) as [| |line]; try reflexivity.
    inversion Hlast as [|? ? Hline _]; subst. unfold readable in *.
    destruct line; try reflexivity; discriminate.
  - apply record_lines_readable.
Qed.

(** C4: the save step writes only for matched URLs that reading the log
    has not found, so the records of a URL that reading finds never grow in
    number, whatever the state of the file.  On a log that ends well (it is
    empty or ends with a newline, as every log does that this code alone
    has written) the records of the new URLs are added to those of the log,
    nothing else changes, and running the step again on the same matched
    URLs, in whatever order the set gives them, writes nothing.  On a log
    whose last line has no newline the first record written makes one line
    with it: the URL of that line and the first new URL are no longer
    found.  Once the step has written, the log ends well. *)
Theorem resume_appends_no_duplicate
    (ts src title ts' src' title' : string)
    (matched_urls : list string) (file : jsonl_file) :
  Forall readable (read_lines file) ->
  exists new_urls,
    store_new ts src title matched_urls file
      = Some (save_results ts src title new_urls file) /\
    (forall url, In url new_urls <->
                 In url matched_urls /\ ~ In url (urls_in file)) /\
    (forall url, In url (urls_in file) ->
       count_occ string_dec
         (urls_in (fst (save_results ts src title new_urls file))) url
       <= count_occ string_dec (urls_in file) url) /\
    (new_urls <> [] ->
     ends_well (fst (save_results ts src title new_urls file))) /\
    (ends_well file ->
     urls_in (fst (save_results ts src title new_urls file))
       = urls_in file ++ new_urls /\
     forall again, (forall u, In u again -> In u matched_urls) ->
       store_new ts' src' title' again
         (fst (save_results ts src title new_urls file))
       = Some (fst (save_results ts src title new_urls file), 0)) /\
    (forall line, last_line file = OpenEnd line -> new_urls <> [] ->
     urls_in (fst (save_results ts src title new_urls file))
       = logged_urls (full_lines file) ++ tl new_urls).
Proof.
  intros Hr. exists (fresh_urls matched_urls file).
  pose proof (fresh_urls_spec matched_urls file) as Hnew.
  split; [apply store_new_readable, Hr|]. split; [exact Hnew|].
  split; [|split; [|split]].
  - intros url Hin. rewrite urls_in_saved.
    destruct (fresh_urls matched_urls file) as [|u rest] eqn:Hf; [lia|].
    assert (Hfresh : forall v, In v (u :: rest) -> v <> url).
    { intros v Hv ->. apply Hnew in Hv. tauto. }
    assert (Hzero : forall l, (forall v, In v l -> v <> url) ->
                      count_occ string_dec l url = 0).
    { intros l Hl. apply count_occ_not_In. intros Hc. exact (Hl _ Hc eq_refl). }
    unfold urls_in, read_lines. rewrite logged_urls_app.
    destruct (last_line file) as [| |line]; rewrite !count_occ_app;
      try (rewrite (Hzero (u :: rest) Hfresh); simpl; lia).
    rewrite (Hzero rest) by (intros v Hv; apply Hfresh; right; exact Hv). lia.
  - intros Hne. destruct (fresh_urls matched_urls file); [congruence|exact I].
  - intros Hwell.
    assert (Hurls : urls_in (fst (save_results ts src title
                                    (fresh_urls matched_urls file) file))
                    = urls_in file ++ fresh_urls matched_urls file).
    { rewrite urls_in_saved, (urls_in_ends_well file Hwell).
      unfold ends_well in Hwell.
      destruct (fresh_urls matched_urls file), (last_line file);
        try destruct Hwell; rewrite ?app_nil_r; reflexivity. }
    split; [exact Hurls|].
    intros again Hsub. unfold store_new.
    rewrite (load_readable _ (saved_readable ts src title _ file Hr)), Hurls.
    replace (list_to_set (urls_in file ++ fresh_urls matched_urls file)
               : gset string)
      with ((list_to_set (fresh_urls matched_urls file) : gset string)
              ∪ list_to_set (urls_in file))
      by set_solver.
    unfold fresh_urls. rewrite (filter_not_in_twice _ _ _ Hsub). reflexivity.
  - intros line Hline Hne. rewrite urls_in_saved, Hline.
    destruct (fresh_urls matched_urls file); [congruence|reflexivity].
Qed.

Definition sample_log : jsonl_file :=
  {| full_lines :=
       [record_line "2026-01-20T10:00:00" "https://dl.acm.org/toc" "TOC"
          "https://dl.acm.org/doi/10.1145/1";
        NotJson];
     last_line := Terminated |}.

Definition sample_matched : list string :=
  ["https://dl.acm.org/doi/10.1145/1"; "https://dl.acm.org/doi/10.1145/2"].

Example sample_store :
  store_new "t2" "https://dl.acm.org/toc" "TOC" sample_matched sample_log
  = Some ({| full_lines :=
               full_lines sample_log ++
               [record_line "t2" "https://dl.acm.org/toc" "TOC"
                  "https://dl.acm.org/doi/10.1145/2"];
             last_line := Terminated |}, 1).
Proof. vm_compute. reflexivity. Qed.

(** The same log cut off after its record, without the newline. *)
Definition cut_log : jsonl_file :=
  {| full_lines := [];
     last_line :=
       OpenEnd (record_line "2026-01-20T10:00:00" "https://dl.acm.org/toc"
                  "TOC" "https://dl.acm.org/doi/10.1145/1") |}.

(** What is left of it after one save step: one line that is no JSON. *)
Definition glued_log : jsonl_file :=
  {| full_lines := [NotJson]; last_line := Terminated |}.

(** The URL of the first article is in the cut log and reading finds it.
    The save step writes the record of the second article right after it,
    on the same line.  Run again for the same crawl, the step no longer
    finds either URL and writes a record for both, so the file then holds
    the record of the first article twice. *)
Lemma rerun_writes_logged_url_again :
  Forall readable (read_lines cut_log) /\
  In "https://dl.acm.org/doi/10.1145/1" (urls_in cut_log) /\
  In "https://dl.acm.org/doi/10.1145/1" sample_matched /\
  store_new "t2" "https://dl.acm.org/toc" "TOC" sample_matched cut_log
    = Some (glued_log, 1) /\
  store_new "t3" "https://dl.acm.org/toc" "TOC" sample_matched glued_log
    = Some (save_results "t3" "https://dl.acm.org/toc" "TOC" sample_matched
              glued_log) /\
  snd (save_results "t3" "https://dl.acm.org/toc" "TOC" sample_matched
         glued_log) = 2 /\
  read_lines (fst (save_results "t3" "https://dl.acm.org/toc" "TOC"
                     sample_matched glued_log))
  = [NotJson;
     record_line "t3" "https://dl.acm.org/toc" "TOC"
       "https://dl.acm.org/doi/10.1145/1";
     record_line "t3" "https://dl.acm.org/toc" "TOC"
       "https://dl.acm.org/doi/10.1145/2"].
Proof.
  split; [repeat constructor|].
  split; [left; reflexivity|]. split; [left; reflexivity|].
  vm_compute. repeat split; reflexivity.
Qed.

Lemma resume_witness :
  Forall readable (read_lines sample_log) /\
  exists new_urls,
    store_new "t2" "https://dl.acm.org/toc" "TOC" sample_matched sample_log
      = Some (save_results "t2" "https://dl.acm.org/toc" "TOC" new_urls
                sample_log) /\
    (forall url, In url new_urls <->
                 In url sample_matched /\ ~ In url (urls_in sample_log)) /\
    (ends_well sample_log ->
     forall again, (forall u, In u again -> In u sample_matched) ->
       store_new "t3" "https://dl.acm.org/toc" "TOC" again
         (fst (save_results "t2" "https://dl.acm.org/toc" "TOC" new_urls
                 sample_log))
       = Some (fst (save_results "t2" "https://dl.acm.org/toc" "TOC" new_urls
                      sample_log), 0)).
Proof.
  assert (H : Forall readable (read_lines sample_log))
    by (repeat constructor).
  split; [exact H|].
  destruct (resume_appends_no_duplicate "t2" "https://dl.acm.org/toc" "TOC"
              "t3" "https://dl.acm.org/toc" "TOC" sample_matched sample_log H)
    as (new_urls & H1 & H2 & _ & _ & H5 & _).
  exists new_urls. split; [exact H1|]. split; [exact H2|].
  intros Hwell. exact (proj2 (H5 Hwell)).
Defined.

(** *** The log over a whole crawl *)

(** Lines 638-661 of [CrawlerService.crawl]: the links of the page without
    repetition, the filter, the save step.  The source of the records is the
    target URL, which is also the base of the filter. *)
Definition crawl_links (urljoin : string -> string -> option string)
    (pattern_search : string -> bool)
    (timestamp target_url page_title : string)
    (all_links : list string) (file : jsonl_file) : option (jsonl_file * nat) :=
  match filter_urls urljoin pattern_search target_url
          (elements (list_to_set all_links : gset string)) with
  | None => None
  | Some matched_urls =>
      store_new timestamp target_url page_title matched_urls file
  end.

Lemma NoDup_filter_bool (f : string -> bool) (l : list string) :
  NoDup l -> NoDup (List.filter f l).
Proof.
  induction 1 as [|x l Hx Hl IH]; simpl; [constructor|].
  destruct (f x); [|exact IH]. apply NoDup_cons. split; [|exact IH].
  intros Hin. apply Hx. apply list_elem_of_In.
  apply list_elem_of_In in Hin. apply List.filter_In in Hin. tauto.
Qed.

(** X6: a crawl keeps the log free of repetition.  When reading the log
    finds every URL once, then after the crawl it again finds every URL
    once, and each URL it finds was found before or is the absolute URL of a
    link of the page in which the pattern is found.  On a log that ends well
    the URLs found afterwards are those found before, followed by one for
    each such URL that was not found before, and the count returned is the
    number of URLs added. *)
Theorem crawl_keeps_log_without_repetition
    (urljoin : string -> string -> option string)
    (pattern_search : string -> bool)
    (ts target_url title : string) (all_links : list string)
    (file file' : jsonl_file) (saved : nat) :
  Forall readable (read_lines file) ->
  NoDup (urls_in file) ->
  crawl_links urljoin pattern_search ts target_url title all_links file
    = Some (file', saved) ->
  NoDup (urls_in file') /\
  (forall u, In u (urls_in file') ->
     In u (urls_in file) \/
     exists link, In link all_links /\ urljoin target_url link = Some u /\
                  pattern_search u = true) /\
  (ends_well file ->
   (exists added, urls_in file' = urls_in file ++ added /\
                  saved = length added) /\
   forall u, In u (urls_in file') <->
     In u (urls_in file) \/
     exists link, In link all_links /\ urljoin target_url link = Some u /\
                  pattern_search u = true).
Proof.
  intros Hr Hnd. unfold crawl_links.
  destruct (filter_urls urljoin pattern_search target_url
              (elements (list_to_set all_links : gset string)))
    as [matched|] eqn:Hf; [|discriminate].
  destruct (filter_urls_spec _ _ _ _ _ Hf) as [Hmnd Hm].
  rewrite store_new_readable by exact Hr.
  pose proof (fresh_urls_spec matched file) as Hnew.
  assert (Hnewnd : NoDup (fresh_urls matched file))
    by (apply NoDup_filter_bool; exact Hmnd).
  assert (Hlink : forall u, In u matched <->
            exists link, In link all_links /\ urljoin target_url link = Some u /\
                         pattern_search u = true).
  { intros u. rewrite Hm. split; intros (link & Hl & Hj & Hp);
      exists link; (split; [|split; assumption]).
    - apply list_elem_of_In, elem_of_elements, elem_of_list_to_set in Hl.
      apply list_elem_of_In. exact Hl.
    - apply list_elem_of_In, elem_of_elements, elem_of_list_to_set.
      apply list_elem_of_In. exact Hl. }
  clear Hm Hf Hmnd.
  set (new := fresh_urls matched file) in *. clearbody new.
  intros E.
  assert (Hfile : file' = fst (save_results ts target_url title new file))
    by (inversion E as [E']; rewrite E'; reflexivity).
  assert (Hsaved : saved = length new)
    by (inversion E as [E']; destruct new; inversion E'; reflexivity).
  clear E. subst file' saved. rewrite urls_in_saved.
  assert (Hold : forall u, In u matched -> new = [] -> In u (urls_in file)).
  { intros u Hu ->.
    destruct (in_dec string_dec u (urls_in file)) as [Hin|Hout]; [exact Hin|].
    destruct (proj2 (Hnew u) (conj Hu Hout)). }
  assert (Happ : forall added,
            (forall u, In u added -> In u new) -> NoDup added ->
            forall base rest, urls_in file = base ++ rest ->
            NoDup (base ++ added)).
  { intros added Hsub Hadd base rest Hbase. rewrite Hbase in Hnd.
    apply NoDup_app in Hnd as (Hb & _ & _).
    apply NoDup_app. split; [exact Hb|]. split; [|exact Hadd].
    intros u Hu Hu'. apply list_elem_of_In, Hsub, Hnew in Hu'.
    apply (proj2 Hu'). rewrite Hbase. apply in_or_app. left.
    apply list_elem_of_In. exact Hu. }
  assert (Hfull : urls_in file
                  = logged_urls (full_lines file)
                      ++ match last_line file with
                         | OpenEnd line => logged_urls [line]
                         | _ => []
                         end).
  { unfold urls_in, read_lines. rewrite logged_urls_app.
    destruct (last_line file); reflexivity. }
  destruct new as [|v rest].
  - split; [exact Hnd|]. split; [auto|]. intros _.
    split; [exists []; rewrite app_nil_r; auto|].
    intros u. split; [auto|]. intros [Hu|Hu]; [exact Hu|].
    apply Hold; [apply Hlink; exact Hu|reflexivity].
  - assert (Hrest : NoDup rest) by (apply NoDup_cons in Hnewnd; tauto).
    destruct (last_line file) as [| |line] eqn:Hlast.
    + rewrite app_nil_r in Hfull. rewrite <- Hfull.
      split; [exact (Happ _ (fun _ H => H) Hnewnd _ [] (eq_sym (app_nil_r _)))|].
      assert (Hiff : forall u, In u (urls_in file ++ v :: rest) <->
                In u (urls_in file) \/
                exists link, In link all_links /\
                  urljoin target_url link = Some u /\ pattern_search u = true).
      { intros u. rewrite in_app_iff, Hnew, Hlink. split.
        - intros [Hu|[Hu _]]; auto.
        - intros [Hu|Hu]; [auto|].
          destruct (in_dec string_dec u (urls_in file)); auto. }
      split; [intros u; apply Hiff|]. intros _.
      split; [exists (v :: rest); auto|exact Hiff].
    + rewrite app_nil_r in Hfull. rewrite <- Hfull.
      split; [exact (Happ _ (fun _ H => H) Hnewnd _ [] (eq_sym (app_nil_r _)))|].
      assert (Hiff : forall u, In u (urls_in file ++ v :: rest) <->
                In u (urls_in file) \/
                exists link, In link all_links /\
                  urljoin target_url link = Some u /\ pattern_search u = true).
      { intros u. rewrite in_app_iff, Hnew, Hlink. split.
        - intros [Hu|[Hu _]]; auto.
        - intros [Hu|Hu]; [auto|].
          destruct (in_dec string_dec u (urls_in file)); auto. }
      split; [intros u; apply Hiff|]. intros _.
      split; [exists (v :: rest); auto|exact Hiff].
    + split; [exact (Happ rest (fun _ H => or_intror H) Hrest _ _ Hfull)|].
      split.
      * intros u Hu. apply in_app_iff in Hu as [Hu|Hu].
        -- left. rewrite Hfull. apply in_or_app. left. exact Hu.
        -- right. apply Hlink. apply (Hnew u). right. exact Hu.
      * unfold ends_well. rewrite Hlast. intros [].
Qed.

(** X7: what [save_results] writes, [load_existing_urls] reads back, on a
    log that ends well: after the append the set read from the file is the
    set read before together with the URLs saved.  After a last line
    without its newline the first URL saved is not read back, nor is what
    that line held.  The count returned is the number of URLs given. *)
Theorem saved_urls_are_read_back (ts src title : string)
    (urls : list string) (file : jsonl_file) (existing : gset string) :
  load_existing_urls file = Some existing ->
  snd (save_results ts src title urls file) = length urls /\
  (ends_well file ->
   load_existing_urls (fst (save_results ts src title urls file))
   = Some (existing ∪ list_to_set urls)) /\
  (forall line, last_line file = OpenEnd line -> urls <> [] ->
   load_existing_urls (fst (save_results ts src title urls file))
   = Some (list_to_set (logged_urls (full_lines file))
             ∪ list_to_set (tl urls))).
Proof.
  intros Hload. split; [destruct urls; reflexivity|].
  pose proof (load_from_some _ _ _ Hload) as Hr.
  rewrite (load_readable file Hr) in Hload.
  inversion Hload; subst; clear Hload.
  pose proof (saved_readable ts src title urls file Hr) as Hr'.
  rewrite (load_readable _ Hr'), urls_in_saved. split.
  - intros Hwell. rewrite (urls_in_ends_well file Hwell).
    unfold ends_well in Hwell. f_equal.
    destruct urls, (last_line file); try destruct Hwell; set_solver.
  - intros line Hline Hne. rewrite Hline.
    destruct urls; [congruence|]. f_equal. simpl. set_solver.
Qed.

Lemma load_from_skips lines : forall s,
  load_from s (List.filter (fun l => match l with NotJson => false | _ => true end)
                 lines)
  = load_from s lines.
Proof.
  induction lines as [|line lines IH]; intros s; [reflexivity|].
  destruct line as [o| | |]; simpl; try reflexivity; [|apply IH].
  destruct (o !! "matched_url") as [[url| |]|]; try reflexivity; apply IH.
Qed.

(** X8: lines that are not JSON do no harm, they are skipped as if they were
    not there.  Reading the log fails, and then the crawl saves nothing
    whatever it has matched, exactly when the file has a line that is JSON
    without being an object (a number, a list), or an object whose
    [matched_url] is a list or a mapping, or a line on which reading raises
    an error of its own. *)
Theorem one_stray_line_blocks_saving (ts src title : string)
    (matched_urls : list string) (file : jsonl_file) :
  (store_new ts src title matched_urls file = None <->
   exists line, In line (read_lines file) /\
     (line = JsonOther \/ line = Unreadable \/
      exists record, line = JsonObject record /\
                     record !! "matched_url" = Some JCompound)) /\
  load_from ∅
    (List.filter (fun l => match l with NotJson => false | _ => true end)
       (read_lines file))
  = load_existing_urls file.
Proof.
  split; [|apply load_from_skips].
  assert (Hstray : forall line, stray line = true <->
            line = JsonOther \/ line = Unreadable \/
            exists record, line = JsonObject record /\
                           record !! "matched_url" = Some JCompound).
  { intros [o| | |]; simpl.
    - destruct (o !! "matched_url") as [[url| |]|] eqn:Ho; split;
        try discriminate;
        try (intros [H|[H|(r & H & Hr)]]; try discriminate;
             inversion H; subst; congruence).
      intros _. right. right. exists o. auto.
    - split; auto.
    - split; [discriminate|].
      intros [H|[H|(r & H & _)]]; discriminate.
    - split; auto. }
  transitivity (load_existing_urls file = None).
  - unfold store_new. destruct (load_existing_urls file) as [s|]; [|tauto].
    split; [|discriminate].
    destruct (List.filter _ matched_urls); discriminate.
  - unfold load_existing_urls. rewrite load_from_none.
    split; intros (line & Hin & H); exists line; (split; [exact Hin|]);
      apply Hstray; exact H.
Qed.

Definition sample_join (base link : string) : option string :=
  Some (base +:+ link).

Definition sample_links : list string :=
  ["/doi/10.1145/1"; "/about"; "/doi/10.1145/2"; "/doi/10.1145/2"].

Definition sample_crawled : jsonl_file :=
  {| full_lines :=
       full_lines sample_log
         ++ [record_line "t2" "https://dl.acm.org" "TOC"
               "https://dl.acm.org/doi/10.1145/2"];
     last_line := Terminated |}.

Lemma crawl_keeps_log_witness :
  Forall readable (read_lines sample_log) /\
  NoDup (urls_in sample_log) /\
  crawl_links sample_join (PyStr.str_in "/doi/") "t2" "https://dl.acm.org"
    "TOC" sample_links sample_log
  = Some (sample_crawled, 1) /\
  NoDup (urls_in sample_crawled).
Proof.
  assert (Hr : Forall readable (read_lines sample_log))
    by (repeat constructor).
  assert (Hn : NoDup (urls_in sample_log))
    by (vm_compute; apply NoDup_singleton).
  assert (Hc : crawl_links sample_join (PyStr.str_in "/doi/") "t2"
                 "https://dl.acm.org" "TOC" sample_links sample_log
               = Some (sample_crawled, 1))
    by (vm_compute; reflexivity).
  split; [exact Hr|]. split; [exact Hn|]. split; [exact Hc|].
  exact (proj1 (crawl_keeps_log_without_repetition _ _ _ _ _ _ _ _ _ Hr Hn Hc)).
Defined.

Lemma saved_urls_witness :
  load_existing_urls sample_log
  = Some {[ "https://dl.acm.org/doi/10.1145/1" ]} /\
  ends_well sample_log /\
  load_existing_urls
    (fst (save_results "t2" "https://dl.acm.org/toc" "TOC"
            ["https://dl.acm.org/doi/10.1145/2"] sample_log))
  = Some ({[ "https://dl.acm.org/doi/10.1145/1" ]}
            ∪ list_to_set ["https://dl.acm.org/doi/10.1145/2"]).
Proof.
  assert (H : load_existing_urls sample_log
              = Some {[ "https://dl.acm.org/doi/10.1145/1" ]}).
  { rewrite load_readable by (repeat constructor). f_equal. }
  split; [exact H|]. split; [exact I|].
  exact (proj1 (proj2 (saved_urls_are_read_back "t2" "https://dl.acm.org/toc"
                         "TOC" ["https://dl.acm.org/doi/10.1145/2"]
                         sample_log _ H)) I).
Defined.

(** *** The loop of the script that expands the page *)

(** What one pass of the [while] loop of [_build_js_code] finds: for each
    button matched by [clickSelector], whether it is visible when its turn
    comes, and [document.body.scrollHeight] after the clicks. *)
Record pass := { buttons : list bool; scrollHeight : Z }.

(** The variables of the loop, and the passes that have clicked. *)
Record expansion := {
  clickCount : nat;
  previousHeight : Z;
  noChangeCount : nat;
  passes : nat }.

Definition visible (p : pass) : nat := length (List.filter id (buttons p)).

Section Expand.
(** [max_clicks] as written into the script, and the page pass by pass. *)
Variable maxClicks : Z.
Variable page : nat -> pass.

(** [while (clickCount < maxClicks) { ... }]; [None] when the fuel runs
    out. *)
Fixpoint expand (fuel : nat) (st : expansion) : option expansion :=
  match fuel with
  | O => None
  | S fuel' =>
      if (Z.of_nat (clickCount st) <? maxClicks)%Z then
        let p := page (passes st) in
        match buttons p with
        | [] => Some st                        (* buttons.length === 0 *)
        | _ :: _ =>
            if (visible p =? 0)%nat then Some st      (* !clicked *)
            else
              let count := clickCount st + visible p in
              if (scrollHeight p =? previousHeight st)%Z then
                let st1 := {| clickCount := count;
                              previousHeight := previousHeight st;
                              noChangeCount := S (noChangeCount st);
                              passes := S (passes st) |} in
                if (3 <=? S (noChangeCount st))%nat then Some st1
                else expand fuel' st1
              else
                expand fuel' {| clickCount := count;
                                previousHeight := scrollHeight p;
                                noChangeCount := 0;
                                passes := S (passes st) |}
        end
      else Some st
  end.

Definition before_expansion : expansion :=
  {| clickCount := 0; previousHeight := 0; noChangeCount := 0; passes := 0 |}.

(** The second step of the script: nothing without a selector. *)
Definition expand_page (clickSelector : string) (fuel : nat)
  : option expansion :=
  if truthy clickSelector then expand fuel before_expansion
  else Some before_expansion.

(** What holds of the variables between two passes, for pages that never
    show more than [most] visible buttons in a pass. *)
Definition in_bounds (most : nat) (st : expansion) : Prop :=
  passes st <= clickCount st /\
  passes st <= Z.to_nat maxClicks /\
  (clickCount st = 0 \/ (Z.of_nat (clickCount st) < maxClicks + Z.of_nat most)%Z).

Lemma expand_ends (most : nat) :
  (forall n, visible (page n) <= most) ->
  forall fuel st,
    Z.to_nat maxClicks - clickCount st < fuel ->
    in_bounds most st ->
    exists st', expand fuel st = Some st' /\ in_bounds most st'.
Proof.
  intros Hmost. induction fuel as [|fuel IH]; intros st Hfuel Hin; [lia|].
  cbn [expand].
  destruct (Z.of_nat (clickCount st) <? maxClicks)%Z eqn:Hlt;
    [|exists st; split; [reflexivity|exact Hin]].
  apply Z.ltb_lt in Hlt.
  destruct (buttons (page (passes st))) as [|b bs] eqn:Hb;
    [exists st; split; [reflexivity|exact Hin]|].
  destruct (visible (page (passes st)) =? 0)%nat eqn:Hv;
    [exists st; split; [reflexivity|exact Hin]|].
  apply Nat.eqb_neq in Hv. specialize (Hmost (passes st)).
  destruct Hin as (H1 & H2 & H3).
  assert (Hnext : forall h k,
    in_bounds most {| clickCount := clickCount st + visible (page (passes st));
                      previousHeight := h; noChangeCount := k;
                      passes := S (passes st) |}).
  { intros h k. unfold in_bounds. simpl. split; [lia|]. split; [lia|].
    right. lia. }
  destruct (scrollHeight (page (passes st)) =? previousHeight st)%Z.
  - destruct (3 <=? S (noChangeCount st))%nat.
    + eexists. split; [reflexivity|apply Hnext].
    + apply IH; [simpl; lia|apply Hnext].
  - apply IH; [simpl; lia|apply Hnext].
Qed.

(** X26: [max_clicks] bounds the passes of the expanding loop, not the
    clicks.  For a page that never shows more than [most] visible buttons
    in a pass, the loop ends within [max_clicks] passes, each of which has
    clicked at least once, and the clicks stay below [max_clicks + most];
    they are none when [max_clicks] is not positive or no selector is
    set. *)
Theorem max_clicks_bounds_passes (clickSelector : string) (most : nat) :
  (forall n, visible (page n) <= most) ->
  exists st,
    expand_page clickSelector (S (Z.to_nat maxClicks)) = Some st /\
    passes st <= clickCount st /\
    (Z.of_nat (passes st) <= Z.max 0 maxClicks)%Z /\
    (clickCount st = 0 \/
     (Z.of_nat (clickCount st) < maxClicks + Z.of_nat most)%Z) /\
    ((maxClicks <= 0)%Z \/ clickSelector = "" -> clickCount st = 0).
Proof.
  intros Hmost. unfold expand_page.
  assert (H0 : in_bounds most before_expansion)
    by (unfold in_bounds; simpl; split; [lia|split; [lia|left; reflexivity]]).
  destruct (truthy clickSelector) eqn:Hsel.
  - destruct (expand_ends most Hmost (S (Z.to_nat maxClicks)) before_expansion
                ltac:(simpl; lia) H0) as (st & Hrun & H1 & H2 & H3).
    exists st. split; [exact Hrun|]. split; [exact H1|]. split; [lia|].
    split; [exact H3|]. intros [Hneg| ->]; [|discriminate].
    cbn [expand] in Hrun.
    destruct (Z.of_nat (clickCount before_expansion) <? maxClicks)%Z eqn:Hlt.
    + apply Z.ltb_lt in Hlt. simpl in Hlt. lia.
    + inversion Hrun; subst. reflexivity.
  - exists before_expansion. split; [reflexivity|]. simpl.
    split; [lia|]. split; [lia|]. split; [left; reflexivity|]. reflexivity.
Qed.

End Expand.

(** A page where every pass finds three visible buttons and has grown. *)
Definition three_buttons (n : nat) : pass :=
  {| buttons := [true; true; true]; scrollHeight := 1000 * Z.of_nat (S n) |}.

(** With [max_clicks] 2 the loop clicks three times, in one pass. *)
Example more_clicks_than_max_clicks :
  expand_page 2 three_buttons "button.load-more" 3
  = Some {| clickCount := 3; previousHeight := 1000; noChangeCount := 0;
            passes := 1 |}.
Proof. reflexivity. Qed.

Lemma max_clicks_witness :
  (forall n, visible (three_buttons n) <= 3) /\
  exists st,
    expand_page 2 three_buttons "button.load-more" 3 = Some st /\
    clickCount st = 3 /\ passes st = 1.
Proof.
  assert (H : forall n, visible (three_buttons n) <= 3) by (intros n; reflexivity).
  split; [exact H|].
  destruct (max_clicks_bounds_passes 2 three_buttons "button.load-more" 3 H)
    as (st & Hrun & _).
  exists st. split; [exact Hrun|].
  vm_compute in Hrun. inversion Hrun; subst. split; reflexivity.
Defined.
End CrawlerService.

(* ===================================================================== *)
(** ** [ConfigManager] of [crawler_service.py] *)
(* ===================================================================== *)

Module ConfigManager.
Import PyStr.

(** What [yaml.safe_load] returns.  A mapping is the list of its entries in
    order, its keys strings; a decimal number is the rational it denotes. *)
#[local] Set Warnings "-register-all".

Inductive value :=
| VNone
| VBool (b : bool)
| VInt (n : Z)
| VFloat (q : Q)
| VStr (s : string)
| VList (items : list value)
| VDict (entries : list (string * value)).

Definition dict : Type := list (string * value).

(** [bool(v)]. *)
Definition truthy_value (v : value) : bool :=
  match v with
  | VNone => false
  | VBool b => b
  | VInt n => negb (n =? 0)%Z
  | VFloat q => negb (Qnum q =? 0)%Z
  | VStr s => truthy s
  | VList items => match items with [] => false | _ => true end
  | VDict entries => match entries with [] => false | _ => true end
  end.

Definition is_dict (v : value) : bool :=
  match v with VDict _ => true | _ => false end.

(** [d.get(k)], [None] for a missing key. *)
Fixpoint dict_get (k : string) (d : dict) : option value :=
  match d with
  | [] => None
  | (k', v) :: rest => if String.eqb k' k then Some v else dict_get k rest
  end.

(** [d[k] = v]: the entry is replaced where it stands, a new key goes to the
    end. *)
Fixpoint dict_set (k : string) (v : value) (d : dict) : dict :=
  match d with
  | [] => [(k, v)]
  | (k', v') :: rest =>
      if String.eqb k' k then (k, v) :: rest else (k', v') :: dict_set k v rest
  end.

(** A mapping has each key once, at every depth. *)
Fixpoint well_formed (v : value) : bool :=
  match v with
  | VDict entries =>
      bool_decide (NoDup (map fst entries))
      && (fix all (es : list (string * value)) : bool :=
            match es with
            | [] => true
            | (_, x) :: rest => well_formed x && all rest
            end) entries
  | VList items =>
      (fix all (xs : list value) : bool :=
         match xs with
         | [] => true
         | x :: rest => well_formed x && all rest
         end) items
  | _ => true
  end.

(** What one key of the result becomes in [_merge_config]: the merge of the
    two mappings when both values are mappings, the user's value otherwise. *)
Fixpoint merge_value (old new : value) {struct new} : value :=
  match new, old with
  | VDict user, VDict default =>
      VDict
        ((fix loop (user result : list (string * value)) {struct user} :=
            match user with
            | [] => result
            | (key, value) :: rest =>
                loop rest
                  (dict_set key
                     (match dict_get key result with
                      | Some o => merge_value o value
                      | None => value
                      end) result)
            end) user default)
  | _, _ => new
  end.

(** The loop of [_merge_config] over [user.items()]. *)
Fixpoint merge_loop (user result : dict) : dict :=
  match user with
  | [] => result
  | (key, value) :: rest =>
      merge_loop rest
        (dict_set key
           (match dict_get key result with
            | Some o => merge_value o value
            | None => value
            end) result)
  end.

(** [ConfigManager._merge_config]; [result = default.copy()]. *)
Definition _merge_config (default user : dict) : dict :=
  merge_loop user default.

(** [key.split(".")]. *)
Fixpoint split_dot (s : string) : list string :=
  match s with
  | EmptyString => [EmptyString]
  | String c rest =>
      if Ascii.eqb c "."%char then EmptyString :: split_dot rest
      else match split_dot rest with
           | [] => [String c EmptyString]
           | part :: parts => String c part :: parts
           end
  end.

(** The loop of [ConfigManager.get]; [None] when it returns the default from
    inside the loop. *)
Fixpoint walk (keys : list string) (v : value) : option value :=
  match keys with
  | [] => Some v
  | k :: rest =>
      match v with
      | VDict d => walk rest (default VNone (dict_get k d))
      | _ => None
      end
  end.

Definition settle (dflt : value) (r : option value) : value :=
  match r with
  | None | Some VNone => dflt
  | Some v => v
  end.

(** [ConfigManager.get(key, default)]. *)
Definition get (config : dict) (key : string) (dflt : value) : value :=
  settle dflt (walk (split_dot key) (VDict config)).

Definition DEFAULT_CONFIG : dict :=
  [("target_url", VStr "");
   ("regex_pattern", VStr ".*");
   ("click_selector", VStr "");
   ("wait_for_selector", VStr "");
   ("max_clicks", VInt 50);
   ("click_delay_ms", VInt 1000);
   ("cache_path", VStr "./.crawl4ai_cache");
   ("enable_cache", VBool true);
   ("output_file", VStr "results.jsonl");
   ("browser", VDict [("headless", VBool true);
                      ("verbose", VBool true);
                      ("use_magic_mode", VBool true)]);
   ("crawler", VDict [("timeout", VInt 60000);
                      ("wait_until_stable", VBool true);
                      ("stable_check_timeout", VInt 10)]);
   ("logging", VDict [("level", VStr "INFO");
                      ("format",
                       VStr "%(asctime)s - %(name)s - %(levelname)s - %(message)s")])].

Inductive error :=
| AttributeError    (* the file is no mapping: [user.items] *)
| ValueError        (* raised by [_validate] *)
| TypeError.        (* [re.compile] of what is no string *)

Section Load.
(** [re.compile] succeeds. *)
Variable re_compiles : string -> bool.

(** [ConfigManager._validate] on the merged configuration. *)
Definition _validate (config : dict) : option error :=
  if negb (truthy_value (default VNone (dict_get "target_url" config)))
  then Some ValueError
  else match default (VStr ".*") (dict_get "regex_pattern" config) with
       | VStr p => if re_compiles p then None else Some ValueError
       | _ => Some TypeError
       end.

(** [ConfigManager.load] on the document the file holds. *)
Definition load (document : value) : error + dict :=
  let user_config := if truthy_value document then document else VDict [] in
  match user_config with
  | VDict user =>
      let config := _merge_config DEFAULT_CONFIG user in
      match _validate config with
      | Some e => inl e
      | None => inr config
      end
  | _ => inl AttributeError
  end.

End Load.

(** The user file has nothing at the path: going down the keys it comes to a
    mapping that lacks the next one. *)
Fixpoint silent (keys : list string) (user : dict) : Prop :=
  match keys with
  | [] => False
  | k :: rest =>
      match dict_get k user with
      | None => True
      | Some (VDict inner) => silent rest inner
      | Some _ => False
      end
  end.

(** *** Facts *)

Lemma merge_value_dicts d u :
  merge_value (VDict d) (VDict u) = VDict (_merge_config d u).
Proof. reflexivity. Qed.

Lemma merge_value_leaf old new :
  is_dict new = false -> merge_value old new = new.
Proof. destruct new; simpl; try reflexivity. discriminate. Qed.

Lemma merge_value_over_leaf old new :
  is_dict old = false -> merge_value old new = new.
Proof.
  destruct new; try reflexivity. destruct old; try reflexivity. discriminate.
Qed.

Lemma dict_get_set_same k v d : dict_get k (dict_set k v d) = Some v.
Proof.
  induction d as [|[k' v'] d IH]; simpl.
  - rewrite String.eqb_refl. reflexivity.
  - destruct (String.eqb k' k) eqn:E; simpl.
    + rewrite String.eqb_refl. reflexivity.
    + rewrite E. exact IH.
Qed.

Lemma dict_get_set_other k k' v d :
  k <> k' -> dict_get k' (dict_set k v d) = dict_get k' d.
Proof.
  intros Hne. induction d as [|[k0 v0] d IH]; simpl.
  - destruct (String.eqb k k') eqn:E; [|reflexivity].
    apply String.eqb_eq in E. contradiction.
  - destruct (String.eqb k0 k) eqn:E; simpl.
    + apply String.eqb_eq in E. subst k0.
      destruct (String.eqb k k') eqn:E'; [|reflexivity].
      apply String.eqb_eq in E'. contradiction.
    + rewrite IH. reflexivity.
Qed.

Lemma dict_get_none k d : ~ In k (map fst d) -> dict_get k d = None.
Proof.
  induction d as [|[k' v] d IH]; simpl; [reflexivity|]. intros Hn.
  destruct (String.eqb k' k) eqn:E.
  - apply String.eqb_eq in E. exfalso. apply Hn. left. exact E.
  - apply IH. intros H. apply Hn. right. exact H.
Qed.

Lemma dict_get_keys k d : dict_get k d <> None <-> In k (map fst d).
Proof.
  induction d as [|[k' v] d IH]; simpl; [split; [congruence|intros []]|].
  destruct (String.eqb k' k) eqn:E.
  - apply String.eqb_eq in E. split; [auto|discriminate].
  - apply String.eqb_neq in E. rewrite IH. split; [auto|].
    intros [H|H]; [contradiction|exact H].
Qed.

(** One key of the merge. *)
Lemma merge_loop_get k : forall u res,
  NoDup (map fst u) ->
  dict_get k (merge_loop u res)
  = match dict_get k u with
    | None => dict_get k res
    | Some x => Some (match dict_get k res with
                      | Some o => merge_value o x
                      | None => x
                      end)
    end.
Proof.
  induction u as [|[k1 x1] u IH]; intros res Hnd; [reflexivity|].
  simpl in Hnd. apply NoDup_cons in Hnd as [Hk1 Hnd].
  cbn [merge_loop dict_get]. rewrite IH by exact Hnd.
  destruct (String.eqb k1 k) eqn:E.
  - apply String.eqb_eq in E. subst k1.
    rewrite dict_get_none
      by (intros H; apply Hk1; apply list_elem_of_In; exact H).
    apply dict_get_set_same.
  - apply String.eqb_neq in E. rewrite dict_get_set_other by exact E.
    reflexivity.
Qed.

Lemma well_formed_keys u : well_formed (VDict u) = true -> NoDup (map fst u).
Proof.
  simpl. intros H. apply andb_prop in H as [H _].
  apply bool_decide_eq_true in H. exact H.
Qed.

Lemma well_formed_entry k x : forall u,
  well_formed (VDict u) = true -> dict_get k u = Some x ->
  well_formed x = true.
Proof.
  intros u H. simpl in H. apply andb_prop in H as [_ H]. revert H.
  induction u as [|[k' v] u IH]; simpl; [discriminate|].
  intros H. apply andb_prop in H as [Hv Hu].
  destruct (String.eqb k' k); [|exact (IH Hu)].
  intros E; inversion E; subst. exact Hv.
Qed.

Lemma split_dot_nonempty key : split_dot key <> [].
Proof.
  destruct key as [|c key]; simpl; [discriminate|].
  destruct (Ascii.eqb c "."%char); [discriminate|].
  destruct (split_dot key); discriminate.
Qed.

(** Down a path that ends in a plain value of the user's, the merge has the
    user's value, whatever was there before. *)
Lemma walk_user_value x :
  x <> VNone -> is_dict x = false ->
  forall keys old new,
    well_formed new = true -> walk keys new = Some x ->
    walk keys (merge_value old new) = Some x.
Proof.
  intros Hx Hleaf. induction keys as [|k keys IH]; intros old new Hwf Hw.
  - simpl in Hw. inversion Hw; subst. rewrite merge_value_leaf by exact Hleaf.
    reflexivity.
  - destruct new as [| | | | | |u]; try discriminate. cbn [walk] in Hw.
    destruct (dict_get k u) as [x'|] eqn:Hu.
    2:{ exfalso. simpl in Hw. destruct keys; simpl in Hw; [|discriminate].
        inversion Hw; subst. apply Hx. reflexivity. }
    simpl in Hw.
    destruct (is_dict old) eqn:Hold.
    + destruct old as [| | | | | |d]; try discriminate.
      rewrite merge_value_dicts. cbn [walk]. unfold _merge_config.
      rewrite merge_loop_get by (apply well_formed_keys; exact Hwf).
      rewrite Hu. cbn [from_option id].
      pose proof (well_formed_entry _ _ _ Hwf Hu) as Hwf'.
      destruct (dict_get k d) as [o|]; [apply IH; assumption|exact Hw].
    + rewrite merge_value_over_leaf by exact Hold. cbn [walk].
      rewrite Hu. exact Hw.
Qed.

Lemma silent_walk dflt : forall keys u,
  silent keys u -> settle dflt (walk keys (VDict u)) = dflt.
Proof.
  induction keys as [|k keys IH]; intros u Hs; [destruct Hs|].
  cbn [silent] in Hs. cbn [walk].
  destruct (dict_get k u) as [[| | | | | |u']|]; try destruct Hs.
  - simpl. apply IH. exact Hs.
  - simpl. destruct keys; reflexivity.
Qed.

Lemma walk_leaf_broken dflt keys o :
  keys <> [] -> is_dict o = false -> settle dflt (walk keys o) = dflt.
Proof.
  intros Hk Ho. destruct keys as [|k keys]; [congruence|].
  destruct o; try reflexivity. discriminate.
Qed.

Lemma silent_nonempty keys u : silent keys u -> keys <> [].
Proof. destruct keys; [intros []|discriminate]. Qed.

(** Down a path at which the user's file is silent, the merge reads as the
    defaults do. *)
Lemma walk_silent dflt : forall keys d u,
  well_formed (VDict u) = true -> silent keys u ->
  settle dflt (walk keys (VDict (_merge_config d u)))
  = settle dflt (walk keys (VDict d)).
Proof.
  induction keys as [|k keys IH]; intros d u Hwf Hs; [destruct Hs|].
  cbn [silent] in Hs. cbn [walk]. unfold _merge_config.
  rewrite merge_loop_get by (apply well_formed_keys; exact Hwf).
  destruct (dict_get k u) as [x|] eqn:Hu; [|reflexivity].
  destruct x as [| | | | | |u']; try destruct Hs.
  pose proof (well_formed_entry _ _ _ Hwf Hu) as Hwf'.
  pose proof (silent_nonempty _ _ Hs) as Hne.
  destruct (dict_get k d) as [o|]; cbn [from_option id].
  - destruct (is_dict o) eqn:Ho.
    + destruct o as [| | | | | |d']; try discriminate.
      rewrite merge_value_dicts. apply IH; assumption.
    + rewrite merge_value_over_leaf by exact Ho.
      rewrite silent_walk by exact Hs.
      rewrite walk_leaf_broken by assumption. reflexivity.
  - rewrite silent_walk by exact Hs.
    rewrite walk_leaf_broken by (assumption || reflexivity). reflexivity.
Qed.

(** X9: what the user's file sets wins.  When the dotted key leads, in the
    user's file, to a value that is neither null nor a mapping, [get] on the
    merged configuration returns that value, whatever the defaults hold at
    that key and whatever the caller's fallback. *)
Theorem user_setting_wins (default user : dict) (key : string)
    (x dflt : value) :
  well_formed (VDict user) = true ->
  walk (split_dot key) (VDict user) = Some x ->
  x <> VNone -> is_dict x = false ->
  get (_merge_config default user) key dflt = x.
Proof.
  intros Hwf Hw Hx Hleaf. unfold get.
  rewrite <- merge_value_dicts.
  rewrite (walk_user_value x Hx Hleaf _ (VDict default) (VDict user) Hwf Hw).
  destruct x; try reflexivity. congruence.
Qed.

(** X10: what the user's file leaves out stays as the defaults have it.
    When the user's file is silent at the dotted key (on the way down it
    comes to a mapping without the next key), [get] on the merged
    configuration returns what [get] returns on the defaults alone; this
    holds also below a mapping the user has set in part. *)
Theorem unset_key_keeps_default (default user : dict) (key : string)
    (dflt : value) :
  well_formed (VDict user) = true ->
  silent (split_dot key) user ->
  get (_merge_config default user) key dflt = get default key dflt.
Proof. intros Hwf Hs. unfold get. apply walk_silent; assumption. Qed.

Lemma in_keys_get k (d : dict) : In k (map fst d) -> exists v, In (k, v) d.
Proof.
  intros H. apply in_map_iff in H as ([k' v] & E & Hin). simpl in E. subst k'.
  exists v. exact Hin.
Qed.

(** X11: which files [load] accepts.  A file is accepted exactly when it
    holds a mapping that sets [target_url] to a truthy value and whose
    [regex_pattern], when set, is a string that compiles; the configuration
    is then the merge.  In particular the empty file is refused, the default
    [target_url] being empty. *)
Theorem load_accepts (re_compiles : string -> bool) (document : value)
    (config : dict) :
  well_formed document = true ->
  re_compiles ".*" = true ->
  (load re_compiles document = inr config <->
   exists user t,
     document = VDict user /\
     dict_get "target_url" user = Some t /\ truthy_value t = true /\
     (forall r, dict_get "regex_pattern" user = Some r ->
                exists p, r = VStr p /\ re_compiles p = true) /\
     config = _merge_config DEFAULT_CONFIG user).
Proof.
  intros Hwf Hdot. unfold load.
  assert (Hmerged : forall user, well_formed (VDict user) = true ->
    forall k, dict_get k (_merge_config DEFAULT_CONFIG user)
    = match dict_get k user with
      | None => dict_get k DEFAULT_CONFIG
      | Some x => Some (match dict_get k DEFAULT_CONFIG with
                        | Some o => merge_value o x
                        | None => x
                        end)
      end).
  { intros user Hu k. unfold _merge_config.
    apply merge_loop_get, well_formed_keys, Hu. }
  assert (Hval : forall user, well_formed (VDict user) = true ->
    (_validate re_compiles (_merge_config DEFAULT_CONFIG user) = None <->
     exists t, dict_get "target_url" user = Some t /\ truthy_value t = true /\
       (forall r, dict_get "regex_pattern" user = Some r ->
                  exists p, r = VStr p /\ re_compiles p = true))).
  { intros user Hu. unfold _validate. rewrite !(Hmerged user Hu).
    destruct (dict_get "target_url" user) as [t|] eqn:Ht.
    2:{ simpl. split; [discriminate|]. intros (t & E & _). discriminate. }
    change (dict_get "target_url" DEFAULT_CONFIG) with (Some (VStr "")).
    change (dict_get "regex_pattern" DEFAULT_CONFIG) with (Some (VStr ".*")).
    cbv beta iota. cbn [from_option id].
    rewrite (merge_value_over_leaf (VStr "") t) by reflexivity.
    destruct (truthy_value t) eqn:Htr; cbn [negb].
    2:{ split; [discriminate|]. intros (t' & E & Ht' & _). congruence. }
    destruct (dict_get "regex_pattern" user) as [r|] eqn:Hrx; cbn [from_option id].
    - rewrite (merge_value_over_leaf (VStr ".*") r) by reflexivity.
      split.
      + intros H. exists t. split; [reflexivity|]. split; [exact Htr|].
        intros r' E. inversion E; subst r'.
        destruct r; try discriminate.
        destruct (re_compiles s) eqn:Hs; [|discriminate].
        exists s. split; [reflexivity|exact Hs].
      + intros (t' & _ & _ & Hr). destruct (Hr r eq_refl) as (p & -> & Hp).
        rewrite Hp. reflexivity.
    - rewrite Hdot. split; [|reflexivity]. intros _.
      exists t. split; [reflexivity|]. split; [exact Htr|]. discriminate. }
  destruct (truthy_value document) eqn:Htruthy.
  - destruct document as [| | | | | |user];
      try (split; [discriminate|intros (u & t & E & _); discriminate]).
    specialize (Hval user Hwf).
    destruct (_validate re_compiles (_merge_config DEFAULT_CONFIG user))
      as [e|] eqn:Hv.
    + split; [discriminate|]. intros (u & t & E & Ht & Htr & Hr & _).
      inversion E; subst u.
      assert (Some e = None) by (apply Hval; exists t; auto). discriminate.
    + destruct (proj1 Hval eq_refl) as (t & Ht & Htr & Hr). split.
      * intros E. inversion E; subst. exists user, t. auto.
      * intros (u & t' & E & _ & _ & _ & ->). inversion E; subst u.
        reflexivity.
  - assert (Hempty : _validate re_compiles (_merge_config DEFAULT_CONFIG [])
                     = Some ValueError) by reflexivity.
    rewrite Hempty. split; [discriminate|].
    intros (u & t & E & Ht & Htr & _). subst document.
    destruct u; [discriminate|discriminate].
Qed.

(** A file that sets the target and one of the browser's switches. *)
Definition sample_user : dict :=
  [("target_url", VStr "https://dl.acm.org/toc/tog/2024/43/4");
   ("max_clicks", VNone);
   ("browser", VDict [("headless", VBool false)])].

Lemma user_setting_witness :
  well_formed (VDict sample_user) = true /\
  walk (split_dot "browser.headless") (VDict sample_user)
  = Some (VBool false) /\
  get (_merge_config DEFAULT_CONFIG sample_user) "browser.headless"
    (VBool true) = VBool false.
Proof.
  assert (Hwf : well_formed (VDict sample_user) = true)
    by (vm_compute; reflexivity).
  assert (Hw : walk (split_dot "browser.headless") (VDict sample_user)
               = Some (VBool false)) by reflexivity.
  split; [exact Hwf|]. split; [exact Hw|].
  refine (user_setting_wins DEFAULT_CONFIG sample_user "browser.headless"
            (VBool false) (VBool true) Hwf Hw _ _);
    [discriminate|reflexivity].
Defined.

Lemma unset_key_witness :
  well_formed (VDict sample_user) = true /\
  silent (split_dot "browser.use_magic_mode") sample_user /\
  get (_merge_config DEFAULT_CONFIG sample_user) "browser.use_magic_mode"
    (VBool false) = VBool true.
Proof.
  assert (Hwf : well_formed (VDict sample_user) = true)
    by (vm_compute; reflexivity).
  assert (Hs : silent (split_dot "browser.use_magic_mode") sample_user)
    by exact I.
  split; [exact Hwf|]. split; [exact Hs|].
  exact (unset_key_keeps_default DEFAULT_CONFIG sample_user
           "browser.use_magic_mode" (VBool false) Hwf Hs).
Defined.

(** A key the user's file sets to null reads as the caller's fallback, not
    as the default of [DEFAULT_CONFIG]. *)
Example null_hides_default :
  get (_merge_config DEFAULT_CONFIG sample_user) "max_clicks" (VInt 7) = VInt 7.
Proof. reflexivity. Qed.

Definition sample_compiles (p : string) : bool :=
  match MiniRe.compile false p with Some _ => true | None => false end.

Lemma load_accepts_witness :
  well_formed (VDict sample_user) = true /\
  sample_compiles ".*" = true /\
  load sample_compiles (VDict sample_user)
  = inr (_merge_config DEFAULT_CONFIG sample_user).
Proof.
  assert (Hwf : well_formed (VDict sample_user) = true)
    by (vm_compute; reflexivity).
  assert (Hdot : sample_compiles ".*" = true) by (vm_compute; reflexivity).
  split; [exact Hwf|]. split; [exact Hdot|].
  apply (load_accepts sample_compiles (VDict sample_user)
           (_merge_config DEFAULT_CONFIG sample_user) Hwf Hdot).
  exists sample_user, (VStr "https://dl.acm.org/toc/tog/2024/43/4").
  split; [reflexivity|]. split; [reflexivity|]. split; [reflexivity|].
  split; [|reflexivity]. intros r Hr. discriminate.
Defined.

End ConfigManager.

(* ===================================================================== *)
(** ** The launcher [run.py] and the files it writes for the three tools *)
(* ===================================================================== *)

Module Launcher.
Import PyStr ConfigManager.

(** [d.get(k, dflt)] *)
Definition get_or (k : string) (dflt : value) (d : dict) : value :=
  default dflt (dict_get k d).

(** [generate_temp_config]: the mapping handed to [yaml.dump].  The
    temporary file is taken to read back as the mapping written. *)
Definition generate_temp_config (global_config task_config : dict) : dict :=
  [("target_url", get_or "target_url" (VStr "") task_config);
   ("regex_pattern", get_or "regex_pattern" (VStr ".*") task_config);
   ("output_file", get_or "output_file" (VStr "results.jsonl") task_config);
   ("click_selector", get_or "click_selector" (VStr "") task_config);
   ("wait_for_selector", get_or "wait_for_selector" (VStr "") task_config);
   ("max_clicks", get_or "max_clicks" (VInt 0) task_config);
   ("click_delay_ms", get_or "click_delay_ms" (VInt 1000) task_config);
   ("cache_path", get_or "cache_path" (VStr "./.crawl4ai_cache") global_config);
   ("enable_cache", get_or "enable_cache" (VBool true) global_config);
   ("jsonl_input",
    get_or "jsonl_input"
      (VDict [("url_field", VStr "matched_url");
              ("delay_between_urls", VFloat 2)]) task_config);
   ("browser", get_or "browser" (VDict []) global_config);
   ("crawler", get_or "crawler" (VDict []) global_config);
   ("logging", get_or "logging" (VDict []) global_config)].

(** [generate_capturer_config] *)
Definition generate_capturer_config (global_config capture_config : dict)
  : dict :=
  [("browser", get_or "browser" (VDict []) global_config);
   ("logging", get_or "logging" (VDict []) global_config);
   ("capturer",
    VDict
      [("input", get_or "input" (VStr "") capture_config);
       ("url_field", get_or "url_field" (VStr "matched_url") capture_config);
       ("output_dir", get_or "output_dir" (VStr "./captures") capture_config);
       ("output_file",
        get_or "output_file" (VStr "capture_results.jsonl") capture_config);
       ("save_screenshot", get_or "save_screenshot" (VBool true) capture_config);
       ("save_html", get_or "save_html" (VBool true) capture_config);
       ("screenshot", get_or "screenshot" (VDict []) capture_config);
       ("html", get_or "html" (VDict []) capture_config);
       ("naming", get_or "naming" (VDict []) capture_config);
       ("request_delay", get_or "request_delay" (VFloat 2) capture_config);
       ("page_load_timeout",
        get_or "page_load_timeout" (VInt 60000) capture_config);
       ("wait_after_load", get_or "wait_after_load" (VFloat 3) capture_config);
       ("max_retries", get_or "max_retries" (VInt 2) capture_config)])].

(** [generate_downloader_config] *)
Definition generate_downloader_config (global_config download_config : dict)
  : dict :=
  [("browser", get_or "browser" (VDict []) global_config);
   ("crawler", get_or "crawler" (VDict []) global_config);
   ("logging", get_or "logging" (VDict []) global_config);
   ("downloader",
    VDict
      [("input", get_or "input" (VStr "") download_config);
       ("url_field", get_or "url_field" (VStr "matched_url") download_config);
       ("output_file",
        get_or "output_file" (VStr "download_results.jsonl") download_config);
       ("download_dir", get_or "download_dir" (VStr "./downloads") download_config);
       ("max_concurrent", get_or "max_concurrent" (VInt 2) download_config);
       ("request_delay", get_or "request_delay" (VFloat 3) download_config);
       ("download_timeout", get_or "download_timeout" (VInt 120) download_config);
       ("max_retries", get_or "max_retries" (VInt 3) download_config);
       ("retry_delay", get_or "retry_delay" (VFloat 10) download_config);
       ("pdf_patterns", get_or "pdf_patterns" (VList []) download_config);
       ("year_patterns", get_or "year_patterns" (VList []) download_config);
       ("default_year", get_or "default_year" (VStr "Unknown") download_config)])].

(** [section.get(k, dflt)] on what should be a mapping; [None] is the
    AttributeError of a section that is none. *)
Definition section_get (k : string) (dflt : value) (section : value)
  : option value :=
  match section with
  | VDict d => Some (get_or k dflt d)
  | _ => None
  end.

(** What [DownloaderConfig.load] of [downloader_pdf.py] reads from the
    section [downloader], before the patterns are compiled.  In the first
    built-in pattern the double quote of the character class is written
    [\x22]. *)
Record downloader_settings := {
  dl_input_file : value;
  dl_output_file : value;
  dl_download_dir : value;
  dl_max_concurrent : value;
  dl_pdf_patterns : value;
  dl_year_patterns : value }.

Definition downloader_load (config : dict) : option downloader_settings :=
  match get_or "downloader" (VDict []) config with
  | VDict downloader =>
      Some {| dl_input_file := get_or "input_file" (VStr "results.jsonl") downloader;
              dl_output_file :=
                get_or "output_file" (VStr "final_papers.jsonl") downloader;
              dl_download_dir := get_or "download_dir" (VStr "./downloads") downloader;
              dl_max_concurrent := get_or "max_concurrent" (VInt 5) downloader;
              dl_pdf_patterns :=
                get_or "pdf_patterns"
                  (VList [VStr "https?://[^\x22'\s]+\.pdf"]) downloader;
              dl_year_patterns :=
                get_or "year_patterns"
                  (VList [VStr "/paper/(\d{4})/"; VStr "/(\d{4})/"]) downloader |}
  | _ => None
  end.

(** What [CapturerConfig.load] of [page_capturer.py] reads as its input. *)
Definition capturer_input (config : dict) : option value :=
  match get_or "capturer" (VDict []) config with
  | VDict capturer =>
      Some (get_or "input" (get_or "input_file" (VStr "results.jsonl") capturer)
              capturer)
  | _ => None
  end.

(** The keys of [generate_temp_config] whose default in [DEFAULT_CONFIG] is
    no mapping. *)
Definition flat_keys : list string :=
  ["target_url"; "regex_pattern"; "output_file"; "click_selector";
   "wait_for_selector"; "max_clicks"; "click_delay_ms"; "cache_path";
   "enable_cache"].

(** X19: the input of the download task is not what the downloader reads.
    The launcher writes the task's [input] under the key "input"; the
    downloader reads "input_file", so from a file written by the launcher
    it takes "results.jsonl" whatever the task says, and its patterns are
    the task's or none, never the built-in ones.  The capturer reads
    "input" and so gets the task's. *)
Theorem downloader_input_is_not_the_tasks (global_config download_config
    capture_config : dict) :
  (exists s,
     downloader_load (generate_downloader_config global_config download_config)
       = Some s /\
     dl_input_file s = VStr "results.jsonl" /\
     dl_output_file s
       = get_or "output_file" (VStr "download_results.jsonl") download_config /\
     dl_pdf_patterns s = get_or "pdf_patterns" (VList []) download_config /\
     dl_year_patterns s = get_or "year_patterns" (VList []) download_config) /\
  capturer_input (generate_capturer_config global_config capture_config)
    = Some (get_or "input" (VStr "") capture_config).
Proof.
  split; [|reflexivity]. eexists. split; [reflexivity|].
  repeat split.
Qed.

Lemma generated_keys global_config task_config :
  NoDup (map fst (generate_temp_config global_config task_config)).
Proof.
  unfold generate_temp_config. cbn [map fst].
  apply (bool_decide_unpack _). vm_compute. exact I.
Qed.

(** X20: under the launcher the defaults of [ConfigManager] for the flat
    keys never apply.  For each of these keys, the configuration the crawler
    loads from a file written by the launcher holds what the launcher wrote:
    the task's value or the launcher's own default; so a task that leaves
    out [max_clicks] runs with 0 clicks, not with the 50 of
    [DEFAULT_CONFIG]. *)
Theorem launcher_defaults_override (global_config task_config : dict)
    (key : string) :
  In key flat_keys ->
  dict_get key (_merge_config DEFAULT_CONFIG
                  (generate_temp_config global_config task_config))
  = dict_get key (generate_temp_config global_config task_config) /\
  (dict_get "max_clicks" task_config = None ->
   get (_merge_config DEFAULT_CONFIG
          (generate_temp_config global_config task_config))
     "max_clicks" (VInt 50) = VInt 0).
Proof.
  intros Hkey.
  assert (Hget : forall k, In k flat_keys ->
    dict_get k (_merge_config DEFAULT_CONFIG
                  (generate_temp_config global_config task_config))
    = dict_get k (generate_temp_config global_config task_config)).
  { intros k Hk. unfold _merge_config.
    rewrite merge_loop_get by apply generated_keys.
    unfold flat_keys in Hk. simpl in Hk.
    repeat (destruct Hk as [<-|Hk];
            [cbn [generate_temp_config dict_get String.eqb Ascii.eqb
                  Bool.eqb DEFAULT_CONFIG];
             rewrite merge_value_over_leaf by reflexivity; reflexivity|]).
    destruct Hk. }
  split; [exact (Hget key Hkey)|].
  intros Hnone. unfold get.
  change (split_dot "max_clicks") with ["max_clicks"]. cbn [walk].
  rewrite Hget by (unfold flat_keys; simpl; tauto).
  cbn [generate_temp_config dict_get String.eqb Ascii.eqb Bool.eqb].
  unfold get_or. rewrite Hnone. reflexivity.
Qed.

Lemma launcher_defaults_witness :
  In "max_clicks" flat_keys /\
  get (_merge_config DEFAULT_CONFIG
         (generate_temp_config [] [("target_url", VStr "https://dl.acm.org")]))
    "max_clicks" (VInt 50) = VInt 0.
Proof.
  assert (H : In "max_clicks" flat_keys) by (unfold flat_keys; simpl; tauto).
  split; [exact H|].
  exact (proj2 (launcher_defaults_override []
                  [("target_url", VStr "https://dl.acm.org")] "max_clicks" H)
               eq_refl).
Defined.

End Launcher.

(* ===================================================================== *)
(** ** The page capturer of [page_capturer.py] *)
(* ===================================================================== *)

Module PageCapturer.
Import PyStr.

(** The two handlers of the [try] in [capture_page]. *)
Inductive exn :=
| TimeoutError            (* asyncio.TimeoutError *)
| Error (msg : string).   (* any other Exception, with str(e) *)

(** [page.goto(url, ...)]. *)
Inductive goto_result :=
| Response (status : nat)
| NoResponse
| GotoRaises (e : exn).

(** What follows an ok response, up to the [return]: the title is read, the
    screenshot and the HTML are saved.  Either all of it succeeds, or a step
    raises after the fields set so far. *)
Inductive page_work :=
| Saved (page_title screenshot_path html_path : string)
| Broken (page_title screenshot_path : option string) (e : exn).

(** One attempt as the outside world answers it. *)
Record attempt := { goto : goto_result; work : page_work }.

(** Playwright's [response.ok]. *)
Definition response_ok (status : nat) : bool :=
  (status =? 0)%nat || ((200 <=? status)%nat && (status <=? 299)%nat).

(** An input record: [record.get(url_field, "")] and
    [record.get("page_title", "")]. *)
Record url_record := { rec_url : string; rec_title : string }.

(** The result dictionary, without its timestamp. *)
Record result := {
  url : string;
  source_title : string;
  status : string;
  screenshot_path : string;
  html_path : string;
  page_title : string;
  error : string;
  browser_crashed : bool }.

Inductive wait :=
| AfterLoad        (* asyncio.sleep(wait_after_load) *)
| BeforeRetry      (* asyncio.sleep(2) *)
| BeforeRestart    (* asyncio.sleep(3) *)
| RequestDelay.    (* asyncio.sleep(request_delay) *)

Inductive event :=
| Goto (url : string)
| Wait (w : wait)
| Restart                                  (* browser.close(); _create_browser *)
| Gate (e : ChallengeGate.event)           (* inside _handle_cloudflare *)
| SaveResults (rows : list result).        (* save_results() *)

(** The service object and the world it has seen: [clock] counts the calls
    of [page.goto] made in the loop over the records. *)
Record service := {
  results : list result;
  success_count : nat;
  failed_count : nat;
  clock : nat;
  trace : list event }.

Definition log (sv : service) (evs : list event) : service :=
  {| results := results sv; success_count := success_count sv;
     failed_count := failed_count sv; clock := clock sv;
     trace := trace sv ++ evs |}.

Definition went (sv : service) (u : string) : service :=
  {| results := results sv; success_count := success_count sv;
     failed_count := failed_count sv; clock := S (clock sv);
     trace := trace sv ++ [Goto u] |}.

Definition set_error (r : result) (msg : string) : result :=
  {| url := url r; source_title := source_title r; status := status r;
     screenshot_path := screenshot_path r; html_path := html_path r;
     page_title := page_title r; error := msg;
     browser_crashed := browser_crashed r |}.

Definition set_crashed (r : result) : result :=
  {| url := url r; source_title := source_title r; status := status r;
     screenshot_path := screenshot_path r; html_path := html_path r;
     page_title := page_title r; error := error r;
     browser_crashed := true |}.

Definition set_status (r : result) (s : string) : result :=
  {| url := url r; source_title := source_title r; status := s;
     screenshot_path := screenshot_path r; html_path := html_path r;
     page_title := page_title r; error := error r;
     browser_crashed := browser_crashed r |}.

Definition set_page (r : result) (title shot html : option string) : result :=
  {| url := url r; source_title := source_title r; status := status r;
     screenshot_path := default (screenshot_path r) shot;
     html_path := default (html_path r) html;
     page_title := default (page_title r) title; error := error r;
     browser_crashed := browser_crashed r |}.

(** ["closed" in error_msg.lower() or "crash" in error_msg.lower()].  The
    two needles are ASCII and have no letter that a non-ASCII character
    lowers to, so lowering the ASCII letters decides the test. *)
Definition is_crash (error_msg : string) : bool :=
  str_in "closed" (lower error_msg) || str_in "crash" (lower error_msg).

(** What the handlers store in [result["error"]]. *)
Definition message (e : exn) : string :=
  match e with
  | TimeoutError => "页面加载超时"
  | Error msg => msg
  end.

(** The exceptions after which the retry loop goes on: a timeout, whether
    raised as [asyncio.TimeoutError] or as another exception, and any other
    exception whose text does not look like a crash of the browser. *)
Definition survivable (e : exn) : bool :=
  match e with
  | TimeoutError => true
  | Error msg => negb (is_crash msg)
  end.

(** The two [except] clauses: the result, and whether the function returns
    at once. *)
Definition handle (e : exn) (r : result) : result * bool :=
  match e with
  | TimeoutError => (set_error r "页面加载超时", false)
  | Error msg =>
      if is_crash msg then (set_crashed (set_error r msg), true)
      else (set_error r msg, false)
  end.

Section Capture.
(** [config.max_retries], and the answer of the world to the n-th call of
    [page.goto] made by [capture_page]. *)
Variable max_retries : Z.
Variable world : nat -> attempt.

(** [if retry < self.config.max_retries: await asyncio.sleep(2)] *)
Definition before_retry (retry : nat) (sv : service) : service :=
  if (Z.of_nat retry <? max_retries)%Z then log sv [Wait BeforeRetry] else sv.

(** [for retry in range(max_retries + 1)] from turn [retry] with [todo]
    turns left, and what follows the loop. *)
Fixpoint attempts (u : string) (retry todo : nat) (r : result) (sv : service)
  : result * service :=
  match todo with
  | O =>
      (set_status r "failed",
       {| results := results sv; success_count := success_count sv;
          failed_count := S (failed_count sv); clock := clock sv;
          trace := trace sv |})
  | S todo' =>
      let a := world (clock sv) in
      let sv1 := went sv u in
      let raised (e : exn) (r1 : result) (sv2 : service) :=
        let '(r2, returns) := handle e r1 in
        if returns then (r2, sv2)
        else attempts u (S retry) todo' r2 (before_retry retry sv2) in
      match goto a with
      | GotoRaises e => raised e r sv1
      | NoResponse => attempts u (S retry) todo' (set_error r "无响应") sv1
      | Response code =>
          if response_ok code then
            let sv2 := log sv1 [Wait AfterLoad] in
            match work a with
            | Saved title shot html =>
                (set_status (set_page r (Some title) (Some shot) (Some html))
                   "success",
                 {| results := results sv2;
                    success_count := S (success_count sv2);
                    failed_count := failed_count sv2; clock := clock sv2;
                    trace := trace sv2 |})
            | Broken title shot e => raised e (set_page r title shot None) sv2
            end
          else
            attempts u (S retry) todo'
              (set_error r ("HTTP " +:+ show_Z (Z.of_nat code))) sv1
      end
  end.

(** [PageCapturerService.capture_page]. *)
Definition capture_page (record : url_record) (sv : service)
  : result * service :=
  let r := {| url := rec_url record; source_title := rec_title record;
              status := "pending"; screenshot_path := ""; html_path := "";
              page_title := ""; error := ""; browser_crashed := false |} in
  attempts (rec_url record) 0 (Z.to_nat (max_retries + 1)) r sv.

(** The rest of a turn of the loop of [run] once [capture_page] has returned
    a result without [browser_crashed]: append it, save every twenty
    records, sleep unless this was the last record. *)
Definition keep_result (i total : nat) (r : result) (sv1 : service) : service :=
  let sv2 :=
    {| results := results sv1 ++ [r];
       success_count := success_count sv1;
       failed_count := failed_count sv1; clock := clock sv1;
       trace := trace sv1 |} in
  let sv3 :=
    if (S i mod 20 =? 0)%nat
    then log sv2 [SaveResults (results sv2)] else sv2 in
  if (i <? total - 1)%nat then log sv3 [Wait RequestDelay] else sv3.

(** The [while i < total] loop of [run]; [None] when the fuel runs out. *)
Fixpoint run_loop (fuel : nat) (records : list url_record) (i : nat)
    (sv : service) : option service :=
  match fuel with
  | O => None
  | S fuel' =>
      match records !! i with
      | None => Some sv
      | Some record =>
          let '(r, sv1) := capture_page record sv in
          if browser_crashed r then
            run_loop fuel' records i (log sv1 [Wait BeforeRestart; Restart])
          else run_loop fuel' records (S i) (keep_result i (length records) r sv1)
      end
  end.

End Capture.

(** The lines of the input file as [load_input_urls] sees them: a record, or
    a line that is blank or is not JSON. *)
Fixpoint load_records (lines : list (option url_record))
    (seen_urls : gset string) : list url_record :=
  match lines with
  | [] => []
  | None :: rest => load_records rest seen_urls
  | Some record :: rest =>
      if truthy (rec_url record)
         && bool_decide (rec_url record ∉ seen_urls)
      then record :: load_records rest ({[ rec_url record ]} ∪ seen_urls)
      else load_records rest seen_urls
  end.

(** [load_input_urls]: one URL, or the records of a JSONL file. *)
Inductive capturer_input :=
| SingleUrl (u : string)
| JsonlFile (lines : list (option url_record)).

Definition load_input_urls (input : capturer_input) : list url_record :=
  match input with
  | SingleUrl u => [{| rec_url := u; rec_title := "" |}]
  | JsonlFile lines => load_records lines ∅
  end.

Definition new_service : service :=
  {| results := []; success_count := 0; failed_count := 0; clock := 0;
     trace := [] |}.

Section Run.
Variable max_retries : Z.
Variable world : nat -> attempt.
(** The first visit, before the loop: the answer of [page.goto], the page
    the gate then sees, and the operator at the keyboard. *)
Variable first_visit : goto_result.
Variable page : nat -> string * string.
Variable operator : ChallengeGate.operator.

(** The block "首先访问第一个 URL 触发 Cloudflare 验证"; every exception in
    it is logged and dropped. *)
Definition first_contact (init_url : string) (sv : service) : service :=
  let sv1 := log sv [Goto init_url] in
  match first_visit with
  | GotoRaises _ => sv1
  | _ => log sv1 (map Gate (fst (ChallengeGate.capturer_handle_cloudflare
                                   page operator)))
  end.

(** [PageCapturerService.run], up to the statistics it returns. *)
Definition run (fuel : nat) (input : capturer_input) : option service :=
  let records := load_input_urls input in
  match records with
  | [] => Some new_service
  | first :: _ =>
      match run_loop max_retries world fuel records 0
              (first_contact (rec_url first) new_service) with
      | None => None
      | Some sv => Some (log sv [SaveResults (results sv)])
      end
  end.

End Run.

(** *** One result per record *)

(** The attempt ends in an exception that the code takes for a crash of the
    browser. *)
Definition crashes (a : attempt) : bool :=
  match goto a with
  | GotoRaises (Error msg) => is_crash msg
  | Response code =>
      response_ok code &&
      match work a with
      | Broken _ _ (Error msg) => is_crash msg
      | _ => false
      end
  | _ => false
  end.

Section CaptureFacts.
Variable max_retries : Z.
Variable world : nat -> attempt.

Lemma before_retry_same retry sv :
  results (before_retry max_retries retry sv) = results sv /\
  clock (before_retry max_retries retry sv) = clock sv.
Proof. unfold before_retry. destruct (_ <? _)%Z; split; reflexivity. Qed.

Lemma handle_keeps e r r' returns :
  handle e r = (r', returns) ->
  url r' = url r /\
  (returns = false -> browser_crashed r' = browser_crashed r) /\
  (returns = true -> exists msg, e = Error msg /\ is_crash msg = true).
Proof.
  destruct e as [|msg]; simpl.
  - intros H; inversion H; subst. repeat split; discriminate.
  - destruct (is_crash msg) eqn:Hc; intros H; inversion H; subst;
      repeat split; try discriminate.
    intros _. exists msg. split; [reflexivity|exact Hc].
Qed.

Lemma attempts_inv u : forall todo retry r sv r' sv',
  attempts max_retries world u retry todo r sv = (r', sv') ->
  url r' = url r /\
  results sv' = results sv /\
  clock sv <= clock sv' /\
  (browser_crashed r = false -> browser_crashed r' = true ->
   exists n, clock sv <= n < clock sv' /\ crashes (world n) = true).
Proof.
  induction todo as [|todo IH]; intros retry r sv r' sv' H; simpl in H.
  - inversion H; subst; simpl. repeat split; [lia|].
    intros H0 H1. congruence.
  - unfold crashes in *.
    destruct (goto (world (clock sv))) as [code| |e] eqn:Hgoto.
    + destruct (response_ok code) eqn:Hok.
      * destruct (work (world (clock sv))) as [t s h|t s e] eqn:Hwork.
        -- inversion H; subst; simpl. repeat split; [lia|].
           intros H0 H1. congruence.
        -- destruct (handle e (set_page r t s None)) as [r2 returns] eqn:Hh.
           destruct (handle_keeps _ _ _ _ Hh) as (Hu & Hkeep & Hret).
           destruct returns.
           ++ inversion H; subst; simpl. repeat split; [exact Hu|lia|].
              intros _ _. destruct (Hret eq_refl) as (msg & -> & Hc).
              exists (clock sv). split; [lia|].
              rewrite Hgoto, Hok, Hwork. exact Hc.
           ++ apply IH in H. destruct H as (H1 & H2 & H3 & H4).
              destruct (before_retry_same retry (log (went sv u) [Wait AfterLoad]))
                as [Er Ec].
              rewrite Er in H2. rewrite Ec in H3, H4. simpl in *.
              repeat split; [congruence|exact H2|lia|].
              intros Hr Hr'. rewrite (Hkeep eq_refl) in H4.
              destruct (H4 Hr Hr') as (n & Hn & Hc). exists n. split; [lia|exact Hc].
      * apply IH in H. destruct H as (H1 & H2 & H3 & H4). simpl in *.
        repeat split; [exact H1|exact H2|lia|].
        intros Hr Hr'. destruct (H4 Hr Hr') as (n & Hn & Hc).
        exists n. split; [lia|exact Hc].
    + apply IH in H. destruct H as (H1 & H2 & H3 & H4). simpl in *.
      repeat split; [exact H1|exact H2|lia|].
      intros Hr Hr'. destruct (H4 Hr Hr') as (n & Hn & Hc).
      exists n. split; [lia|exact Hc].
    + destruct (handle e r) as [r2 returns] eqn:Hh.
      destruct (handle_keeps _ _ _ _ Hh) as (Hu & Hkeep & Hret).
      destruct returns.
      * inversion H; subst; simpl. repeat split; [exact Hu|lia|].
        intros _ _. destruct (Hret eq_refl) as (msg & -> & Hc).
        exists (clock sv). split; [lia|]. rewrite Hgoto. exact Hc.
      * apply IH in H. destruct H as (H1 & H2 & H3 & H4).
        destruct (before_retry_same retry (went sv u)) as [Er Ec].
        rewrite Er in H2. rewrite Ec in H3, H4. simpl in *.
        repeat split; [congruence|exact H2|lia|].
        intros Hr Hr'. rewrite (Hkeep eq_refl) in H4.
        destruct (H4 Hr Hr') as (n & Hn & Hc). exists n. split; [lia|exact Hc].
Qed.

Lemma capture_page_inv record sv r' sv' :
  capture_page max_retries world record sv = (r', sv') ->
  url r' = rec_url record /\
  results sv' = results sv /\
  clock sv <= clock sv' /\
  (browser_crashed r' = true ->
   exists n, clock sv <= n < clock sv' /\ crashes (world n) = true).
Proof.
  unfold capture_page. intros H. apply attempts_inv in H.
  destruct H as (H1 & H2 & H3 & H4). simpl in *.
  repeat split; [exact H1|exact H2|exact H3|]. intros Hc. exact (H4 eq_refl Hc).
Qed.

Lemma log_same sv evs :
  results (log sv evs) = results sv /\ clock (log sv evs) = clock sv.
Proof. split; reflexivity. Qed.

Lemma keep_result_same i total r sv :
  results (keep_result i total r sv) = results sv ++ [r] /\
  clock (keep_result i total r sv) = clock sv.
Proof.
  unfold keep_result.
  destruct (S i mod 20 =? 0)%nat, (i <? total - 1)%nat; split; reflexivity.
Qed.

(** Whenever the loop ends, it has appended one result for each record from
    [i] on, in order. *)
Lemma run_loop_results records : forall fuel i sv sv',
  run_loop max_retries world fuel records i sv = Some sv' ->
  map url (results sv') = map url (results sv) ++ map rec_url (drop i records).
Proof.
  induction fuel as [|fuel IH]; intros i sv sv' H; cbn [run_loop] in H;
    [discriminate|].
  destruct (records !! i) as [record|] eqn:Hi.
  - destruct (capture_page max_retries world record sv) as [r sv1] eqn:Hc.
    destruct (capture_page_inv _ _ _ _ Hc) as (Hu & Hr & _ & _).
    destruct (browser_crashed r).
    + apply IH in H. rewrite (proj1 (log_same _ _)), Hr in H. exact H.
    + apply IH in H.
      rewrite (proj1 (keep_result_same _ _ _ _)), Hr, map_app in H.
      rewrite (drop_S _ _ _ Hi). rewrite H, <- app_assoc. simpl.
      rewrite Hu. reflexivity.
  - inversion H; subst. rewrite drop_ge; [|apply lookup_ge_None; exact Hi].
    simpl. rewrite app_nil_r. reflexivity.
Qed.

(** The loop ends when the browser stops crashing: from attempt [N] on no
    attempt crashes. *)
Lemma run_loop_ends records N :
  (forall n, N <= n -> crashes (world n) = false) ->
  forall fuel i sv,
    (N - clock sv) + (length records - i) < fuel ->
    exists sv', run_loop max_retries world fuel records i sv = Some sv'.
Proof.
  intros Hcalm. induction fuel as [|fuel IH]; intros i sv Hfuel; [lia|].
  cbn [run_loop].
  destruct (records !! i) as [record|] eqn:Hi; [|eexists; reflexivity].
  assert (Hlt : i < length records) by (eapply lookup_lt_Some; exact Hi).
  destruct (capture_page max_retries world record sv) as [r sv1] eqn:Hc.
  destruct (capture_page_inv _ _ _ _ Hc) as (_ & _ & Hclock & Hcrash).
  destruct (browser_crashed r).
  - destruct (Hcrash eq_refl) as (n & Hn & Hcr).
    assert (n < N).
    { destruct (Nat.lt_ge_cases n N) as [Hl|Hg]; [exact Hl|].
      rewrite (Hcalm n Hg) in Hcr. discriminate. }
    apply IH. rewrite (proj2 (log_same _ _)). lia.
  - apply IH. rewrite (proj2 (keep_result_same _ _ _ _)). lia.
Qed.

(** The turns of the retry loop, one equation for each way a turn goes on. *)
Lemma handle_survivable e r :
  survivable e = true -> handle e r = (set_error r (message e), false).
Proof.
  destruct e as [|msg]; simpl; [reflexivity|].
  destruct (is_crash msg); [discriminate|reflexivity].
Qed.

Lemma attempts_raised u retry todo r sv e :
  goto (world (clock sv)) = GotoRaises e -> survivable e = true ->
  attempts max_retries world u retry (S todo) r sv
  = attempts max_retries world u (S retry) todo
      (set_error r (message e)) (before_retry max_retries retry (went sv u)).
Proof.
  intros H He. cbn [attempts]. rewrite H, (handle_survivable _ _ He).
  reflexivity.
Qed.


Lemma attempts_saved u retry todo r sv title shot html :
  world (clock sv) = {| goto := Response 200; work := Saved title shot html |} ->
  attempts max_retries world u retry (S todo) r sv
  = (set_status (set_page r (Some title) (Some shot) (Some html)) "success",
     {| results := results sv; success_count := S (success_count sv);
        failed_count := failed_count sv; clock := S (clock sv);
        trace := (trace sv ++ [Goto u]) ++ [Wait AfterLoad] |}).
Proof. intros H. cbn [attempts]. rewrite H. reflexivity. Qed.

Lemma before_retry_yes retry sv :
  (Z.of_nat retry < max_retries)%Z ->
  before_retry max_retries retry sv = log sv [Wait BeforeRetry].
Proof.
  intros H. unfold before_retry.
  rewrite (proj2 (Z.ltb_lt _ _) H). reflexivity.
Qed.

(** Two attempts that raise a timeout, or another exception the loop
    survives, and then a page that loads and is saved, with at least two
    retries allowed: one result, with status "success". *)
Lemma third_attempt_succeeds record sv e0 e1 title shot html :
  (2 <= max_retries)%Z ->
  goto (world (clock sv)) = GotoRaises e0 -> survivable e0 = true ->
  goto (world (S (clock sv))) = GotoRaises e1 -> survivable e1 = true ->
  world (S (S (clock sv)))
    = {| goto := Response 200; work := Saved title shot html |} ->
  capture_page max_retries world record sv
  = ({| url := rec_url record; source_title := rec_title record;
        status := "success"; screenshot_path := shot; html_path := html;
        page_title := title; error := message e1;
        browser_crashed := false |},
     {| results := results sv;
        success_count := S (success_count sv);
        failed_count := failed_count sv;
        clock := S (S (S (clock sv)));
        trace := ((((((trace sv ++ [Goto (rec_url record)])
                        ++ [Wait BeforeRetry])
                        ++ [Goto (rec_url record)])
                        ++ [Wait BeforeRetry])
                        ++ [Goto (rec_url record)])
                        ++ [Wait AfterLoad]) |}).
Proof.
  intros Hmax H0 He0 H1 He1 H2. unfold capture_page.
  destruct (Z.to_nat (max_retries + 1)) as [|[|[|todo]]] eqn:Htodo; try lia.
  rewrite attempts_raised with (e := e0); [|exact H0|exact He0].
  rewrite before_retry_yes by lia.
  rewrite attempts_raised with (e := e1); [|exact H1|exact He1].
  rewrite before_retry_yes by lia.
  rewrite attempts_saved with (title := title) (shot := shot) (html := html)
    by exact H2.
  reflexivity.
Qed.



End CaptureFacts.
Lemma load_records_fresh lines : forall seen,
  NoDup (map rec_url (load_records lines seen)) /\
  forall u, In u (map rec_url (load_records lines seen)) -> u ∉ seen.
Proof.
  induction lines as [|[record|] lines IH]; intros seen; simpl.
  - split; [constructor|intros u []].
  - destruct (truthy (rec_url record)); simpl; [|exact (IH seen)].
    destruct (bool_decide (rec_url record ∉ seen)) eqn:Hd; [|exact (IH seen)].
    apply bool_decide_eq_true in Hd.
    destruct (IH ({[rec_url record]} ∪ seen)) as [Hn Hf]. simpl. split.
    + apply NoDup_cons. split; [|exact Hn].
      intros Hin. apply list_elem_of_In, Hf in Hin. set_solver.
    + intros u [<-|Hin]; [exact Hd|]. apply Hf in Hin. set_solver.
  - exact (IH seen).
Qed.

Lemma load_input_urls_nodup input : NoDup (map rec_url (load_input_urls input)).
Proof.
  destruct input as [u|lines]; simpl.
  - apply NoDup_singleton.
  - apply load_records_fresh.
Qed.

Section RunFacts.
Variable max_retries : Z.
Variable world : nat -> attempt.
Variable first_visit : goto_result.
Variable page : nat -> string * string.
Variable operator : ChallengeGate.operator.

Lemma first_contact_same init_url sv :
  results (first_contact first_visit page operator init_url sv) = results sv /\
  clock (first_contact first_visit page operator init_url sv) = clock sv.
Proof. unfold first_contact. destruct first_visit; split; reflexivity. Qed.

Lemma run_results fuel input sv :
  run max_retries world first_visit page operator fuel input = Some sv ->
  map url (results sv) = map rec_url (load_input_urls input).
Proof.
  unfold run. destruct (load_input_urls input) as [|first rest] eqn:Hrec.
  - intros H; inversion H; subst. reflexivity.
  - destruct (run_loop max_retries world fuel (first :: rest) 0 _) as [sv1|] eqn:Hl;
      [|discriminate].
    intros H; inversion H; subst. apply run_loop_results in Hl.
    rewrite (proj1 (first_contact_same _ _)) in Hl. exact Hl.
Qed.

(** An attempt whose [page.goto] raises an error that reads like a crash
    of the browser ends [capture_page] at once, with the mark for the
    caller and without a status. *)
Lemma capture_page_crashing record sv msg :
  (0 <= max_retries)%Z ->
  goto (world (clock sv)) = GotoRaises (Error msg) -> is_crash msg = true ->
  capture_page max_retries world record sv
  = (set_crashed
       (set_error
          {| url := rec_url record; source_title := rec_title record;
             status := "pending"; screenshot_path := ""; html_path := "";
             page_title := ""; error := ""; browser_crashed := false |} msg),
     went sv (rec_url record)).
Proof.
  intros Hmax Hg Hc. unfold capture_page.
  destruct (Z.to_nat (max_retries + 1)) as [|todo] eqn:Htodo; [lia|].
  cbn [attempts]. rewrite Hg. unfold handle. rewrite Hc. reflexivity.
Qed.

(** While every attempt crashes, the loop stays at the same record: it
    restarts the browser and tries again, whatever the fuel. *)
Lemma run_loop_crashing records i record from :
  (0 <= max_retries)%Z ->
  records !! i = Some record ->
  (forall n, from <= n ->
     exists msg, goto (world n) = GotoRaises (Error msg) /\
                 is_crash msg = true) ->
  forall fuel sv, from <= clock sv ->
    run_loop max_retries world fuel records i sv = None.
Proof.
  intros Hmax Hi Hall. induction fuel as [|fuel IH]; intros sv Hsv;
    [reflexivity|].
  cbn [run_loop]. rewrite Hi.
  destruct (Hall (clock sv) Hsv) as (msg & Hg & Hc).
  rewrite (capture_page_crashing record sv msg Hmax Hg Hc).
  cbn [browser_crashed set_crashed]. apply IH. simpl. lia.
Qed.

(** When the loop ends, it has appended one result for each record, in
    order. *)
Lemma run_loop_appends records : forall fuel i sv sv',
  run_loop max_retries world fuel records i sv = Some sv' ->
  exists outcomes,
    results sv' = results sv ++ outcomes /\
    map url outcomes = map rec_url (drop i records).
Proof.
  induction fuel as [|fuel IH]; intros i sv sv' H; cbn [run_loop] in H;
    [discriminate|].
  destruct (records !! i) as [record|] eqn:Hi.
  - destruct (capture_page max_retries world record sv) as [r sv1] eqn:Hc.
    destruct (capture_page_inv _ _ _ _ _ _ Hc) as (Hu & Hr & _ & _).
    destruct (browser_crashed r).
    + apply IH in H as (outcomes & H1 & H2). exists outcomes.
      rewrite (proj1 (log_same _ _)), Hr in H1. auto.
    + apply IH in H as (outcomes & H1 & H2).
      rewrite (proj1 (keep_result_same _ _ _ _)), Hr, <- app_assoc in H1.
      exists ([r] ++ outcomes). split; [exact H1|].
      rewrite (drop_S _ _ _ Hi). simpl. rewrite Hu, H2. reflexivity.
  - inversion H; subst. exists []. rewrite app_nil_r.
    rewrite drop_ge; [|apply lookup_ge_None; exact Hi]. auto.
Qed.

(** C6, amended: a pass over the pending records that ends has appended
    exactly one result for each record, in the order of the records and
    whatever the number of attempts and of restarts of the browser each
    took.  The pass ends once the browser stops crashing, that is when from
    some attempt on no attempt fails with an error whose text has "closed"
    or "crash" in it.  While every attempt fails with such an error, and at
    least one attempt is allowed, the pass stays at the first record for
    ever and no record gets a result.  A record whose first two attempts
    time out and whose third attempt loads, with at least two retries
    configured, gets one result, with status "success".  The restart of the
    browser is taken to succeed. *)
Theorem one_outcome_per_url (records : list url_record) (sv0 : service) :
  (forall fuel sv,
     run_loop max_retries world fuel records 0 sv0 = Some sv ->
     exists outcomes,
       results sv = results sv0 ++ outcomes /\
       map url outcomes = map rec_url records /\
       length outcomes = length records) /\
  (forall N, (forall n, N <= n -> crashes (world n) = false) ->
     exists fuel sv, run_loop max_retries world fuel records 0 sv0 = Some sv) /\
  ((0 <= max_retries)%Z -> records <> [] ->
   (forall n, clock sv0 <= n ->
      exists msg, goto (world n) = GotoRaises (Error msg) /\
                  is_crash msg = true) ->
   forall fuel, run_loop max_retries world fuel records 0 sv0 = None) /\
  (forall record e0 e1 title shot html,
     records = [record] ->
     (2 <= max_retries)%Z ->
     goto (world (clock sv0)) = GotoRaises e0 -> survivable e0 = true ->
     goto (world (S (clock sv0))) = GotoRaises e1 -> survivable e1 = true ->
     world (S (S (clock sv0)))
       = {| goto := Response 200; work := Saved title shot html |} ->
     exists sv r,
       run_loop max_retries world 2 records 0 sv0 = Some sv /\
       results sv = results sv0 ++ [r] /\
       url r = rec_url record /\ status r = "success").
Proof.
  split; [|split; [|split]].
  - intros fuel sv H. apply run_loop_appends in H as (outcomes & H1 & H2).
    rewrite drop_0 in H2. exists outcomes.
    split; [exact H1|]. split; [exact H2|].
    rewrite <- (length_map url), H2, length_map. reflexivity.
  - intros N Hcalm.
    destruct (run_loop_ends max_retries world records N Hcalm
                (S (N + length records)) 0 sv0 ltac:(lia)) as (sv & Hsv).
    exists (S (N + length records)), sv. exact Hsv.
  - intros Hmax Hne Hall fuel. destruct records as [|record rest]; [congruence|].
    apply (run_loop_crashing (record :: rest) 0 record (clock sv0) Hmax
             eq_refl Hall fuel sv0). lia.
  - intros record e0 e1 title shot html -> Hmax H0 He0 H1 He1 H2.
    cbn [run_loop lookup list_lookup].
    rewrite (third_attempt_succeeds max_retries world _ _ e0 e1 title shot html
               Hmax H0 He0 H1 He1 H2).
    cbn [browser_crashed run_loop lookup list_lookup].
    eexists _, _. split; [reflexivity|].
    rewrite (proj1 (keep_result_same _ _ _ _)). simpl.
    split; [reflexivity|]. split; reflexivity.
Qed.

End RunFacts.

(** A world where the first two attempts time out, once with each kind of
    exception, and every later one loads and saves the page. *)
Definition slow_start (n : nat) : attempt :=
  match n with
  | 0 => {| goto := GotoRaises TimeoutError; work := Saved "" "" "" |}
  | 1 => {| goto := GotoRaises (Error "Page.goto: Timeout 60000ms exceeded.");
            work := Saved "" "" "" |}
  | _ => {| goto := Response 200;
            work := Saved "NeurIPS 2024" "captures/a.png" "captures/a.html" |}
  end.

(** A page without any marker of the gate. *)
Definition quiet_page (n : nat) : string * string :=
  ("NeurIPS 2024", "<html><body>Papers</body></html>").

Lemma slow_start_calm n : 0 <= n -> crashes (slow_start n) = false.
Proof. intros _. destruct n as [|[|n]]; reflexivity. Qed.

Example slow_start_run :
  option_map (fun sv => map status (results sv))
    (run 3 slow_start (Response 200) quiet_page
       (ChallengeGate.Enter "") 2 (SingleUrl "https://papers.nips.cc/a"))
  = Some ["success"].
Proof. vm_compute. reflexivity. Qed.

(** A browser that is gone: every call of [page.goto] raises. *)
Definition closed_browser (n : nat) : attempt :=
  {| goto := GotoRaises
               (Error "Page.goto: Target page, context or browser has been closed");
     work := Saved "" "" "" |}.

Definition first_paper : url_record :=
  {| rec_url := "https://papers.nips.cc/a"; rec_title := "" |}.

(** C6, as stated, fails: with a browser that is gone every call of
    [capture_page] asks for a restart and records nothing, and the pass
    over the one pending URL does not end, whatever the number of turns;
    the URL gets no outcome. *)
Lemma crashing_url_gets_no_outcome :
  is_crash "Page.goto: Target page, context or browser has been closed" = true /\
  (forall sv,
     browser_crashed (fst (capture_page 2 closed_browser first_paper sv)) = true /\
     status (fst (capture_page 2 closed_browser first_paper sv)) = "pending" /\
     results (snd (capture_page 2 closed_browser first_paper sv)) = results sv) /\
  (forall fuel,
     run_loop 2 closed_browser fuel [first_paper] 0 new_service = None).
Proof.
  split; [reflexivity|]. split.
  - intros sv. repeat split.
  - intros fuel.
    apply (run_loop_crashing 2 closed_browser [first_paper] 0 first_paper 0);
      [lia|reflexivity| |simpl; lia].
    intros n _. eexists. split; reflexivity.
Qed.

Lemma one_outcome_witness :
  (2 <= 3)%Z /\
  exists sv r,
    run_loop 3 slow_start 2 [first_paper] 0 new_service = Some sv /\
    results sv = results new_service ++ [r] /\
    url r = rec_url first_paper /\ status r = "success".
Proof.
  split; [lia|].
  refine (proj2 (proj2 (proj2 (one_outcome_per_url 3 slow_start [first_paper]
                                 new_service)))
            first_paper TimeoutError
            (Error "Page.goto: Timeout 60000ms exceeded.")
            "NeurIPS 2024" "captures/a.png" "captures/a.html" _ _ _ _ _ _ _);
    [reflexivity|lia|reflexivity|reflexivity|reflexivity|reflexivity
    |reflexivity].
Defined.

(** *** The counters *)

Section CaptureAccount.
Variable max_retries : Z.
Variable world : nat -> attempt.

Lemma before_retry_counts retry sv :
  success_count (before_retry max_retries retry sv) = success_count sv /\
  failed_count (before_retry max_retries retry sv) = failed_count sv.
Proof. unfold before_retry. destruct (_ <? _)%Z; split; reflexivity. Qed.

Lemma handle_status e r r' returns :
  handle e r = (r', returns) ->
  status r' = status r /\ (returns = true -> browser_crashed r' = true).
Proof.
  destruct e as [|msg]; simpl.
  - intros H; inversion H; subst. split; [reflexivity|discriminate].
  - destruct (is_crash msg); intros H; inversion H; subst;
      split; try reflexivity; discriminate.
Qed.

(** How one call of the retry loop can end. *)
Definition crash_end (r r' : result) (sv sv' : service) : Prop :=
  browser_crashed r' = true /\ status r' = status r /\
  success_count sv' = success_count sv /\ failed_count sv' = failed_count sv.

Definition success_end (r' : result) (sv sv' : service) : Prop :=
  browser_crashed r' = false /\ status r' = "success" /\
  success_count sv' = S (success_count sv) /\
  failed_count sv' = failed_count sv.

Definition failed_end (todo : nat) (r' : result) (sv sv' : service) : Prop :=
  browser_crashed r' = false /\ status r' = "failed" /\
  success_count sv' = success_count sv /\
  failed_count sv' = S (failed_count sv) /\
  clock sv' = clock sv + todo.

Lemma attempts_account u : forall todo retry r sv,
  browser_crashed r = false ->
  let r' := fst (attempts max_retries world u retry todo r sv) in
  let sv' := snd (attempts max_retries world u retry todo r sv) in
  clock sv' <= clock sv + todo /\
  (crash_end r r' sv sv' \/ success_end r' sv sv' \/ failed_end todo r' sv sv').
Proof.
  induction todo as [|todo IH]; intros retry r sv Hr; cbn zeta.
  - simpl. split; [lia|]. right. right. unfold failed_end. simpl.
    repeat split; try reflexivity; [exact Hr|lia].
  - assert (Hnext : forall r1 sv1,
      browser_crashed r1 = false -> status r1 = status r ->
      success_count sv1 = success_count sv ->
      failed_count sv1 = failed_count sv -> clock sv1 = S (clock sv) ->
      let r' := fst (attempts max_retries world u (S retry) todo r1 sv1) in
      let sv' := snd (attempts max_retries world u (S retry) todo r1 sv1) in
      clock sv' <= clock sv + S todo /\
      (crash_end r r' sv sv' \/ success_end r' sv sv'
       \/ failed_end (S todo) r' sv sv')).
    { intros r1 sv1 Hc Hs Hsc Hfc Hcl. cbn zeta.
      destruct (IH (S retry) r1 sv1 Hc) as [Hle Hend].
      split; [lia|].
      unfold crash_end, success_end, failed_end in *.
      rewrite Hs, Hsc, Hfc, Hcl in Hend.
      destruct Hend as [H|[H|H]]; [left; exact H|right; left; exact H|].
      right. right. destruct H as (H1 & H2 & H3 & H4 & H5).
      repeat split; try assumption. lia. }
    assert (Hraised : forall e r1 sv1,
      browser_crashed r1 = false -> status r1 = status r ->
      success_count sv1 = success_count sv ->
      failed_count sv1 = failed_count sv -> clock sv1 = S (clock sv) ->
      let out := (let '(r2, returns) := handle e r1 in
                  if returns then (r2, sv1)
                  else attempts max_retries world u (S retry) todo r2
                         (before_retry max_retries retry sv1)) in
      clock (snd out) <= clock sv + S todo /\
      (crash_end r (fst out) sv (snd out) \/ success_end (fst out) sv (snd out)
       \/ failed_end (S todo) (fst out) sv (snd out))).
    { intros e r1 sv1 Hc Hs Hsc Hfc Hcl. cbn zeta.
      destruct (handle e r1) as [r2 returns] eqn:Hh.
      destruct (handle_status _ _ _ _ Hh) as [Hst Hret].
      destruct (handle_keeps _ _ _ _ Hh) as (_ & Hkeep & _).
      destruct returns.
      - simpl. split; [lia|]. left. unfold crash_end.
        repeat split; [exact (Hret eq_refl)|congruence|assumption|assumption].
      - destruct (before_retry_counts retry sv1) as [E1 E2].
        destruct (before_retry_same max_retries retry sv1) as [_ E3].
        apply Hnext; try congruence.
        rewrite (Hkeep eq_refl). exact Hc. }
    cbn [attempts].
    destruct (goto (world (clock sv))) as [code| |e].
    + destruct (response_ok code).
      * destruct (work (world (clock sv))) as [t s h|t s e].
        -- simpl. split; [lia|]. right. left. unfold success_end. simpl.
           repeat split; try reflexivity. exact Hr.
        -- apply Hraised; try reflexivity. exact Hr.
      * apply Hnext; try reflexivity. exact Hr.
    + apply Hnext; try reflexivity. exact Hr.
    + apply Hraised; try reflexivity. exact Hr.
Qed.

(** X12: what one call of [capture_page] costs and how it ends.  It calls
    [page.goto] at most [max_retries + 1] times, does not touch the stored
    results, and ends in one of three ways: the browser is taken for crashed,
    the result is still "pending" and no counter moves; or the status is
    "success" and [success_count] alone grows by one; or the status is
    "failed", [failed_count] alone grows by one, and all [max_retries + 1]
    calls were made.  With a negative [max_retries] the URL is recorded as
    failed without any call. *)
Theorem capture_page_account (record : url_record) (sv : service) :
  let r := fst (capture_page max_retries world record sv) in
  let sv' := snd (capture_page max_retries world record sv) in
  clock sv' <= clock sv + Z.to_nat (max_retries + 1) /\
  results sv' = results sv /\
  url r = rec_url record /\
  ((browser_crashed r = true /\ status r = "pending" /\
    success_count sv' = success_count sv /\
    failed_count sv' = failed_count sv) \/
   (browser_crashed r = false /\ status r = "success" /\
    success_count sv' = S (success_count sv) /\
    failed_count sv' = failed_count sv) \/
   (browser_crashed r = false /\ status r = "failed" /\
    success_count sv' = success_count sv /\
    failed_count sv' = S (failed_count sv) /\
    clock sv' = clock sv + Z.to_nat (max_retries + 1))) /\
  ((max_retries < 0)%Z -> status r = "failed" /\ clock sv' = clock sv).
Proof.
  cbn zeta.
  destruct (capture_page max_retries world record sv) as [r sv'] eqn:Hc.
  destruct (capture_page_inv _ _ _ _ _ _ Hc) as (Hu & Hres & _ & _).
  unfold capture_page in Hc.
  match type of Hc with
  | attempts _ _ _ _ _ ?r0 _ = _ =>
      pose proof (attempts_account (rec_url record)
                    (Z.to_nat (max_retries + 1)) 0 r0 sv eq_refl) as Hacc
  end.
  cbn zeta in Hacc. rewrite Hc in Hacc. simpl in Hacc. simpl.
  destruct Hacc as [Hle Hend].
  split; [exact Hle|]. split; [exact Hres|]. split; [exact Hu|]. split.
  - exact Hend.
  - intros Hneg. replace (Z.to_nat (max_retries + 1)) with 0 in Hc by lia.
    simpl in Hc. inversion Hc; subst. split; reflexivity.
Qed.

(** The counters agree with the stored results. *)
Definition is_success (r : result) : bool := String.eqb (status r) "success".
Definition is_failed (r : result) : bool := String.eqb (status r) "failed".

Definition accounted (sv : service) : Prop :=
  success_count sv = length (List.filter is_success (results sv)) /\
  failed_count sv = length (List.filter is_failed (results sv)) /\
  success_count sv + failed_count sv = length (results sv) /\
  List.Forall (fun r => browser_crashed r = false) (results sv).

Lemma statuses_exclusive r : is_success r && is_failed r = false.
Proof.
  unfold is_success, is_failed.
  destruct (String.eqb (status r) "success") eqn:Es; [|reflexivity].
  apply String.eqb_eq in Es. rewrite Es. reflexivity.
Qed.

Lemma statuses_bound (l : list result) :
  length (List.filter is_success l) + length (List.filter is_failed l)
  <= length l.
Proof.
  induction l as [|r l IH]; [simpl; lia|]. cbn [List.filter].
  pose proof (statuses_exclusive r) as He.
  destruct (is_success r), (is_failed r); cbn [length andb] in *;
    try discriminate; lia.
Qed.

Lemma statuses_counted (l : list result) :
  length (List.filter is_success l) + length (List.filter is_failed l)
    = length l ->
  List.Forall (fun r => status r = "success" \/ status r = "failed") l.
Proof.
  induction l as [|r l IH]; intros Hl; [constructor|].
  pose proof (statuses_bound l) as Hb. cbn [List.filter] in Hl.
  destruct (is_success r) eqn:Es; [|destruct (is_failed r) eqn:Ef].
  - constructor; [left; apply String.eqb_eq; exact Es|].
    pose proof (statuses_exclusive r) as He. rewrite Es in He.
    apply IH. destruct (is_failed r); [discriminate|].
    cbn [length] in Hl. lia.
  - constructor; [right; apply String.eqb_eq; exact Ef|].
    apply IH. cbn [length] in Hl. lia.
  - cbn [length] in Hl. lia.
Qed.

Lemma accounted_log sv evs : accounted sv -> accounted (log sv evs).
Proof. intros H. exact H. Qed.

Lemma accounted_keep i total r sv0 sv :
  accounted sv0 -> results sv = results sv0 ->
  (success_end r sv0 sv \/ failed_end (Z.to_nat (max_retries + 1)) r sv0 sv) ->
  accounted (keep_result i total r sv).
Proof.
  intros (H1 & H2 & H3 & H4) Hres Hend.
  assert (Hk : accounted
    {| results := results sv ++ [r]; success_count := success_count sv;
       failed_count := failed_count sv; clock := clock sv;
       trace := trace sv |}).
  { unfold accounted. simpl. rewrite Hres.
    rewrite !List.filter_app, !length_app. cbn [List.filter].
    unfold is_success at 2. unfold is_failed at 2.
    destruct Hend as [(Hc & Hs & Hsc & Hfc)|(Hc & Hs & Hsc & Hfc & _)];
      rewrite Hs, Hsc, Hfc; simpl;
      (split; [lia|]; split; [lia|]; split; [lia|]);
      (apply Forall_app; split; [exact H4|constructor; [exact Hc|constructor]]). }
  unfold keep_result.
  destruct (S i mod 20 =? 0)%nat, (i <? total - 1)%nat;
    repeat apply accounted_log; exact Hk.
Qed.

Lemma run_loop_accounted records : forall fuel i sv sv',
  accounted sv ->
  run_loop max_retries world fuel records i sv = Some sv' -> accounted sv'.
Proof.
  induction fuel as [|fuel IH]; intros i sv sv' Hacc H; cbn [run_loop] in H;
    [discriminate|].
  destruct (records !! i) as [record|]; [|inversion H; subst; exact Hacc].
  pose proof (capture_page_account record sv) as Hcap. cbn zeta in Hcap.
  destruct (capture_page max_retries world record sv) as [r sv1].
  simpl in Hcap. destruct Hcap as (_ & Hres & _ & Hend & _).
  destruct (browser_crashed r) eqn:Hcr.
  - apply IH in H; [exact H|]. apply accounted_log.
    destruct Hend as [(_ & _ & Hsc & Hfc)|[(Hc & _)|(Hc & _)]];
      try discriminate.
    destruct Hacc as (H1 & H2 & H3 & H4). unfold accounted.
    rewrite Hres, Hsc, Hfc. auto.
  - apply IH in H; [exact H|].
    apply (accounted_keep i (length records) r sv sv1 Hacc Hres).
    destruct Hend as [(Hc & _)|[Hs|Hf]]; [discriminate|left|right].
    + unfold success_end. rewrite Hcr. exact Hs.
    + unfold failed_end. rewrite Hcr. exact Hf.
Qed.

End CaptureAccount.

Section RunAccount.
Variable max_retries : Z.
Variable world : nat -> attempt.
Variable first_visit : goto_result.
Variable page : nat -> string * string.
Variable operator : ChallengeGate.operator.

(** X13: the statistics [run] returns add up.  Whenever [run] ends, the
    success and failure counters are the numbers of stored results with
    status "success" and "failed", their sum is the number of input records,
    every stored result has one of these two statuses (none is left pending
    or flagged as a crash), and the last thing done is to save exactly these
    results. *)
Theorem run_statistics_add_up (fuel : nat) (input : capturer_input)
    (sv : service) :
  run max_retries world first_visit page operator fuel input = Some sv ->
  success_count sv = length (List.filter is_success (results sv)) /\
  failed_count sv = length (List.filter is_failed (results sv)) /\
  success_count sv + failed_count sv = length (load_input_urls input) /\
  List.Forall (fun r => browser_crashed r = false /\
                        (status r = "success" \/ status r = "failed"))
    (results sv) /\
  (load_input_urls input <> [] ->
   exists before, trace sv = before ++ [SaveResults (results sv)]).
Proof.
  intros Hrun.
  pose proof (run_results _ _ _ _ _ _ _ _ Hrun) as Hmap.
  assert (Hlen : length (results sv) = length (load_input_urls input)).
  { rewrite <- (length_map url), Hmap, length_map. reflexivity. }
  assert (Hacc : accounted sv /\
    (load_input_urls input <> [] ->
     exists before, trace sv = before ++ [SaveResults (results sv)])).
  { unfold run in Hrun.
    destruct (load_input_urls input) as [|first rest].
    - inversion Hrun; subst. split; [|congruence].
      unfold accounted. simpl. repeat split. constructor.
    - destruct (run_loop max_retries world fuel (first :: rest) 0 _)
        as [sv1|] eqn:Hl; [|discriminate].
      inversion Hrun; subst. split.
      + apply accounted_log.
        eapply run_loop_accounted; [|exact Hl].
        unfold accounted.
        rewrite (proj1 (first_contact_same _ _ _ _ _)).
        unfold first_contact. destruct first_visit; simpl;
          repeat split; constructor.
      + intros _. exists (trace sv1). reflexivity. }
  destruct Hacc as ((H1 & H2 & H3 & H4) & Hlast).
  split; [exact H1|]. split; [exact H2|]. split; [lia|]. split; [|exact Hlast].
  pose proof statuses_counted as Hall.
  rewrite H1, H2 in H3. specialize (Hall _ H3).
  apply List.Forall_forall. intros r Hin. split.
  - exact (proj1 (List.Forall_forall _ _) H4 r Hin).
  - exact (proj1 (List.Forall_forall _ _) Hall r Hin).
Qed.

End RunAccount.

Lemma run_statistics_witness :
  exists sv,
    run 3 slow_start (Response 200) quiet_page (ChallengeGate.Enter "") 4
      (JsonlFile [Some {| rec_url := "https://papers.nips.cc/a";
                          rec_title := "A" |};
                  None;
                  Some {| rec_url := "https://papers.nips.cc/b";
                          rec_title := "B" |}]) = Some sv /\
    success_count sv = 2 /\ failed_count sv = 0 /\
    success_count sv + failed_count sv = 2.
Proof.
  eexists. split; [vm_compute; reflexivity|].
  match goal with
  | |- success_count ?s = _ /\ _ =>
      pose proof (run_statistics_add_up 3 slow_start (Response 200) quiet_page
                    (ChallengeGate.Enter "") 4
                    (JsonlFile [Some {| rec_url := "https://papers.nips.cc/a";
                                        rec_title := "A" |};
                                None;
                                Some {| rec_url := "https://papers.nips.cc/b";
                                        rec_title := "B" |}]) s
                    ltac:(vm_compute; reflexivity)) as (H1 & H2 & H3 & _)
  end.
  split; [exact H1|]. split; [exact H2|]. exact H3.
Defined.

(** *** The clips of a long page *)

(** Lines 389-447 of [capture_page], for a page higher than
    [max_screenshot_height]: the clip of each segment, its [y] and its
    [height]. *)
Definition screenshot_clips (page_height max_screenshot_height : Z)
  : list (Z * Z) :=
  let segment_height := max_screenshot_height in
  let num_segments := ((page_height + segment_height - 1) / segment_height)%Z in
  let max_segments := 20%Z in
  let num_segments :=
    if (num_segments >? max_segments)%Z then max_segments else num_segments in
  map (fun seg_idx : nat =>
         let y_offset := (Z.of_nat seg_idx * segment_height)%Z in
         (y_offset, Z.min segment_height (page_height - y_offset)))
      (seq 0 (Z.to_nat num_segments)).

Definition heights (clips : list (Z * Z)) : Z :=
  fold_right Z.add 0%Z (map snd clips).

Lemma heights_app a b : heights (a ++ b) = (heights a + heights b)%Z.
Proof.
  unfold heights. induction a as [|x a IH]; simpl; [reflexivity|].
  rewrite IH. lia.
Qed.

Lemma heights_full (f : nat -> Z * Z) (c : Z) : forall m start,
  (forall i, start <= i < start + m -> snd (f i) = c) ->
  heights (map f (seq start m)) = (Z.of_nat m * c)%Z.
Proof.
  induction m as [|m IH]; intros start H; [reflexivity|].
  cbn [seq map]. unfold heights in *. cbn [map fold_right].
  rewrite (IH (S start)) by (intros i Hi; apply H; lia).
  rewrite (H start) by lia. lia.
Qed.

(** X14: the segments of a long page tile it from the top.  For a positive
    segment height and a page higher than it, there are between 2 and 20
    clips; the i-th starts at i times the segment height, each starts where
    the one before ends, every height is positive and at most the segment
    height, and no clip reaches below the page.  Together they cover the
    page when it is at most 20 segments high, and only its first 20
    segments otherwise. *)
Theorem screenshot_clips_tile (page_height segment_height : Z) :
  (0 < segment_height)%Z -> (segment_height < page_height)%Z ->
  let clips := screenshot_clips page_height segment_height in
  2 <= length clips <= 20 /\
  (forall i y h, clips !! i = Some (y, h) ->
     y = (Z.of_nat i * segment_height)%Z /\
     (0 < h <= segment_height)%Z /\ (y + h <= page_height)%Z) /\
  (forall i y h y' h',
     clips !! i = Some (y, h) -> clips !! S i = Some (y', h') ->
     y' = (y + h)%Z) /\
  heights clips = Z.min page_height (20 * segment_height).
Proof.
  intros Hseg Hpage. cbn zeta. unfold screenshot_clips. cbn zeta.
  set (n := ((page_height + segment_height - 1) / segment_height)%Z).
  assert (Hlow : (segment_height * n <= page_height + segment_height - 1)%Z)
    by (apply Z.mul_div_le; lia).
  assert (Hhigh : (page_height + segment_height - 1
                   < segment_height * Z.succ n)%Z)
    by (apply Z.mul_succ_div_gt; lia).
  assert (Hn2 : (2 <= n)%Z) by nia.
  set (m := if (n >? 20)%Z then 20%Z else n).
  assert (Hm : (2 <= m <= 20)%Z /\ (m <= n)%Z /\ (m = n \/ (m = 20 /\ 20 < n))%Z).
  { subst m. destruct (n >? 20)%Z eqn:E; lia. }
  clearbody m. destruct Hm as (Hm & Hmn & Hcase).
  set (f := fun seg_idx : nat =>
              ((Z.of_nat seg_idx * segment_height)%Z,
               Z.min segment_height
                 (page_height - Z.of_nat seg_idx * segment_height))).
  assert (Hlook : forall i y h, map f (seq 0 (Z.to_nat m)) !! i = Some (y, h) ->
            i < Z.to_nat m /\ (y, h) = f i).
  { intros i y h Hi. rewrite list_lookup_fmap in Hi.
    destruct (seq 0 (Z.to_nat m) !! i) as [j|] eqn:Hj; [|discriminate].
    apply lookup_seq in Hj as [-> Hlt]. simpl in Hi. inversion Hi. auto. }
  split; [rewrite length_map, length_seq; lia|]. split; [|split].
  - intros i y h Hi. apply Hlook in Hi as [Hlt E]. unfold f in E.
    inversion E; subst. split; [reflexivity|]. nia.
  - intros i y h y' h' Hi Hi'. apply Hlook in Hi as [Hlt E].
    apply Hlook in Hi' as [Hlt' E']. unfold f in E, E'.
    inversion E; inversion E'; subst. nia.
  - destruct (Z.to_nat m) as [|k] eqn:Hk; [lia|].
    rewrite seq_S, map_app, heights_app. simpl seq.
    rewrite (heights_full f segment_height).
    + unfold heights, f. simpl. nia.
    + intros i Hi. unfold f. simpl. nia.
Qed.

Lemma screenshot_clips_witness :
  (0 < 30000)%Z /\ (30000 < 70000)%Z /\
  screenshot_clips 70000 30000 = [(0, 30000); (30000, 30000); (60000, 10000)]%Z /\
  heights (screenshot_clips 70000 30000) = Z.min 70000 (20 * 30000).
Proof.
  split; [lia|]. split; [lia|]. split; [reflexivity|].
  exact (proj2 (proj2 (proj2 (screenshot_clips_tile 70000 30000
                                ltac:(lia) ltac:(lia))))).
Defined.

(** *** The records read from the input file *)

(** The value of the URL field of a record, as far as the loader tells
    values apart: a string; a value that is false in a test and is no string
    (null, false, zero, an empty list or mapping); a number or [true] that
    is not zero, with [key] naming its class under Python's equality; a
    list or a mapping that is not empty, which cannot be hashed.  A record
    without the field has the empty string. *)
Inductive field_value :=
| FString (s : string)
| FFalsy
| FNumber (key : N)
| FCompound.

(** A line of the input file, as the JSONL branch of [load_input_urls]
    goes through it. *)
Inductive input_line :=
| BlankLine                 (* nothing left after strip(): not parsed *)
| NotJsonLine               (* json.JSONDecodeError: skipped *)
| OtherJsonLine             (* JSON, but no object: [record.get] raises *)
| UnreadableLine            (* reading or parsing raises another error *)
| ObjectLine (url : field_value) (page_title : string).

(** What [seen_urls] holds for a line that is kept. *)
Definition line_key (line : input_line) : option (string + N) :=
  match line with
  | ObjectLine (FString s) _ => if truthy s then Some (inl s) else None
  | ObjectLine (FNumber key) _ => Some (inr key)
  | _ => None
  end.

(** The line makes the loader raise: AttributeError on what is no object,
    TypeError on a URL that cannot be hashed, or the error of the read. *)
Definition line_raises (line : input_line) : bool :=
  match line with
  | OtherJsonLine | UnreadableLine | ObjectLine FCompound _ => true
  | _ => false
  end.

(** The loop over the lines; the records are the lines kept, and [None] is
    an exception that leaves [load_input_urls]. *)
Fixpoint load_lines (lines : list input_line) (seen_urls : gset (string + N))
  : option (list input_line) :=
  match lines with
  | [] => Some []
  | line :: rest =>
      if line_raises line then None
      else
        match line_key line with
        | Some url =>
            if bool_decide (url ∉ seen_urls)
            then option_map (cons line)
                   (load_lines rest ({[ url ]} ∪ seen_urls))
            else load_lines rest seen_urls
        | None => load_lines rest seen_urls
        end
  end.

(** [load_input_urls] on a JSONL file. *)
Definition load_jsonl (lines : list input_line) : option (list input_line) :=
  load_lines lines ∅.

Lemma truthy_spec s : truthy s = true <-> s <> "".
Proof. destruct s; simpl; split; congruence. Qed.

Lemma load_lines_none lines : forall seen,
  load_lines lines seen = None <->
  exists line, In line lines /\ line_raises line = true.
Proof.
  induction lines as [|line lines IH]; intros seen; cbn [load_lines].
  - split; [discriminate|]. intros (line & [] & _).
  - destruct (line_raises line) eqn:Hr.
    + split; [|reflexivity]. intros _. exists line. split; [left|]; auto.
    + assert (Hrest : forall seen',
                load_lines lines seen' = None <->
                exists l, In l (line :: lines) /\ line_raises l = true).
      { intros seen'. rewrite IH. split.
        - intros (l & Hin & Hl). exists l. split; [right; exact Hin|exact Hl].
        - intros (l & [<-|Hin] & Hl); [congruence|]. exists l. auto. }
      destruct (line_key line) as [url|]; [|apply Hrest].
      destruct (bool_decide (url ∉ seen)); [|apply Hrest].
      rewrite <- Hrest with (seen' := {[url]} ∪ seen).
      destruct (load_lines lines ({[url]} ∪ seen)); simpl; split;
        congruence.
Qed.

Lemma load_lines_kept lines : forall seen records,
  load_lines lines seen = Some records ->
  sublist records lines /\
  NoDup (map line_key records) /\
  (forall line, In line records ->
     exists url, line_key line = Some url /\ url ∉ seen) /\
  (forall url, url ∉ seen ->
     (exists line, In line lines /\ line_key line = Some url) ->
     exists line, In line records /\ line_key line = Some url) /\
  (forall pre line post url,
     lines = pre ++ line :: post -> line_key line = Some url -> url ∉ seen ->
     (forall earlier, In earlier pre -> line_key earlier <> Some url) ->
     In line records).
Proof.
  induction lines as [|line lines IH]; intros seen records H;
    cbn [load_lines] in H.
  - inversion H; subst. split; [constructor|]. split; [constructor|].
    split; [intros l []|]. split; [intros url _ (l & [] & _)|].
    intros pre l post url E. destruct pre; discriminate.
  - destruct (line_raises line) eqn:Hr; [discriminate|].
    destruct (line_key line) as [url0|] eqn:Hk.
    + destruct (bool_decide (url0 ∉ seen)) eqn:Hs.
      * apply bool_decide_eq_true in Hs.
        destruct (load_lines lines ({[url0]} ∪ seen)) as [kept|] eqn:Hl;
          [|discriminate].
        simpl in H. inversion H; subst; clear H.
        destruct (IH _ _ Hl) as (I1 & I2 & I3 & I4 & I5).
        split; [apply sublist_skip, I1|]. split.
        { cbn [map]. apply NoDup_cons. split; [|exact I2].
          intros Hin. apply list_elem_of_In, in_map_iff in Hin
            as (l & El & Hl').
          destruct (I3 l Hl') as (u & Eu & Hu). rewrite Hk in El.
          rewrite Eu in El. inversion El; subst. set_solver. }
        split.
        { intros l [<-|Hin]; [exists url0; auto|].
          destruct (I3 l Hin) as (u & Eu & Hu). exists u.
          split; [exact Eu|set_solver]. }
        split.
        { intros url Hu (l & Hin & El).
          destruct (decide (url = url0)) as [->|Hne].
          - exists line. split; [left; reflexivity|exact Hk].
          - destruct Hin as [<-|Hin]; [congruence|].
            destruct (I4 url ltac:(set_solver) (ex_intro _ l (conj Hin El)))
              as (l' & Hin' & El').
            exists l'. split; [right; exact Hin'|exact El']. }
        { intros pre l post url E El Hu Hpre.
          destruct pre as [|p pre]; simpl in E; inversion E; subst; clear E;
            [left; reflexivity|].
          right. apply (I5 pre l post url eq_refl El).
          - assert (line_key p <> Some url) by (apply Hpre; left; reflexivity).
            assert (url <> url0) by congruence. set_solver.
          - intros earlier Hin. apply Hpre. right. exact Hin. }
      * apply bool_decide_eq_false in Hs.
        assert (Hs' : url0 ∈ seen)
          by (destruct (decide (url0 ∈ seen)); [assumption|contradiction]).
        destruct (IH _ _ H) as (I1 & I2 & I3 & I4 & I5).
        split; [apply sublist_cons, I1|]. split; [exact I2|].
        split; [exact I3|]. split.
        { intros url Hu (l & Hin & El). apply I4; [exact Hu|].
          destruct Hin as [<-|Hin]; [|exists l; auto].
          rewrite Hk in El. inversion El; subst. contradiction. }
        { intros pre l post url E El Hu Hpre.
          destruct pre as [|p pre]; simpl in E; inversion E; subst; clear E.
          - rewrite Hk in El. inversion El; subst. contradiction.
          - apply (I5 pre l post url eq_refl El Hu).
            intros earlier Hin. apply Hpre. right. exact Hin. }
    + destruct (IH _ _ H) as (I1 & I2 & I3 & I4 & I5).
      split; [apply sublist_cons, I1|]. split; [exact I2|].
      split; [exact I3|]. split.
      { intros url Hu (l & Hin & El). apply I4; [exact Hu|].
        destruct Hin as [<-|Hin]; [congruence|exists l; auto]. }
      { intros pre l post url E El Hu Hpre.
        destruct pre as [|p pre]; simpl in E; inversion E; subst; clear E;
          [congruence|].
        apply (I5 pre l post url eq_refl El Hu).
        intros earlier Hin. apply Hpre. right. exact Hin. }
Qed.

(** The lines of [load_records] as lines of the file: a record with a
    string for its URL, or a line that is skipped. *)
Definition as_line (line : option url_record) : input_line :=
  match line with
  | Some record => ObjectLine (FString (rec_url record)) (rec_title record)
  | None => NotJsonLine
  end.

(** On such lines the loader never raises and keeps the records that
    [load_records] keeps. *)
Lemma load_lines_records lines : forall seen,
  load_lines (map as_line lines) (set_map inl seen)
  = Some (map (fun record => as_line (Some record)) (load_records lines seen)).
Proof.
  induction lines as [|[record|] lines IH]; intros seen;
    cbn [map load_lines load_records as_line line_raises line_key];
    [reflexivity| |apply IH].
  destruct (truthy (rec_url record)) eqn:Ht; cbn [andb]; [|apply IH].
  assert (Hin : (inl (rec_url record) : string + N) ∈
                  (set_map inl seen : gset (string + N))
                <-> rec_url record ∈ seen).
  { rewrite elem_of_map. split.
    - intros (s & E & Hs). inversion E; subst. exact Hs.
    - intros Hs. exists (rec_url record). auto. }
  destruct (bool_decide (rec_url record ∉ seen)) eqn:Hs.
  - apply bool_decide_eq_true in Hs.
    rewrite bool_decide_eq_true_2 by (rewrite Hin; exact Hs).
    replace ({[inl (rec_url record)]} ∪ set_map inl seen
               : gset (string + N))
      with (set_map inl ({[rec_url record]} ∪ seen) : gset (string + N))
      by (rewrite set_map_union_L, set_map_singleton_L; reflexivity).
    rewrite IH. reflexivity.
  - apply bool_decide_eq_false in Hs.
    rewrite bool_decide_eq_false_2 by (rewrite Hin; exact Hs).
    apply IH.
Qed.

(** X23: which records the capturer works on.  From a JSONL input the
    loader either raises, and then the pass has no records at all, or keeps
    lines of the file in their order.  It raises exactly when some line is
    JSON without being an object, or is an object whose URL is a list or a
    mapping that is not empty, or cannot be read.  Otherwise it keeps one
    line for each distinct URL that counts as true (a string that is not
    empty, a number that is not zero), namely the first line that has it:
    the blank lines, the lines that are not JSON, the records without URL
    or with one that counts as false, and the repetitions are dropped, and
    nothing else is. *)
Theorem load_input_urls_keeps_first_lines (lines : list input_line) :
  (load_jsonl lines = None <->
   exists line, In line lines /\
     (line = OtherJsonLine \/ line = UnreadableLine \/
      exists page_title, line = ObjectLine FCompound page_title)) /\
  (forall records, load_jsonl lines = Some records ->
     sublist records lines /\
     NoDup (map line_key records) /\
     (forall line, In line records -> line_key line <> None) /\
     (forall url,
        (exists line, In line records /\ line_key line = Some url) <->
        (exists line, In line lines /\ line_key line = Some url)) /\
     (forall pre line post url,
        lines = pre ++ line :: post -> line_key line = Some url ->
        (forall earlier, In earlier pre -> line_key earlier <> Some url) ->
        In line records)).
Proof.
  unfold load_jsonl. split.
  - rewrite load_lines_none. split; intros (line & Hin & H); exists line;
      (split; [exact Hin|]).
    + destruct line as [| | | |[s| |k|] t]; try discriminate; eauto.
    + destruct H as [->|[->|(t & ->)]]; reflexivity.
  - intros records H.
    destruct (load_lines_kept _ _ _ H) as (K1 & K2 & K3 & K4 & K5).
    split; [exact K1|]. split; [exact K2|]. split; [|split].
    + intros line Hin. destruct (K3 line Hin) as (url & -> & _). discriminate.
    + intros url. split.
      * intros (line & Hin & E). exists line. split; [|exact E].
        apply list_elem_of_In. eapply elem_of_sublist; [|exact K1].
        apply list_elem_of_In. exact Hin.
      * apply K4. set_solver.
    + intros pre line post url E El Hpre.
      apply (K5 pre line post url E El); [set_solver|exact Hpre].
Qed.

(** A file with a repeated URL, a blank line and a record without URL. *)
Definition sample_input : list input_line :=
  [ObjectLine (FString "https://papers.nips.cc/a") "A";
   BlankLine;
   ObjectLine (FString "") "no url";
   ObjectLine (FString "https://papers.nips.cc/a") "A again";
   NotJsonLine;
   ObjectLine (FString "https://papers.nips.cc/b") "B"].

Example sample_input_loaded :
  load_jsonl sample_input
  = Some [ObjectLine (FString "https://papers.nips.cc/a") "A";
          ObjectLine (FString "https://papers.nips.cc/b") "B"].
Proof. vm_compute. reflexivity. Qed.

(** One line that holds a list stops the whole load. *)
Example list_line_stops_load :
  load_jsonl (sample_input ++ [OtherJsonLine]) = None.
Proof. vm_compute. reflexivity. Qed.

Lemma load_input_witness :
  load_jsonl sample_input
  = Some [ObjectLine (FString "https://papers.nips.cc/a") "A";
          ObjectLine (FString "https://papers.nips.cc/b") "B"] /\
  NoDup (map line_key
           [ObjectLine (FString "https://papers.nips.cc/a") "A";
            ObjectLine (FString "https://papers.nips.cc/b") "B"]).
Proof.
  split; [exact sample_input_loaded|].
  exact (proj1 (proj2 (proj2 (load_input_urls_keeps_first_lines sample_input)
                         _ sample_input_loaded))).
Defined.
End PageCapturer.

(* ===================================================================== *)
(** ** The PDF downloader of [downloader_pdf.py] *)
(* ===================================================================== *)

Module PdfDownloader.
Import PyStr.

Fixpoint drop_chars (n : nat) (s : string) : string :=
  match n, s with
  | S n', String _ s' => drop_chars n' s'
  | _, _ => s
  end.

(** [s.replace(old, new, 1)] *)
Fixpoint replace_first (old new s : string) : string :=
  if String.prefix old s then new +:+ drop_chars (String.length old) s
  else match s with
       | EmptyString => EmptyString
       | String c s' => String c (replace_first old new s')
       end.

(** [a / b] on paths, for a relative [b]. *)
Definition path_join (a b : string) : string := a +:+ "/" +:+ b.

(** The fields of [DownloaderConfig] that matter here.  [max_retries] and
    [retry_delay] are loaded from the file like the others. *)
Record downloader_config := {
  download_dir : string;
  max_concurrent : Z;
  max_retries : Z;
  retry_delay : Z }.

(** An input record: [record.get("matched_url", "")] and
    [record.get("page_title", "")]. *)
Record url_record := { matched_url : string; source_title : string }.

(** [page.goto(pdf_url, wait_until="load", ...)] and what is read from the
    response: the status, the content type, and the body unless reading it
    raises. *)
Inductive goto_result :=
| Response (status : nat) (content_type : string) (body : option string)
| NoResponse
| GotoRaises.

Record result := {
  title : string;
  year : string;
  pdf_url : string;
  local_path : string;
  status : string }.

Inductive event :=
| Goto (url : string)
| WriteFile (path : string)
| Sleep                                  (* asyncio.sleep(request_delay) *)
| Gate (e : ChallengeGate.event)
| SaveResults (rows : list result).

Record service := {
  results : list result;
  files : gset string;       (* the paths that exist under download_dir *)
  clock : nat;               (* calls of page.goto made for the records *)
  trace : list event }.

Definition log (sv : service) (evs : list event) : service :=
  {| results := results sv; files := files sv; clock := clock sv;
     trace := trace sv ++ evs |}.

Section Download.
Variable config : downloader_config.
(** [re.search(r'10\.\d+/(\d+\.\d+)', pdf_url)] with its group 1;
    [FilenameProcessor.extract_from_url], [None] when it raises; the year
    found in the title by [re.search(r'(\d{4})\s+(CHI|...)', ...)]. *)
Variable doi_search : string -> option string.
Variable extract_from_url : string -> option string.
Variable year_search : string -> option string.
(** The answer to the n-th [page.goto] made for the records. *)
Variable world : nat -> goto_result.

Definition make_pdf_url (url : string) : string :=
  if str_in "dl.acm.org/doi/" url && negb (str_in "/doi/pdf/" url)
  then replace_first "/doi/" "/doi/pdf/" url else url.

Definition make_filename (pdf_url : string) : option string :=
  match doi_search pdf_url with
  | Some doi => Some (doi +:+ ".pdf")
  | None => extract_from_url pdf_url
  end.

(** [source_title or "Untitled"] *)
Definition or_untitled (source_title : string) : string :=
  if truthy source_title then source_title else "Untitled".

(** [PDFDownloaderService.download_pdf_with_browser]; [None] is the [return
    None] of the outer handler. *)
Definition download_pdf_with_browser (record : url_record) (sv : service)
  : option result * service :=
  let pdf := make_pdf_url (matched_url record) in
  match make_filename pdf with
  | None => (None, sv)
  | Some filename =>
      let y := default "2025" (year_search (source_title record)) in
      let save_dir := path_join (download_dir config) y in
      let save_path := path_join save_dir filename in
      let answer (path st : string) :=
        {| title := or_untitled (source_title record); year := y;
           pdf_url := pdf; local_path := path; status := st |} in
      if bool_decide (save_path ∈ files sv) then
        (Some (answer save_path "exists"), sv)
      else
        let sv1 := {| results := results sv; files := files sv;
                      clock := S (clock sv);
                      trace := trace sv ++ [Goto pdf] |} in
        match world (clock sv) with
        | Response code content_type (Some body) =>
            if PageCapturer.response_ok code
               && (str_in "pdf" content_type
                   || (truthy body && startswith "%PDF" body))
            then (Some (answer save_path "downloaded"),
                  {| results := results sv1;
                     files := {[ save_path ]} ∪ files sv1;
                     clock := clock sv1;
                     trace := trace sv1 ++ [WriteFile save_path] |})
            else (Some (answer "" "failed"), sv1)
        | _ => (Some (answer "" "failed"), sv1)
        end
  end.

(** The loop [for i, record in enumerate(records)] of [run]. *)
Fixpoint run_loop (records : list url_record) (i : nat) (sv : service)
  : service :=
  match records with
  | [] => sv
  | record :: rest =>
      let '(r, sv1) := download_pdf_with_browser record sv in
      let sv2 :=
        match r with
        | Some r => {| results := results sv1 ++ [r]; files := files sv1;
                       clock := clock sv1; trace := trace sv1 |}
        | None => sv1
        end in
      let sv3 :=
        if (S i mod 50 =? 0)%nat
        then log sv2 [SaveResults (results sv2)] else sv2 in
      run_loop rest (S i) (log sv3 [Sleep])
  end.

(** The first visit before the loop, with the gate behind it; an exception
    in it is logged and dropped. *)
Variable first_visit : goto_result.
Variable page : nat -> string * string.
Variable operator : ChallengeGate.operator.

Definition first_contact (init_url : string) (sv : service) : service :=
  let sv1 := log sv [Goto init_url] in
  match first_visit with
  | GotoRaises => sv1
  | _ => log sv1 (map Gate (fst (ChallengeGate.downloader_handle_cloudflare
                                   page 3 operator)))
  end.

(** [PDFDownloaderService.run] on the records read from the input file, up
    to the statistics it returns. *)
Definition run (records : list url_record) (sv : service) : service :=
  match records with
  | [] => sv
  | first :: _ =>
      let sv1 := run_loop records 0 (first_contact (matched_url first) sv) in
      log sv1 [SaveResults (results sv1)]
  end.

End Download.

Definition goto_count (tr : list event) : nat :=
  length (List.filter (fun e => match e with Goto _ => true | _ => false end) tr).

Lemma goto_count_app tr1 tr2 :
  goto_count (tr1 ++ tr2) = goto_count tr1 + goto_count tr2.
Proof. unfold goto_count. rewrite List.filter_app, length_app. reflexivity. Qed.

(** Whatever [max_retries] says, one call of [download_pdf_with_browser]
    calls [page.goto] at most once. *)
Lemma download_goes_once config doi_search extract_from_url year_search world
    record sv :
  let sv' := snd (download_pdf_with_browser config doi_search extract_from_url
                    year_search world record sv) in
  goto_count (trace sv') <= goto_count (trace sv) + 1.
Proof.
  unfold download_pdf_with_browser.
  destruct (make_filename _ _ _) as [filename|]; simpl; [|lia].
  destruct (bool_decide _); simpl; [lia|].
  destruct (world (clock sv)) as [code ct [body|]| |]; simpl;
    try (rewrite goto_count_app; unfold goto_count; simpl; lia).
  destruct (_ && _); simpl; rewrite ?goto_count_app; unfold goto_count;
    simpl; lia.
Qed.



(** *** Files and results *)

(** The paths written, in order. *)
Fixpoint written (tr : list event) : list string :=
  match tr with
  | [] => []
  | WriteFile p :: rest => p :: written rest
  | _ :: rest => written rest
  end.

Lemma written_app tr1 tr2 : written (tr1 ++ tr2) = written tr1 ++ written tr2.
Proof.
  induction tr1 as [|e tr1 IH]; [reflexivity|].
  destruct e; simpl; rewrite IH; reflexivity.
Qed.

Lemma written_gate evs : written (map Gate evs) = [].
Proof. induction evs as [|e evs IH]; [reflexivity|exact IH]. Qed.

Lemma goto_count_gate evs : goto_count (map Gate evs) = 0.
Proof. induction evs as [|e evs IH]; [reflexivity|exact IH]. Qed.

(** A result agrees with the disk: what it reports as downloaded or as
    existing is there, and a failure names no file. *)
Definition on_disk (fs : gset string) (r : result) : Prop :=
  ((status r = "downloaded" \/ status r = "exists") /\ local_path r ∈ fs) \/
  (status r = "failed" /\ local_path r = "").

Lemma on_disk_mono fs fs' r : fs ⊆ fs' -> on_disk fs r -> on_disk fs' r.
Proof. intros Hsub [[Hs Hp]|H]; [left; split; [exact Hs|set_solver]|right; exact H]. Qed.

(** What a stretch of the run did: it only appended [new] to the trace, it
    wrote each file once and only files that were not there, these are all
    the files that are new, and it called [page.goto] at most [budget]
    times. *)
Definition stretch (budget : nat) (sv sv' : service) : Prop :=
  files sv ⊆ files sv' /\
  (List.Forall (on_disk (files sv)) (results sv) ->
   List.Forall (on_disk (files sv')) (results sv')) /\
  exists new,
    trace sv' = trace sv ++ new /\
    NoDup (written new) /\
    (forall p, In p (written new) <-> p ∈ files sv' /\ p ∉ files sv) /\
    goto_count new <= budget.

Lemma stretch_refl sv : stretch 0 sv sv.
Proof.
  split; [set_solver|]. split; [auto|]. exists []. rewrite app_nil_r.
  split; [reflexivity|]. split; [constructor|]. split; [|unfold goto_count; simpl; lia].
  intros p. simpl. split; [intros []|]. intros [H1 H2]. contradiction.
Qed.

Lemma stretch_weaken a b sv sv' : a <= b -> stretch a sv sv' -> stretch b sv sv'.
Proof.
  intros Hab (S1 & R1 & n1 & T1 & N1 & W1 & G1).
  split; [exact S1|]. split; [exact R1|]. exists n1.
  split; [exact T1|]. split; [exact N1|]. split; [exact W1|lia].
Qed.

Lemma stretch_trans a b sv1 sv2 sv3 :
  stretch a sv1 sv2 -> stretch b sv2 sv3 -> stretch (a + b) sv1 sv3.
Proof.
  intros (S1 & R1 & n1 & T1 & N1 & W1 & G1) (S2 & R2 & n2 & T2 & N2 & W2 & G2).
  split; [set_solver|]. split; [auto|].
  exists (n1 ++ n2). split; [rewrite T2, T1, app_assoc; reflexivity|].
  rewrite written_app, goto_count_app. split; [|split; [|lia]].
  - apply NoDup_app. split; [exact N1|]. split; [|exact N2].
    intros p Hp Hp'. apply list_elem_of_In, W1 in Hp.
    apply list_elem_of_In, W2 in Hp'. tauto.
  - intros p. rewrite in_app_iff, W1, W2. split.
    + intros [[H1 H2]|[H1 H2]]; split; set_solver.
    + intros [H1 H2]. destruct (decide (p ∈ files sv2)); [left|right]; tauto.
Qed.

Lemma stretch_quiet budget sv sv' evs :
  files sv' = files sv -> results sv' = results sv ->
  trace sv' = trace sv ++ evs -> written evs = [] ->
  goto_count evs <= budget ->
  stretch budget sv sv'.
Proof.
  intros Hf Hr Ht Hw Hg. split; [rewrite Hf; set_solver|].
  split; [rewrite Hf, Hr; auto|]. exists evs. split; [exact Ht|].
  rewrite Hw. split; [constructor|]. split; [|exact Hg].
  intros p. rewrite Hf. simpl. split; [intros []|tauto].
Qed.

Lemma goto_count_first_visit u evs : goto_count (Goto u :: map Gate evs) = 1.
Proof.
  change (Goto u :: map Gate evs) with ([Goto u] ++ map Gate evs).
  rewrite goto_count_app, goto_count_gate. reflexivity.
Qed.

Section DownloadFacts.
Variable config : downloader_config.
Variable doi_search : string -> option string.
Variable extract_from_url : string -> option string.
Variable year_search : string -> option string.
Variable world : nat -> goto_result.

(** One record: the call and the append of its result. *)
Lemma download_stretch record sv :
  let out := download_pdf_with_browser config doi_search extract_from_url
               year_search world record sv in
  let sv2 :=
    match fst out with
    | Some r => {| results := results (snd out) ++ [r];
                   files := files (snd out); clock := clock (snd out);
                   trace := trace (snd out) |}
    | None => snd out
    end in
  stretch 1 sv sv2.
Proof.
  cbn zeta. unfold download_pdf_with_browser.
  destruct (make_filename _ _ _) as [filename|]; cbn [fst snd];
    [|apply (stretch_weaken 0 1); [lia|apply stretch_refl]].
  set (save_path := path_join _ filename).
  destruct (bool_decide (save_path ∈ files sv)) eqn:Hex; cbn [fst snd].
  - apply bool_decide_eq_true in Hex.
    split; [set_solver|]. split.
    + intros H. simpl. apply Forall_app. split; [exact H|].
      constructor; [|constructor]. left. split; [right; reflexivity|exact Hex].
    + exists []. simpl. rewrite app_nil_r. split; [reflexivity|].
      split; [constructor|]. split; [|unfold goto_count; simpl; lia].
      intros p. split; [intros []|tauto].
  - apply bool_decide_eq_false in Hex.
    assert (Hfail : forall r,
      status r = "failed" -> local_path r = "" ->
      stretch 1 sv
        {| results := results sv ++ [r]; files := files sv;
           clock := S (clock sv);
           trace := trace sv ++ [Goto (make_pdf_url (matched_url record))] |}).
    { intros r Hs Hp. split; [set_solver|]. split.
      - intros H. simpl. apply Forall_app. split; [exact H|].
        constructor; [|constructor]. right. split; assumption.
      - eexists. split; [reflexivity|]. simpl.
        split; [constructor|]. split; [|unfold goto_count; simpl; lia].
        intros p. split; [intros []|tauto]. }
    destruct (world (clock sv)) as [code ct [body|]| |]; cbn [fst snd];
      try (apply Hfail; reflexivity).
    destruct (_ && _); cbn [fst snd]; [|apply Hfail; reflexivity].
    split; [simpl; set_solver|]. split.
    + intros H. simpl. apply Forall_app. split.
      * eapply List.Forall_impl; [|exact H].
        intros r. apply on_disk_mono. set_solver.
      * constructor; [|constructor]. left. split; [left; reflexivity|].
        simpl. set_solver.
    + exists [Goto (make_pdf_url (matched_url record)); WriteFile save_path].
      simpl. rewrite <- app_assoc. split; [reflexivity|].
      split; [apply NoDup_singleton|].
      split; [|unfold goto_count; simpl; lia].
      intros p. split.
      * intros [<-|[]]. split; [set_solver|exact Hex].
      * intros [H1 H2]. left. set_solver.
Qed.

Lemma run_loop_stretch : forall records i sv,
  stretch (length records) sv
    (run_loop config doi_search extract_from_url year_search world records i sv).
Proof.
  induction records as [|record rest IH]; intros i sv; [apply stretch_refl|].
  cbn [run_loop length].
  pose proof (download_stretch record sv) as Hd. cbn zeta in Hd.
  destruct (download_pdf_with_browser config doi_search extract_from_url
              year_search world record sv) as [r sv1].
  cbn [fst snd] in Hd.
  set (sv2 := match r with
              | Some r0 => {| results := results sv1 ++ [r0];
                              files := files sv1; clock := clock sv1;
                              trace := trace sv1 |}
              | None => sv1
              end) in *.
  set (sv3 := if (S i mod 50 =? 0)%nat
              then log sv2 [SaveResults (results sv2)] else sv2).
  assert (H3 : stretch 0 sv2 (log sv3 [Sleep])).
  { subst sv3. destruct (S i mod 50 =? 0)%nat.
    - apply (stretch_quiet 0 sv2 _ [SaveResults (results sv2); Sleep]);
        try reflexivity. simpl. rewrite <- app_assoc. reflexivity.
    - apply (stretch_quiet 0 sv2 _ [Sleep]); reflexivity. }
  change (S (length rest)) with (1 + length rest).
  eapply stretch_trans; [|apply IH].
  change 1 with (1 + 0). eapply stretch_trans; [exact Hd|exact H3].
Qed.

(** X16: a file once there is not fetched again.  When a record has been
    answered with "downloaded" or "exists", then in every later state that
    still has the files, the same record is answered with "exists" for the
    same path, without any call of [page.goto] and without a write: the
    state is left as it is. *)
Theorem stored_file_is_not_fetched_again (record : url_record)
    (sv sv1 sv2 : service) (r : result) :
  download_pdf_with_browser config doi_search extract_from_url year_search
    world record sv = (Some r, sv1) ->
  status r = "downloaded" \/ status r = "exists" ->
  files sv1 ⊆ files sv2 ->
  download_pdf_with_browser config doi_search extract_from_url year_search
    world record sv2
  = (Some {| title := title r; year := year r; pdf_url := pdf_url r;
             local_path := local_path r; status := "exists" |}, sv2).
Proof.
  unfold download_pdf_with_browser.
  destruct (make_filename _ _ _) as [filename|]; [|discriminate].
  set (save_path := path_join _ filename).
  intros H Hs Hsub.
  assert (Hr : local_path r = save_path /\ save_path ∈ files sv1 /\
               title r = or_untitled (source_title record) /\
               year r = default "2025" (year_search (source_title record)) /\
               pdf_url r = make_pdf_url (matched_url record)).
  { destruct (bool_decide (save_path ∈ files sv)) eqn:Hex.
    - apply bool_decide_eq_true in Hex. inversion H; subst. simpl. auto.
    - destruct (world (clock sv)) as [code ct [body|]| |];
        try (inversion H; subst; simpl in Hs; destruct Hs; discriminate).
      destruct (_ && _);
        [|inversion H; subst; simpl in Hs; destruct Hs; discriminate].
      inversion H; subst. simpl. repeat split. set_solver. }
  destruct Hr as (Hp & Hin & Ht & Hy & Hu).
  rewrite bool_decide_eq_true_2 by set_solver.
  rewrite Ht, Hy, Hu, Hp. reflexivity.
Qed.

Variable first_visit : goto_result.
Variable page : nat -> string * string.
Variable operator : ChallengeGate.operator.

(** X15: a run of the downloader never overwrites and never loses a file,
    and its results agree with the disk.  Whatever the world answers, the
    run only adds files; it writes each path at most once and only paths
    that did not exist, and these are all the new files; every result it
    appends reports "downloaded" or "exists" for a file that is there, or
    "failed" with an empty path; and it calls [page.goto] at most once per
    record after the first visit, whatever [max_retries] is. *)
Theorem run_only_adds_files (records : list url_record) (sv : service) :
  let sv' := run config doi_search extract_from_url year_search world
               first_visit page operator records sv in
  files sv ⊆ files sv' /\
  (List.Forall (on_disk (files sv)) (results sv) ->
   List.Forall (on_disk (files sv')) (results sv')) /\
  exists new,
    trace sv' = trace sv ++ new /\
    NoDup (written new) /\
    (forall p, In p (written new) <-> p ∈ files sv' /\ p ∉ files sv) /\
    goto_count new <= 1 + length records.
Proof.
  cbn zeta. unfold run. destruct records as [|first rest].
  - destruct (stretch_refl sv) as (H1 & H2 & new & H3 & H4 & H5 & H6).
    split; [exact H1|]. split; [exact H2|]. exists new.
    split; [exact H3|]. split; [exact H4|]. split; [exact H5|lia].
  - assert (H0 : stretch 1 sv
               (first_contact first_visit page operator (matched_url first) sv)).
    { unfold first_contact. destruct first_visit.
      - apply (stretch_quiet 1 sv _
                 (Goto (matched_url first)
                  :: map Gate (fst (ChallengeGate.downloader_handle_cloudflare
                                      page 3 operator)))); try reflexivity.
        + simpl. rewrite <- app_assoc. reflexivity.
        + simpl. apply written_gate.
        + rewrite goto_count_first_visit. lia.
      - apply (stretch_quiet 1 sv _
                 (Goto (matched_url first)
                  :: map Gate (fst (ChallengeGate.downloader_handle_cloudflare
                                      page 3 operator)))); try reflexivity.
        + simpl. rewrite <- app_assoc. reflexivity.
        + simpl. apply written_gate.
        + rewrite goto_count_first_visit. lia.
      - apply (stretch_quiet 1 sv _ [Goto (matched_url first)]); reflexivity. }
    pose proof (run_loop_stretch (first :: rest) 0
                  (first_contact first_visit page operator (matched_url first) sv))
      as H1.
    set (sv1 := run_loop config doi_search extract_from_url year_search world
                  (first :: rest) 0 _) in *.
    assert (H2 : stretch 0 sv1 (log sv1 [SaveResults (results sv1)])).
    { apply (stretch_quiet 0 sv1 _ [SaveResults (results sv1)]); reflexivity. }
    pose proof (stretch_trans _ _ _ _ _ (stretch_trans _ _ _ _ _ H0 H1) H2) as H.
    destruct H as (Ha & Hb & new & Hc & Hd & He & Hf).
    split; [exact Ha|]. split; [exact Hb|]. exists new.
    split; [exact Hc|]. split; [exact Hd|]. split; [exact He|].
    simpl in Hf. simpl. lia.
Qed.

End DownloadFacts.

(** *** The PDF address *)

Lemma replace_first_eq old new s :
  replace_first old new s
  = if startswith old s then new +:+ drop_chars (String.length old) s
    else match s with
         | EmptyString => EmptyString
         | String c s' => String c (replace_first old new s')
         end.
Proof. destruct s; reflexivity. Qed.

Lemma replace_first_puts old new s :
  str_in old s = true -> str_in new (replace_first old new s) = true.
Proof.
  induction s as [|c s IH]; intros H; rewrite replace_first_eq.
  - rewrite str_in_nil in H. rewrite H.
    apply str_in_spec. exists "", (drop_chars (String.length old) "").
    reflexivity.
  - rewrite str_in_cons in H.
    destruct (startswith old (String c s)) eqn:Hp.
    + apply str_in_spec.
      exists "", (drop_chars (String.length old) (String c s)). reflexivity.
    + simpl in H. rewrite str_in_cons. rewrite (IH H). apply orb_true_r.
Qed.

Lemma app_string_assoc (a b c : string) : (a +:+ b) +:+ c = a +:+ (b +:+ c).
Proof.
  induction a as [|x a IH]; [reflexivity|].
  rewrite !append_cons, IH. reflexivity.
Qed.

Lemma acm_doi_has_doi url :
  str_in "dl.acm.org/doi/" url = true -> str_in "/doi/" url = true.
Proof.
  intros H. apply str_in_spec in H as (pre & post & ->).
  apply str_in_spec. exists (pre +:+ "dl.acm.org"), post.
  rewrite app_string_assoc. reflexivity.
Qed.

(** X17: the address of the PDF.  For an ACM address of a paper
    ("dl.acm.org/doi/") the address fetched has "/doi/pdf/" in it; and
    applying the construction to its own result changes nothing, so an
    address taken from an earlier result is fetched as it is. *)
Theorem make_pdf_url_settles (url : string) :
  (str_in "dl.acm.org/doi/" url = true ->
   str_in "/doi/pdf/" (make_pdf_url url) = true) /\
  make_pdf_url (make_pdf_url url) = make_pdf_url url.
Proof.
  assert (Hput : str_in "dl.acm.org/doi/" url = true ->
                 str_in "/doi/pdf/" url = false ->
                 str_in "/doi/pdf/" (replace_first "/doi/" "/doi/pdf/" url)
                 = true).
  { intros H _. apply replace_first_puts, acm_doi_has_doi, H. }
  unfold make_pdf_url at 1 3 4.
  destruct (str_in "dl.acm.org/doi/" url) eqn:Hacm;
    destruct (str_in "/doi/pdf/" url) eqn:Hpdf; cbn [andb negb].
  - split; [intros _; exact Hpdf|].
    unfold make_pdf_url. rewrite Hacm, Hpdf. reflexivity.
  - split; [intros _; exact (Hput eq_refl eq_refl)|].
    unfold make_pdf_url. rewrite (Hput eq_refl eq_refl), andb_false_r.
    reflexivity.
  - split; [discriminate|]. unfold make_pdf_url. rewrite Hacm. reflexivity.
  - split; [discriminate|]. unfold make_pdf_url. rewrite Hacm. reflexivity.
Qed.

(** A paper of CHI 2024, answered with a PDF. *)
Definition sample_config : downloader_config :=
  {| download_dir := "downloads"; max_concurrent := 5; max_retries := 3;
     retry_delay := 10 |}.

Definition sample_record : url_record :=
  {| matched_url := "https://dl.acm.org/doi/10.1145/3613904.3642114";
     source_title := "" |}.

Definition sample_doi (pdf_url : string) : option string :=
  Some "3613904.3642114".

Definition sample_world (n : nat) : goto_result :=
  Response 200 "application/pdf" (Some "%PDF-1.7").

Definition empty_service : service :=
  {| results := []; files := ∅; clock := 0; trace := [] |}.

Definition sample_result (st : string) : result :=
  {| title := "Untitled"; year := "2025";
     pdf_url := "https://dl.acm.org/doi/pdf/10.1145/3613904.3642114";
     local_path := "downloads/2025/3613904.3642114.pdf"; status := st |}.

Lemma stored_file_witness :
  let first := download_pdf_with_browser sample_config sample_doi
                 (fun _ => None) (fun _ => None) sample_world sample_record
                 empty_service in
  fst first = Some (sample_result "downloaded") /\
  download_pdf_with_browser sample_config sample_doi (fun _ => None)
    (fun _ => None) sample_world sample_record (snd first)
  = (Some (sample_result "exists"), snd first).
Proof.
  cbn zeta.
  destruct (download_pdf_with_browser sample_config sample_doi
              (fun _ => None) (fun _ => None) sample_world sample_record
              empty_service) as [r sv1] eqn:E.
  assert (Hr : r = Some (sample_result "downloaded")).
  { vm_compute in E. inversion E. reflexivity. }
  subst r. split; [reflexivity|].
  refine (stored_file_is_not_fetched_again sample_config sample_doi
            (fun _ => None) (fun _ => None) sample_world sample_record
            empty_service sv1 sv1 (sample_result "downloaded") E _ _).
  - left. reflexivity.
  - set_solver.
Defined.

(** *** The addresses fetched in a pass *)




Section Pass.
Variable config : downloader_config.
Variable doi_search : string -> option string.
Variable extract_from_url : string -> option string.
Variable year_search : string -> option string.
Variable world : nat -> goto_result.



Variable first_visit : goto_result.
Variable page : nat -> string * string.
Variable operator : ChallengeGate.operator.


End Pass.
End PdfDownloader.

(* ===================================================================== *)
(** ** What a response with an HTTP error status leads to *)
(* ===================================================================== *)

Module FetchPolicy.
Import PyStr.






End FetchPolicy.

(* ===================================================================== *)
(** ** The downloads of [craw_paper/download_pdf.py] *)
(* ===================================================================== *)

Module DownloadPdf.
Import PyStr.

(** Lines 119-125: the absolute URL of a link found on the page [url];
    [None] when [urljoin] raises. *)
Definition absolute_link (urljoin : string -> string -> option string)
    (url link : string) : option string :=
  if startswith "http://" link || startswith "https://" link
  then Some link else urljoin url link.

(** Where a download task is: before [async with semaphore] lets it in,
    inside it, or past it. *)
Inductive phase := Waiting | Downloading | Done.

(** The semaphore ([_value]) and the tasks handed to [asyncio.gather], one
    per link. *)
Record gather_state := {
  permits : nat;
  tasks : list (string * phase) }.

(** [semaphore = asyncio.Semaphore(max_concurrent)] and the list of tasks;
    [None] for the [ValueError] of a negative initial value. *)
Definition start (max_concurrent : Z) (absolute_pdf_links : list string)
  : option gather_state :=
  if (max_concurrent <? 0)%Z then None
  else Some {| permits := Z.to_nat max_concurrent;
               tasks := map (fun u => (u, Waiting)) absolute_pdf_links |}.

(** What the event loop can do next: let a waiting task through a semaphore
    that has a permit left, or have a task leave the [async with] block,
    which gives its permit back. *)
Inductive step : gather_state -> gather_state -> Prop :=
| Acquire (s : gather_state) (i : nat) (u : string) :
    tasks s !! i = Some (u, Waiting) ->
    0 < permits s ->
    step s {| permits := permits s - 1;
              tasks := <[ i := (u, Downloading) ]> (tasks s) |}
| Release (s : gather_state) (i : nat) (u : string) :
    tasks s !! i = Some (u, Downloading) ->
    step s {| permits := S (permits s);
              tasks := <[ i := (u, Done) ]> (tasks s) |}.

Definition is_downloading (t : string * phase) : bool :=
  match snd t with Downloading => true | _ => false end.

(** The downloads in flight. *)
Definition in_flight (s : gather_state) : nat :=
  length (List.filter is_downloading (tasks s)).

(** The executable side of [Acquire] and [Release], to run schedules. *)
Definition acquire (i : nat) (s : gather_state) : option gather_state :=
  match tasks s !! i with
  | Some (u, Waiting) =>
      if (0 <? permits s)%nat
      then Some {| permits := permits s - 1;
                   tasks := <[ i := (u, Downloading) ]> (tasks s) |}
      else None
  | _ => None
  end.

Definition release (i : nat) (s : gather_state) : option gather_state :=
  match tasks s !! i with
  | Some (u, Downloading) =>
      Some {| permits := S (permits s);
              tasks := <[ i := (u, Done) ]> (tasks s) |}
  | _ => None
  end.

(** *** Resolution of links *)

Lemma absolute_link_with_scheme urljoin url link :
  startswith "http://" link = true \/ startswith "https://" link = true ->
  absolute_link urljoin url link = Some link.
Proof.
  unfold absolute_link. intros [->| ->]; [reflexivity|].
  rewrite orb_true_r. reflexivity.
Qed.

Lemma absolute_link_without_scheme urljoin url link :
  startswith "http://" link = false -> startswith "https://" link = false ->
  absolute_link urljoin url link = urljoin url link.
Proof. unfold absolute_link. intros -> ->. reflexivity. Qed.

(** C8 at an input where [verify_config.py] leaves the rule: the relative
    link "http_files/paper.pdf" has no http or https scheme and does not
    start with "/", so the rule resolves it against the source page.  Line
    105 of [verify_config.py] tests [link.startswith('http')] and keeps the
    link as it is; lines 122-125 of [download_pdf.py] test for "http://" and
    "https://" and resolve it. *)
Theorem http_prefixed_link_is_not_resolved
    (urljoin : string -> string -> option string)
    (base_url source_url : string) :
  startswith "http://" "http_files/paper.pdf" = false /\
  startswith "https://" "http_files/paper.pdf" = false /\
  startswith "/" "http_files/paper.pdf" = false /\
  LevelChain.resolve urljoin base_url source_url "http_files/paper.pdf"
    = Some "http_files/paper.pdf" /\
  absolute_link urljoin source_url "http_files/paper.pdf"
    = urljoin source_url "http_files/paper.pdf".
Proof. repeat split. Qed.

(** *** The bound *)

Lemma count_insert (l : list (string * phase)) i old new :
  l !! i = Some old ->
  length (List.filter is_downloading (<[ i := new ]> l))
    + (if is_downloading old then 1 else 0)
  = length (List.filter is_downloading l)
    + (if is_downloading new then 1 else 0).
Proof.
  revert i. induction l as [|x l IH]; intros i Hi; [discriminate|].
  destruct i as [|i]; simpl in *.
  - inversion Hi; subst.
    destruct (is_downloading old), (is_downloading new); simpl; lia.
  - specialize (IH i Hi). destruct (is_downloading x); simpl; lia.
Qed.

Lemma step_balance s s' :
  step s s' -> permits s' + in_flight s' = permits s + in_flight s.
Proof.
  intros [s0 i u Hi Hp|s0 i u Hi]; unfold in_flight; simpl.
  - pose proof (count_insert _ _ _ (u, Downloading) Hi) as H. simpl in H. lia.
  - pose proof (count_insert _ _ _ (u, Done) Hi) as H. simpl in H. lia.
Qed.

Lemma start_balance max_concurrent links s0 :
  start max_concurrent links = Some s0 ->
  Z.of_nat (permits s0 + in_flight s0) = max_concurrent.
Proof.
  unfold start. destruct (max_concurrent <? 0)%Z eqn:Hneg; [discriminate|].
  intros H; inversion H; subst; clear H. unfold in_flight; simpl.
  apply Z.ltb_ge in Hneg.
  assert (Hz : length (List.filter is_downloading
                 (map (fun u : string => (u, Waiting)) links)) = 0).
  { induction links as [|u links IH]; simpl; [reflexivity|exact IH]. }
  rewrite Hz. lia.
Qed.

Lemma reach_balance s0 s :
  rtc step s0 s -> permits s + in_flight s = permits s0 + in_flight s0.
Proof.
  induction 1 as [s|s1 s2 s3 Hstep _ IH]; [reflexivity|].
  rewrite IH. exact (step_balance _ _ Hstep).
Qed.

(** C9: in every state the event loop can reach from the start of
    [asyncio.gather], the downloads in flight are at most [max_concurrent],
    however many links there are. *)
Theorem in_flight_bounded (max_concurrent : Z) (links : list string)
    (s0 s : gather_state) :
  start max_concurrent links = Some s0 ->
  rtc step s0 s ->
  (Z.of_nat (in_flight s) <= max_concurrent)%Z.
Proof.
  intros Hstart Hreach.
  pose proof (start_balance _ _ _ Hstart) as H0.
  pose proof (reach_balance _ _ Hreach) as H1. lia.
Qed.

(** The steps of the executable side are steps of the relation. *)
Lemma acquire_step i s s' : acquire i s = Some s' -> step s s'.
Proof.
  unfold acquire. destruct (tasks s !! i) as [[u [| |]]|] eqn:Hi;
    try discriminate.
  destruct (0 <? permits s)%nat eqn:Hp; [|discriminate].
  intros H; inversion H; subst. apply Acquire; [exact Hi|].
  apply Nat.ltb_lt. exact Hp.
Qed.

Lemma release_step i s s' : release i s = Some s' -> step s s'.
Proof.
  unfold release. destruct (tasks s !! i) as [[u [| |]]|] eqn:Hi;
    try discriminate.
  intros H; inversion H; subst. apply Release. exact Hi.
Qed.

(** A schedule: which task the event loop lets in or out next. *)
Inductive move := Enters (i : nat) | Leaves (i : nat).

Fixpoint play (moves : list move) (s : gather_state) : option gather_state :=
  match moves with
  | [] => Some s
  | m :: rest =>
      match (match m with Enters i => acquire i s | Leaves i => release i s end)
      with
      | Some s' => play rest s'
      | None => None
      end
  end.

Lemma play_reach moves : forall s s', play moves s = Some s' -> rtc step s s'.
Proof.
  induction moves as [|m moves IH]; intros s s' H; simpl in H.
  - inversion H; subst. apply rtc_refl.
  - destruct m as [i|i].
    + destruct (acquire i s) as [s1|] eqn:E; [|discriminate].
      eapply rtc_l; [exact (acquire_step _ _ _ E)|exact (IH _ _ H)].
    + destruct (release i s) as [s1|] eqn:E; [|discriminate].
      eapply rtc_l; [exact (release_step _ _ _ E)|exact (IH _ _ H)].
Qed.

(** Twenty links and five permits. *)
Definition twenty_links : list string :=
  map (fun n => "https://papers.nips.cc/" +:+ show_Z (Z.of_nat n) +:+ ".pdf")
      (seq 0 20).

Definition twenty_start : gather_state :=
  {| permits := 5; tasks := map (fun u => (u, Waiting)) twenty_links |}.

(** The first five tasks are let in one after the other. *)
Definition five_in : option gather_state :=
  play [Enters 0; Enters 1; Enters 2; Enters 3; Enters 4] twenty_start.

Example five_in_flight : option_map in_flight five_in = Some 5.
Proof. vm_compute. reflexivity. Qed.

(** With five in flight the sixth task cannot get in, until one leaves. *)
Example sixth_waits :
  play [Enters 0; Enters 1; Enters 2; Enters 3; Enters 4; Enters 5]
    twenty_start = None.
Proof. vm_compute. reflexivity. Qed.

Example sixth_after_release :
  option_map in_flight
    (play [Enters 0; Enters 1; Enters 2; Enters 3; Enters 4; Leaves 2; Enters 5]
       twenty_start) = Some 5.
Proof. vm_compute. reflexivity. Qed.

Lemma five_in_reachable :
  exists s, five_in = Some s /\ rtc step twenty_start s.
Proof.
  destruct five_in as [s|] eqn:E; [|vm_compute in E; discriminate].
  exists s. split; [reflexivity|]. exact (play_reach _ _ _ E).
Qed.

Lemma in_flight_witness :
  start 5 twenty_links = Some twenty_start /\
  exists s, five_in = Some s /\ rtc step twenty_start s /\
            (Z.of_nat (in_flight s) <= 5)%Z.
Proof.
  assert (H0 : start 5 twenty_links = Some twenty_start) by reflexivity.
  split; [exact H0|].
  destruct five_in_reachable as (s & Hs & Hreach).
  exists s. split; [exact Hs|]. split; [exact Hreach|].
  exact (in_flight_bounded 5 twenty_links twenty_start s H0 Hreach).
Defined.


(** *** Every download gets its turn *)

Definition is_waiting (t : string * phase) : bool :=
  match snd t with Waiting => true | _ => false end.

Definition is_done (t : string * phase) : bool :=
  match snd t with Done => true | _ => false end.

Definition waiting (s : gather_state) : nat :=
  length (List.filter is_waiting (tasks s)).

(** What is left to do: a waiting task has two steps before it, a task
    that downloads has one. *)
Definition remaining (s : gather_state) : nat := 2 * waiting s + in_flight s.

Lemma count_insert_any (f : string * phase -> bool) (l : list (string * phase))
    i old new :
  l !! i = Some old ->
  length (List.filter f (<[ i := new ]> l)) + (if f old then 1 else 0)
  = length (List.filter f l) + (if f new then 1 else 0).
Proof.
  revert i. induction l as [|x l IH]; intros i Hi; [discriminate|].
  destruct i as [|i]; simpl in *.
  - inversion Hi; subst. destruct (f old), (f new); simpl; lia.
  - specialize (IH i Hi). destruct (f x); simpl; lia.
Qed.

Lemma step_remaining s s' : step s s' -> remaining s = S (remaining s').
Proof.
  intros [s0 i u Hi Hp|s0 i u Hi]; unfold remaining, waiting, in_flight; simpl.
  - pose proof (count_insert_any is_waiting _ _ _ (u, Downloading) Hi) as H1.
    pose proof (count_insert_any is_downloading _ _ _ (u, Downloading) Hi) as H2.
    simpl in H1, H2. lia.
  - pose proof (count_insert_any is_waiting _ _ _ (u, Done) Hi) as H1.
    pose proof (count_insert_any is_downloading _ _ _ (u, Done) Hi) as H2.
    simpl in H1, H2. lia.
Qed.

Lemma start_remaining max_concurrent links s0 :
  start max_concurrent links = Some s0 ->
  remaining s0 = 2 * length links /\ in_flight s0 = 0.
Proof.
  unfold start. destruct (max_concurrent <? 0)%Z; [discriminate|].
  intros H; inversion H; subst; clear H.
  unfold remaining, waiting, in_flight; simpl.
  induction links as [|u links IH]; simpl in *; [split; reflexivity|lia].
Qed.

Lemma filter_found {A} (f : A -> bool) (l : list A) :
  0 < length (List.filter f l) -> exists i x, l !! i = Some x /\ f x = true.
Proof.
  induction l as [|x l IH]; simpl; [lia|].
  destruct (f x) eqn:Hx.
  - intros _. exists 0, x. split; [reflexivity|exact Hx].
  - intros H. destruct (IH H) as (i & y & Hi & Hy). exists (S i), y.
    split; assumption.
Qed.

Lemma all_done (l : list (string * phase)) :
  length (List.filter is_waiting l) = 0 ->
  length (List.filter is_downloading l) = 0 ->
  List.Forall (fun t => snd t = Done) l.
Proof.
  induction l as [|[u p] l IH]; [constructor|].
  destruct p; simpl; intros H1 H2; try discriminate.
  constructor; [reflexivity|exact (IH H1 H2)].
Qed.

(** X18: the semaphore lets every download through.  From the start of
    [asyncio.gather] with [max_concurrent] at least 1, a state reached after
    [k] steps of the event loop has [k] at most twice the number of links,
    and in it either every task is done or the event loop has a next step:
    no schedule blocks and none runs for ever.  With [max_concurrent] 0 no
    step is possible at all, so with a link to download the gather never
    returns. *)
Theorem every_download_gets_through (max_concurrent : Z)
    (links : list string) (s0 s : gather_state) (k : nat) :
  start max_concurrent links = Some s0 ->
  nsteps step k s0 s ->
  k + remaining s = 2 * length links /\
  ((1 <= max_concurrent)%Z ->
   List.Forall (fun t => snd t = Done) (tasks s) \/ exists s', step s s') /\
  (max_concurrent = 0%Z -> k = 0 /\ forall s', ~ step s s').
Proof.
  intros Hstart Hsteps.
  destruct (start_remaining _ _ _ Hstart) as [Hrem0 Hfly0].
  pose proof (start_balance _ _ _ Hstart) as Hbal0.
  assert (Hrem : k + remaining s = remaining s0).
  { clear -Hsteps. induction Hsteps as [s|n s1 s2 s3 Hstep _ IH]; [reflexivity|].
    rewrite (step_remaining _ _ Hstep). lia. }
  assert (Hbal : permits s + in_flight s = permits s0 + in_flight s0).
  { apply reach_balance. eapply rtc_nsteps_2. exact Hsteps. }
  split; [lia|]. split.
  - intros Hmc.
    destruct (Nat.eq_dec (in_flight s) 0) as [Hnone|Hsome].
    + destruct (Nat.eq_dec (waiting s) 0) as [Hw|Hw].
      * left. apply all_done; assumption.
      * right. destruct (filter_found is_waiting (tasks s)) as (i & [u p] & Hi & Hp);
          [unfold waiting in Hw; lia|].
        destruct p; try discriminate.
        eexists. apply (Acquire s i u Hi). lia.
    + right. destruct (filter_found is_downloading (tasks s))
        as (i & [u p] & Hi & Hp); [unfold in_flight in Hsome; lia|].
      destruct p; try discriminate.
      eexists. apply (Release s i u Hi).
  - intros Hzero.
    assert (Hstuck : forall t, permits t = 0 -> in_flight t = 0 ->
                       forall t', ~ step t t').
    { intros t Hp Hf t' Hstep. inversion Hstep as [t0 i u Hi Hpos|t0 i u Hi]; subst.
      - lia.
      - pose proof (count_insert_any is_downloading _ _ _ (u, Done) Hi) as H.
        unfold in_flight in Hf. simpl in H. lia. }
    assert (Hk : k = 0).
    { destruct Hsteps as [s|n s1 s2 s3 Hstep _]; [reflexivity|].
      exfalso. apply (Hstuck s1 ltac:(lia) Hfly0 _ Hstep). }
    split; [exact Hk|]. subst k. inversion Hsteps; subst.
    apply Hstuck; [lia|exact Hfly0].
Qed.

Lemma every_download_witness :
  start 5 twenty_links = Some twenty_start /\
  exists s, nsteps step 2 twenty_start s /\
            2 + remaining s = 2 * length twenty_links.
Proof.
  assert (H0 : start 5 twenty_links = Some twenty_start) by reflexivity.
  split; [exact H0|].
  destruct (acquire 0 twenty_start) as [s1|] eqn:E1;
    [|vm_compute in E1; discriminate].
  destruct (release 0 s1) as [s2|] eqn:E2.
  2:{ vm_compute in E1. inversion E1; subst. vm_compute in E2. discriminate. }
  assert (Hsteps : nsteps step 2 twenty_start s2).
  { eapply nsteps_l; [exact (acquire_step _ _ _ E1)|].
    eapply nsteps_l; [exact (release_step _ _ _ E2)|]. apply nsteps_O. }
  exists s2. split; [exact Hsteps|].
  exact (proj1 (every_download_gets_through 5 twenty_links twenty_start s2 2
                  H0 Hsteps)).
Defined.

(** *** The two semaphores of [process_jsonl] *)

(** A URL of the JSONL file: before [async with semaphore] lets its crawl
    in, inside [crawl_and_download_pdfs] with the downloads of its links
    behind a semaphore of 10, or past it.  The links are those the page
    turns out to have. *)
Inductive crawl :=
| Queued (links : list string)
| Crawling (g : gather_state)
| Finished.

Record jsonl_state := {
  outer_permits : nat;
  crawls : list crawl }.

(** [semaphore = asyncio.Semaphore(max_concurrent)] and one task per URL. *)
Definition start_jsonl (max_concurrent : Z) (pages : list (list string))
  : option jsonl_state :=
  if (max_concurrent <? 0)%Z then None
  else Some {| outer_permits := Z.to_nat max_concurrent;
               crawls := map Queued pages |}.

(** The steps of the event loop: a crawl is let in and starts its gather
    with [max_concurrent=10]; a download of a crawl makes a step; a crawl
    whose gather has returned, every task done, leaves and gives its permit
    back. *)
Inductive jsonl_step : jsonl_state -> jsonl_state -> Prop :=
| Enter (s : jsonl_state) (i : nat) (links : list string) (g : gather_state) :
    crawls s !! i = Some (Queued links) ->
    0 < outer_permits s ->
    start 10 links = Some g ->
    jsonl_step s {| outer_permits := outer_permits s - 1;
                    crawls := <[ i := Crawling g ]> (crawls s) |}
| Inside (s : jsonl_state) (i : nat) (g g' : gather_state) :
    crawls s !! i = Some (Crawling g) ->
    step g g' ->
    jsonl_step s {| outer_permits := outer_permits s;
                    crawls := <[ i := Crawling g' ]> (crawls s) |}
| Leave (s : jsonl_state) (i : nat) (g : gather_state) :
    crawls s !! i = Some (Crawling g) ->
    List.Forall (fun t => snd t = Done) (tasks g) ->
    jsonl_step s {| outer_permits := S (outer_permits s);
                    crawls := <[ i := Finished ]> (crawls s) |}.

Definition is_crawling (c : crawl) : bool :=
  match c with Crawling _ => true | _ => false end.

(** The pages being crawled and the downloads in flight over all of them. *)
Definition crawling (s : jsonl_state) : nat :=
  length (List.filter is_crawling (crawls s)).

Definition flying (c : crawl) : nat :=
  match c with Crawling g => in_flight g | _ => 0 end.

Definition total_in_flight (s : jsonl_state) : nat :=
  list_sum (map flying (crawls s)).

Definition balanced (c : crawl) : Prop :=
  match c with Crawling g => permits g + in_flight g = 10 | _ => True end.

Lemma filter_insert_length {A} (f : A -> bool) (l : list A) i old new :
  l !! i = Some old ->
  length (List.filter f (<[ i := new ]> l)) + (if f old then 1 else 0)
  = length (List.filter f l) + (if f new then 1 else 0).
Proof.
  revert i. induction l as [|x l IH]; intros i Hi; [discriminate|].
  destruct i as [|i]; simpl in *.
  - inversion Hi; subst. destruct (f old), (f new); simpl; lia.
  - specialize (IH i Hi). destruct (f x); simpl; lia.
Qed.

Lemma Forall_insert_crawl (P : crawl -> Prop) (l : list crawl) i new :
  List.Forall P l -> P new -> List.Forall P (<[ i := new ]> l).
Proof.
  intros Hl Hnew. revert i. induction Hl as [|x l Hx Hl IH]; intros i.
  - constructor.
  - destruct i as [|i]; simpl; constructor; auto.
Qed.

Lemma flying_bound (l : list crawl) :
  List.Forall balanced l ->
  list_sum (map flying l) <= 10 * length (List.filter is_crawling l).
Proof.
  induction 1 as [|c l Hc Hl IH]; simpl; [lia|].
  destruct c as [links|g|]; simpl in *; lia.
Qed.

Lemma jsonl_step_inv s s' :
  jsonl_step s s' ->
  List.Forall balanced (crawls s) ->
  List.Forall balanced (crawls s') /\
  outer_permits s' + crawling s' = outer_permits s + crawling s.
Proof.
  intros [s0 i links g Hi Hp Hg|s0 i g g' Hi Hstep|s0 i g Hi Hdone] Hall;
    unfold crawling; simpl.
  - split.
    + apply Forall_insert_crawl; [exact Hall|]. simpl.
      pose proof (start_balance _ _ _ Hg) as Hb. lia.
    + pose proof (filter_insert_length is_crawling _ _ _ (Crawling g) Hi) as H.
      simpl in H. lia.
  - split.
    + apply Forall_insert_crawl; [exact Hall|]. simpl.
      pose proof (step_balance _ _ Hstep) as Hb.
      assert (Hg : balanced (Crawling g)).
      { apply (proj1 (List.Forall_forall _ _) Hall).
        apply list_elem_of_In. eapply list_elem_of_lookup_2. exact Hi. }
      simpl in Hg. lia.
    + pose proof (filter_insert_length is_crawling _ _ _ (Crawling g') Hi) as H.
      simpl in H. lia.
  - split.
    + apply Forall_insert_crawl; [exact Hall|exact I].
    + pose proof (filter_insert_length is_crawling _ _ _ Finished Hi) as H.
      simpl in H. lia.
Qed.

(** X24: how much runs at once under [process_jsonl].  In every state the
    event loop can reach, at most [max_concurrent] pages are being crawled,
    each with at most 10 downloads in flight, so at most 10 times
    [max_concurrent] downloads are in flight in all, however many URLs and
    links there are. *)
Theorem jsonl_in_flight_bounded (max_concurrent : Z)
    (pages : list (list string)) (s0 s : jsonl_state) :
  start_jsonl max_concurrent pages = Some s0 ->
  rtc jsonl_step s0 s ->
  (Z.of_nat (crawling s) <= max_concurrent)%Z /\
  List.Forall (fun c => flying c <= 10) (crawls s) /\
  (Z.of_nat (total_in_flight s) <= 10 * max_concurrent)%Z.
Proof.
  intros Hstart Hreach.
  assert (H0 : List.Forall balanced (crawls s0) /\
               Z.of_nat (outer_permits s0 + crawling s0) = max_concurrent).
  { unfold start_jsonl in Hstart.
    destruct (max_concurrent <? 0)%Z eqn:Hneg; [discriminate|].
    apply Z.ltb_ge in Hneg. inversion Hstart; subst; clear Hstart.
    unfold crawling; simpl. split.
    - clear. induction pages as [|p pages IH]; simpl; constructor;
        [exact I|exact IH].
    - assert (Hz : length (List.filter is_crawling (map Queued pages)) = 0)
        by (clear; induction pages as [|p pages IH]; simpl;
            [reflexivity|exact IH]).
      rewrite Hz. lia. }
  assert (H : List.Forall balanced (crawls s) /\
              outer_permits s + crawling s = outer_permits s0 + crawling s0).
  { destruct H0 as [Hb0 _]. clear Hstart.
    induction Hreach as [s|s1 s2 s3 Hstep _ IH]; [split; [exact Hb0|reflexivity]|].
    destruct (jsonl_step_inv _ _ Hstep Hb0) as [Hb2 Hc2].
    destruct (IH Hb2) as [Hb3 Hc3]. split; [exact Hb3|lia]. }
  destruct H0 as [_ Hmc]. destruct H as [Hb Hc].
  pose proof (flying_bound _ Hb) as Hf. fold (crawling s) in Hf.
  split; [lia|]. split; [|unfold total_in_flight; lia].
  eapply List.Forall_impl; [|exact Hb].
  intros [links|g|]; simpl; lia.
Qed.

Lemma jsonl_in_flight_witness :
  start_jsonl 20 [twenty_links; []]
  = Some {| outer_permits := 20; crawls := [Queued twenty_links; Queued []] |} /\
  exists s,
    rtc jsonl_step
      {| outer_permits := 20; crawls := [Queued twenty_links; Queued []] |} s /\
    crawling s = 1 /\ (Z.of_nat (total_in_flight s) <= 10 * 20)%Z.
Proof.
  assert (H0 : start_jsonl 20 [twenty_links; []]
               = Some {| outer_permits := 20;
                         crawls := [Queued twenty_links; Queued []] |})
    by reflexivity.
  split; [exact H0|].
  assert (Hstep : jsonl_step
            {| outer_permits := 20; crawls := [Queued twenty_links; Queued []] |}
            {| outer_permits := 19;
               crawls := [Crawling {| permits := 10;
                                      tasks := map (fun u => (u, Waiting))
                                                 twenty_links |};
                          Queued []] |}).
  { apply (Enter {| outer_permits := 20;
                    crawls := [Queued twenty_links; Queued []] |}
                 0 twenty_links); [reflexivity|simpl; lia|reflexivity]. }
  eexists. split; [apply rtc_once; exact Hstep|].
  split; [reflexivity|].
  exact (proj2 (proj2 (jsonl_in_flight_bounded 20 [twenty_links; []] _ _ H0
                         (rtc_once _ _ Hstep)))).
Defined.

(** *** [download_file] *)

(** [session.get(url, ...)] and what is read from the response; a body
    [None] is [response.read()] raising, after the file has been opened. *)
Inductive get_result :=
| Answer (status : nat) (body : option string)
| GetRaises.

Section DownloadFile.
(** [os.path.basename(urlparse(url).path)], the name made from [hash(url)],
    and [os.path.join]. *)
Variable basename : string -> string.
Variable hashed_name : string -> string.
Variable join : string -> string -> string.

Definition filepath_of (url save_path : string) (year : option string)
  : string :=
  let filename :=
    if truthy (basename url) then basename url else hashed_name url in
  match year with
  | Some y => if truthy y then join (join save_path y) filename
              else join save_path filename
  | None => join save_path filename
  end.

(** [download_file] on a disk that maps the paths that exist to their
    contents; the directories are taken to be creatable. *)
Definition download_file (url save_path : string) (year : option string)
    (answer : get_result) (disk : gmap string string)
  : option string * gmap string string :=
  match answer with
  | GetRaises => (None, disk)
  | Answer status body =>
      if (status =? 200)%nat then
        let filepath := filepath_of url save_path year in
        match disk !! filepath with
        | Some _ => (Some filepath, disk)
        | None =>
            match body with
            | Some content => (Some filepath, <[ filepath := content ]> disk)
            | None => (None, <[ filepath := "" ]> disk)
            end
        end
      else (None, disk)
  end.

(** A call: the URL, the year and the answer of the server. *)
Definition call : Type := string * option string * get_result.

Definition download_all (save_path : string) (calls : list call)
    (disk : gmap string string) : gmap string string :=
  fold_left (fun d c => snd (download_file (fst (fst c)) save_path
                               (snd (fst c)) (snd c) d)) calls disk.

Lemma download_file_keeps url save_path year answer disk p c :
  disk !! p = Some c ->
  snd (download_file url save_path year answer disk) !! p = Some c.
Proof.
  intros Hp. unfold download_file.
  destruct answer as [status body|]; [|exact Hp].
  destruct (status =? 200)%nat; [|exact Hp].
  destruct (disk !! filepath_of url save_path year) eqn:Hf; [exact Hp|].
  assert (filepath_of url save_path year <> p) by congruence.
  destruct body; simpl; rewrite lookup_insert_ne by assumption; exact Hp.
Qed.

Lemma download_all_keeps save_path calls : forall disk p c,
  disk !! p = Some c -> download_all save_path calls disk !! p = Some c.
Proof.
  induction calls as [|[[u y] a] calls IH]; intros disk p c Hp; [exact Hp|].
  apply IH. apply download_file_keeps. exact Hp.
Qed.

(** X27: [download_file] never rewrites a file.  Over any sequence of
    calls a path that exists keeps its content.  So when a call has opened a
    new file and the reading of the body has failed, the empty file stays:
    every later call for that path, whatever the server answers, reports the
    path as done when the status is 200 and writes nothing; and two URLs
    with the same file name and year share the file of the first. *)
Theorem existing_file_is_never_rewritten (save_path : string)
    (calls : list call) (disk : gmap string string) :
  (forall p c, disk !! p = Some c ->
               download_all save_path calls disk !! p = Some c) /\
  (forall url year,
     disk !! filepath_of url save_path year = None ->
     let broken := download_file url save_path year (Answer 200 None) disk in
     fst broken = None /\
     forall url' year' body later,
       filepath_of url' save_path year' = filepath_of url save_path year ->
       let disk' := download_all save_path later (snd broken) in
       download_file url' save_path year' (Answer 200 body) disk'
       = (Some (filepath_of url save_path year), disk') /\
       disk' !! filepath_of url save_path year = Some "") /\
  (forall url url' year year' content body,
     disk !! filepath_of url save_path year = None ->
     filepath_of url' save_path year' = filepath_of url save_path year ->
     let first := download_file url save_path year
                    (Answer 200 (Some content)) disk in
     fst first = Some (filepath_of url save_path year) /\
     download_file url' save_path year' (Answer 200 body) (snd first)
     = (Some (filepath_of url save_path year), snd first) /\
     snd first !! filepath_of url save_path year = Some content).
Proof.
  assert (Hthere : forall url year body d c,
    d !! filepath_of url save_path year = Some c ->
    download_file url save_path year (Answer 200 body) d
    = (Some (filepath_of url save_path year), d)).
  { intros url year body d c Hc. unfold download_file. cbn [Nat.eqb].
    rewrite Hc. reflexivity. }
  split; [intros p c; apply download_all_keeps|]. split.
  - intros url year Hnew. cbn zeta.
    assert (E : download_file url save_path year (Answer 200 None) disk
                = (None, <[filepath_of url save_path year := ""]> disk)).
    { unfold download_file. cbn [Nat.eqb]. rewrite Hnew. reflexivity. }
    rewrite E. cbn [fst snd]. split; [reflexivity|].
    intros url' year' body later Hsame.
    assert (Hkept : download_all save_path later
                      (<[filepath_of url save_path year := ""]> disk)
                    !! filepath_of url save_path year = Some "")
      by (apply download_all_keeps, lookup_insert_eq).
    split; [|exact Hkept].
    rewrite (Hthere url' year' body _ _
               ltac:(rewrite Hsame; exact Hkept)), Hsame.
    reflexivity.
  - intros url url' year year' content body Hnew Hsame. cbn zeta.
    assert (E : download_file url save_path year (Answer 200 (Some content)) disk
                = (Some (filepath_of url save_path year),
                   <[filepath_of url save_path year := content]> disk)).
    { unfold download_file. cbn [Nat.eqb]. rewrite Hnew. reflexivity. }
    rewrite E. cbn [fst snd]. split; [reflexivity|].
    assert (Hkept : <[filepath_of url save_path year := content]> disk
                    !! filepath_of url save_path year = Some content)
      by apply lookup_insert_eq.
    split; [|exact Hkept].
    rewrite (Hthere url' year' body _ _
               ltac:(rewrite Hsame; exact Hkept)), Hsame.
    reflexivity.
Qed.

End DownloadFile.

(** Two papers of different years' volumes with the same file name, and a
    year read from the URL that is the same. *)
Definition sample_basename (url : string) : string := "paper.pdf".

Definition slash_join (a b : string) : string := a +:+ "/" +:+ b.

Lemma existing_file_witness :
  (∅ : gmap string string)
    !! filepath_of sample_basename (fun _ => "x.pdf") slash_join
         "https://a.org/2024/v1/paper.pdf" "pdfs" (Some "2024") = None /\
  filepath_of sample_basename (fun _ => "x.pdf") slash_join
    "https://a.org/2024/v2/paper.pdf" "pdfs" (Some "2024")
  = filepath_of sample_basename (fun _ => "x.pdf") slash_join
      "https://a.org/2024/v1/paper.pdf" "pdfs" (Some "2024") /\
  download_file sample_basename (fun _ => "x.pdf") slash_join
    "https://a.org/2024/v2/paper.pdf" "pdfs" (Some "2024")
    (Answer 200 (Some "second"))
    (snd (download_file sample_basename (fun _ => "x.pdf") slash_join
            "https://a.org/2024/v1/paper.pdf" "pdfs" (Some "2024")
            (Answer 200 (Some "first")) ∅))
  = (Some "pdfs/2024/paper.pdf",
     snd (download_file sample_basename (fun _ => "x.pdf") slash_join
            "https://a.org/2024/v1/paper.pdf" "pdfs" (Some "2024")
            (Answer 200 (Some "first")) ∅)).
Proof.
  assert (Hnew : (∅ : gmap string string)
    !! filepath_of sample_basename (fun _ => "x.pdf") slash_join
         "https://a.org/2024/v1/paper.pdf" "pdfs" (Some "2024") = None)
    by apply lookup_empty.
  assert (Hsame : filepath_of sample_basename (fun _ => "x.pdf") slash_join
                    "https://a.org/2024/v2/paper.pdf" "pdfs" (Some "2024")
                  = filepath_of sample_basename (fun _ => "x.pdf") slash_join
                      "https://a.org/2024/v1/paper.pdf" "pdfs" (Some "2024"))
    by reflexivity.
  split; [exact Hnew|]. split; [exact Hsame|].
  exact (proj1 (proj2 (proj2 (proj2
           (existing_file_is_never_rewritten sample_basename
              (fun _ => "x.pdf") slash_join "pdfs" [] ∅))
           "https://a.org/2024/v1/paper.pdf" "https://a.org/2024/v2/paper.pdf"
           (Some "2024") (Some "2024") "first" (Some "second") Hnew Hsame))).
Defined.
End DownloadPdf.

(* ===================================================================== *)
(** ** File names *)
(* ===================================================================== *)

Module FilenameProcessor.

(** A Python [str] as the list of its code points: [len] counts them and
    [\s] is defined on them. *)
Definition text : Type := list N.

(** The text of an ASCII literal. *)
Definition of_string (s : string) : text :=
  map N_of_ascii (list_ascii_of_string s).

Definition underscore : N := 95.
Definition space : N := 32.
Definition dot : N := 46.

(** [ILLEGAL_CHARS]: the control characters 0 to 31 and the nine characters
    less-than, greater-than, colon, double quote, slash, backslash, bar,
    question mark and star. *)
Definition illegal (c : N) : bool :=
  (c <=? 31)%N ||
  (c =? 60)%N || (c =? 62)%N || (c =? 58)%N || (c =? 34)%N || (c =? 47)%N ||
  (c =? 92)%N || (c =? 124)%N || (c =? 63)%N || (c =? 42)%N.

(** [\s] in a pattern for [str]: the characters for which [str.isspace]
    holds. *)
Definition whitespace (c : N) : bool :=
  ((9 <=? c) && (c <=? 13))%N || ((28 <=? c) && (c <=? 32))%N ||
  (c =? 133)%N || (c =? 160)%N || (c =? 5760)%N ||
  ((8192 <=? c) && (c <=? 8202))%N || (c =? 8232)%N || (c =? 8233)%N ||
  (c =? 8239)%N || (c =? 8287)%N || (c =? 12288)%N.

(** [ILLEGAL_CHARS.sub('_', filename)] *)
Definition replace_illegal (filename : text) : text :=
  map (fun c => if illegal c then underscore else c) filename.

(** [filename.strip(' .')] *)
Definition stripped (c : N) : bool := (c =? space)%N || (c =? dot)%N.

Fixpoint lstrip (s : text) : text :=
  match s with
  | c :: s' => if stripped c then lstrip s' else s
  | [] => []
  end.

Definition rstrip (s : text) : text := rev (lstrip (rev s)).

Definition strip (s : text) : text := rstrip (lstrip s).

(** [re.sub(r'[\s_]+', '_', filename)]; [in_run] says that the character
    before was part of a run already replaced. *)
Fixpoint collapse (in_run : bool) (s : text) : text :=
  match s with
  | [] => []
  | c :: s' =>
      if whitespace c || (c =? underscore)%N
      then if in_run then collapse true s' else underscore :: collapse true s'
      else c :: collapse false s'
  end.

(** [s[:k]], for a [k] of either sign. *)
Definition slice_to (k : Z) (s : text) : text :=
  if (k <? 0)%Z then take (Z.to_nat (Z.of_nat (length s) + k)) s
  else take (Z.to_nat k) s.

(** [filename or fallback] *)
Definition or_else (filename fallback : text) : text :=
  match filename with [] => fallback | _ :: _ => filename end.

(** [FilenameProcessor.sanitize] of [page_capturer.py]. *)
Definition sanitize (filename : text) (max_length : Z) : text :=
  let filename := replace_illegal filename in
  let filename := strip filename in
  let filename := collapse false filename in
  let filename :=
    if (max_length <? Z.of_nat (length filename))%Z
    then slice_to max_length filename else filename in
  or_else filename (of_string "unnamed").

(** [filename.rsplit('.', 1)]: the parts before and after the last dot. *)
Fixpoint split_first_dot (s : text) : option (text * text) :=
  match s with
  | [] => None
  | c :: s' =>
      if (c =? dot)%N then Some ([], s')
      else match split_first_dot s' with
           | Some (a, b) => Some (c :: a, b)
           | None => None
           end
  end.

Definition rsplit_dot (s : text) : option (text * text) :=
  match split_first_dot (rev s) with
  | Some (ext_rev, name_rev) => Some (rev name_rev, rev ext_rev)
  | None => None
  end.

(** [FilenameProcessor.sanitize] of [downloader_pdf.py], after the
    [unquote] of its first line. *)
Definition sanitize_pdf (unquoted : text) (max_length : Z) : text :=
  let filename := replace_illegal unquoted in
  let filename := strip filename in
  let filename :=
    if (max_length <? Z.of_nat (length filename))%Z then
      let '(name, ext) :=
        match rsplit_dot filename with
        | Some p => p
        | None => (filename, [])
        end in
      match ext with
      | [] => slice_to max_length name
      | _ :: _ =>
          slice_to (max_length - Z.of_nat (length ext) - 1) name ++ dot :: ext
      end
    else filename in
  or_else filename (of_string "unnamed.pdf").


(** *** What [sanitize] guarantees *)

Definition legal (c : N) : Prop := illegal c = false.

Lemma lstrip_suffix s : exists pre, s = pre ++ lstrip s.
Proof.
  induction s as [|c s [pre IH]]; simpl.
  - exists []. reflexivity.
  - destruct (stripped c).
    + exists (c :: pre). simpl. rewrite <- IH. reflexivity.
    + exists []. reflexivity.
Qed.

Lemma lstrip_head s c rest : lstrip s = c :: rest -> stripped c = false.
Proof.
  induction s as [|a s IH]; simpl; [discriminate|].
  destruct (stripped a) eqn:Ha; [exact IH|].
  intros H; inversion H; subst. exact Ha.
Qed.

Lemma rstrip_prefix s : exists post, s = rstrip s ++ post.
Proof.
  unfold rstrip. destruct (lstrip_suffix (rev s)) as [pre H].
  exists (rev pre). rewrite <- rev_app_distr, <- H, rev_involutive. reflexivity.
Qed.

Lemma strip_part s : exists pre post, s = pre ++ strip s ++ post.
Proof.
  unfold strip. destruct (lstrip_suffix s) as [pre H].
  destruct (rstrip_prefix (lstrip s)) as [post H'].
  exists pre, post. rewrite <- H'. exact H.
Qed.

Lemma strip_Forall (P : N -> Prop) s : Forall P s -> Forall P (strip s).
Proof.
  intros H. destruct (strip_part s) as (pre & post & E).
  rewrite E in H. apply Forall_app in H as [_ H].
  apply Forall_app in H as [H _]. exact H.
Qed.

Lemma strip_head s c rest : strip s = c :: rest -> stripped c = false.
Proof.
  unfold strip. intros H. destruct (rstrip_prefix (lstrip s)) as [post E].
  rewrite H in E. simpl in E. exact (lstrip_head _ _ _ E).
Qed.

Lemma replace_illegal_legal s : Forall legal (replace_illegal s).
Proof.
  unfold replace_illegal. induction s as [|c s IH]; simpl; constructor;
    [|exact IH].
  unfold legal. destruct (illegal c) eqn:Hc; [reflexivity|exact Hc].
Qed.

Lemma collapse_legal s : forall b, Forall legal s -> Forall legal (collapse b s).
Proof.
  induction s as [|c s IH]; intros b H; simpl; [constructor|].
  inversion H as [|? ? Hc Hs]; subst.
  destruct (whitespace c || (c =? underscore)%N).
  - destruct b; [exact (IH _ Hs)|].
    constructor; [reflexivity|exact (IH _ Hs)].
  - constructor; [exact Hc|exact (IH _ Hs)].
Qed.

Lemma collapse_no_space s : forall b,
  Forall (fun c => whitespace c = false) (collapse b s).
Proof.
  induction s as [|c s IH]; intros b; simpl; [constructor|].
  destruct (whitespace c || (c =? underscore)%N) eqn:Hc.
  - destruct b; [apply IH|]. constructor; [reflexivity|apply IH].
  - constructor; [|apply IH]. apply orb_false_iff in Hc. apply Hc.
Qed.

Lemma collapse_head s c rest :
  collapse false s = c :: rest ->
  exists a s', s = a :: s' /\ (c = underscore \/ c = a).
Proof.
  destruct s as [|a s]; simpl; [discriminate|].
  destruct (whitespace a || (a =? underscore)%N); intros H; inversion H; subst;
    eexists _, _; (split; [reflexivity|auto]).
Qed.

Lemma collapse_nonempty s : s <> [] -> collapse false s <> [].
Proof.
  destruct s as [|a s]; [congruence|]. intros _. simpl.
  destruct (whitespace a || (a =? underscore)%N); discriminate.
Qed.

Lemma not_stripped_not_dot c : stripped c = false -> c <> dot.
Proof. intros H ->. discriminate. Qed.

(** For every input and every [max_length] of at least 1, the result of
    [sanitize] is not empty, has no character of [ILLEGAL_CHARS] and no
    whitespace at all (so no space at either end), does not start with a
    dot, and is no longer than [max_length] unless it is the fallback name.
    A dot at the end is not excluded. *)
Lemma sanitize_safe (filename : text) (max_length : Z) :
  (1 <= max_length)%Z ->
  let r := sanitize filename max_length in
  r <> [] /\
  Forall legal r /\
  Forall (fun c => whitespace c = false) r /\
  (forall c rest, r = c :: rest -> c <> dot) /\
  ((Z.of_nat (length r) <= max_length)%Z \/ r = of_string "unnamed").
Proof.
  intros Hmax. unfold sanitize.
  set (f2 := strip (replace_illegal filename)).
  set (f3 := collapse false f2).
  assert (L3 : Forall legal f3).
  { apply collapse_legal, strip_Forall, replace_illegal_legal. }
  assert (S3 : Forall (fun c => whitespace c = false) f3)
    by apply collapse_no_space.
  assert (H3 : forall c rest, f3 = c :: rest -> c <> dot).
  { intros c rest E. destruct (collapse_head _ _ _ E) as (a & s' & Ef2 & [->| ->]).
    - discriminate.
    - apply not_stripped_not_dot. exact (strip_head _ _ _ Ef2). }
  set (f4 := if (max_length <? Z.of_nat (length f3))%Z
             then slice_to max_length f3 else f3).
  assert (E4 : f4 = take (Z.to_nat max_length) f3).
  { subst f4. destruct (max_length <? Z.of_nat (length f3))%Z eqn:Hlt.
    - unfold slice_to. replace (max_length <? 0)%Z with false
        by (symmetry; apply Z.ltb_ge; lia). reflexivity.
    - apply Z.ltb_ge in Hlt. rewrite take_ge; [reflexivity|lia]. }
  clearbody f4. subst f4.
  destruct (Z.to_nat max_length) as [|n] eqn:Hn; [lia|].
  destruct f3 as [|c f3']; simpl.
  - repeat split.
    + discriminate.
    + repeat constructor.
    + repeat constructor.
    + intros c rest H. inversion H; subst. discriminate.
    + right. reflexivity.
  - repeat split.
    + discriminate.
    + inversion L3; subst. constructor; [assumption|].
      apply Forall_take. assumption.
    + inversion S3; subst. constructor; [assumption|].
      apply Forall_take. assumption.
    + intros c0 rest H. inversion H; subst. exact (H3 _ _ eq_refl).
    + left. rewrite length_take. lia.
Qed.

(** C10 at an input where the code leaves it: the dots are stripped from the
    ends before the name is cut to [max_length], and the cut can end on a
    dot. *)
Theorem sanitize_can_end_with_dot :
  sanitize (of_string "report v1.2 final") 10 = of_string "report_v1." /\
  sanitize (of_string "a.b") 2 = of_string "a.".
Proof. split; reflexivity. Qed.

(** The variant of [downloader_pdf.py] can end with a space and can exceed
    [max_length], and its fallback name is "unnamed.pdf". *)
Example sanitize_pdf_samples :
  sanitize_pdf (of_string "ab cd") 3 = of_string "ab " /\
  sanitize_pdf (of_string "abcdefgh.verylongext") 5 = of_string "a.verylongext" /\
  sanitize_pdf (of_string " . ") 200 = of_string "unnamed.pdf".
Proof. repeat split. Qed.


(** *** The names of the captured files *)

(** A digit of [hexdigest]. *)
Definition hex (c : N) : Prop :=
  (48 <= c <= 57)%N \/ (97 <= c <= 102)%N.

(** [path.split('/')] *)
Fixpoint split_slash (s : text) : list text :=
  match s with
  | [] => [[]]
  | c :: rest =>
      if (c =? 47)%N then [] :: split_slash rest
      else match split_slash rest with
           | [] => [[c]]
           | part :: parts => (c :: part) :: parts
           end
  end.

(** [title.strip()] *)
Fixpoint lstrip_space (s : text) : text :=
  match s with
  | c :: s' => if whitespace c then lstrip_space s' else s
  | [] => []
  end.

Definition strip_space (s : text) : text :=
  rev (lstrip_space (rev (lstrip_space s))).

Definition nonempty (s : text) : bool :=
  match s with [] => false | _ :: _ => true end.

Section Names.
(** [hashlib.md5(url.encode()).hexdigest()] and [urlparse(url).path]. *)
Variable md5_hexdigest : text -> text.
Variable url_path : text -> text.

(** [FilenameProcessor.generate_from_url] *)
Definition generate_from_url (url : text) : text :=
  let url_hash := take 12 (md5_hexdigest url) in
  let path_parts := List.filter nonempty (split_slash (url_path url)) in
  match last path_parts with
  | Some name_part => sanitize name_part 50 ++ underscore :: url_hash
  | None => url_hash
  end.

(** [FilenameProcessor.generate_from_title] *)
Definition generate_from_title (title url : text) (max_length : Z) : text :=
  if negb (nonempty title) || (length (strip_space title) <? 3)%nat
  then generate_from_url url
  else
    let clean_title := sanitize title (max_length - 13) in
    let url_hash := take 8 (md5_hexdigest url) in
    clean_title ++ underscore :: url_hash.

(** The choice of [base_filename] in [capture_page]. *)
Definition base_filename (use_title : bool) (page_title url : text)
    (max_filename_length : Z) : text :=
  if use_title && nonempty page_title
  then generate_from_title page_title url max_filename_length
  else generate_from_url url.

Hypothesis md5_hex : forall u,
  length (md5_hexdigest u) = 32 /\ Forall hex (md5_hexdigest u).

(** What makes a name usable as a file name: not empty, no character of
    [ILLEGAL_CHARS], no whitespace, no dot in front. *)
Definition usable (name : text) : Prop :=
  name <> [] /\ Forall legal name /\
  Forall (fun c => whitespace c = false) name /\
  (forall c rest, name = c :: rest -> c <> dot).

Lemma hex_plain c : hex c -> legal c /\ whitespace c = false /\ c <> dot.
Proof.
  unfold hex, legal, illegal, whitespace, dot. intros H.
  assert (Hc : (c = 48 \/ c = 49 \/ c = 50 \/ c = 51 \/ c = 52 \/ c = 53 \/
                c = 54 \/ c = 55 \/ c = 56 \/ c = 57 \/ c = 97 \/ c = 98 \/
                c = 99 \/ c = 100 \/ c = 101 \/ c = 102)%N) by lia.
  repeat (destruct Hc as [->|Hc]; [repeat split; discriminate|]).
  subst c. repeat split; discriminate.
Qed.

Lemma hash_usable u n :
  0 < n <= 32 ->
  usable (take n (md5_hexdigest u)) /\ length (take n (md5_hexdigest u)) = n.
Proof.
  intros Hn. destruct (md5_hex u) as [Hlen Hhex].
  assert (Hall : Forall hex (take n (md5_hexdigest u)))
    by (apply Forall_take; exact Hhex).
  assert (Hl : length (take n (md5_hexdigest u)) = n)
    by (rewrite length_take; lia).
  split; [|exact Hl]. unfold usable. split; [|split; [|split]].
  - intros E. rewrite E in Hl. simpl in Hl. lia.
  - eapply List.Forall_impl; [|exact Hall]. intros c Hc. apply hex_plain, Hc.
  - eapply List.Forall_impl; [|exact Hall]. intros c Hc. apply hex_plain, Hc.
  - intros c rest E. rewrite E in Hall. inversion Hall; subst.
    apply hex_plain. assumption.
Qed.

Lemma named_usable part m u n :
  (1 <= m)%Z -> 0 < n <= 32 ->
  let name := sanitize part m ++ underscore :: take n (md5_hexdigest u) in
  usable name /\
  (Z.of_nat (length name) <= Z.max m 7 + 1 + Z.of_nat n)%Z.
Proof.
  intros Hm Hn. cbn zeta.
  destruct (sanitize_safe part m Hm) as (Hne & Hleg & Hsp & Hhead & Hlen).
  destruct (hash_usable u n Hn) as [(_ & Hl2 & Hs2 & _) Hlen2].
  split; [unfold usable; split; [|split; [|split]]|].
  - destruct (sanitize part m); [congruence|discriminate].
  - apply Forall_app. split; [exact Hleg|]. constructor; [reflexivity|exact Hl2].
  - apply Forall_app. split; [exact Hsp|]. constructor; [reflexivity|exact Hs2].
  - intros c rest E. destruct (sanitize part m) as [|c0 r0] eqn:Es;
      [congruence|]. simpl in E. inversion E; subst. exact (Hhead _ _ eq_refl).
  - rewrite length_app. cbn [length]. rewrite Hlen2.
    destruct Hlen as [Hlen| ->]; [lia|]. simpl. lia.
Qed.

(** The name is made from the title: the configuration asks for it and the
    title, stripped of the white space around it, has three characters or
    more. *)
Definition from_title (use_title : bool) (page_title : text) : bool :=
  use_title && nonempty page_title
  && negb (length (strip_space page_title) <? 3)%nat.

(** X21: the names of the captured files.  With a hexadecimal digest of 32
    digits and a [max_filename_length] of at least 14, the base name chosen
    by [capture_page] is always usable: it is not empty, has no character of
    [ILLEGAL_CHARS] and no whitespace, and does not start with a dot.  A
    name made from the title is the cleaned title, an underscore and eight
    digits of the digest; it has at most [max_filename_length - 4]
    characters when [max_filename_length] is 20 or more, and at most 16
    otherwise (a title that cleans to nothing gives "unnamed", which is not
    cut).  Every other name is made from the URL and can have up to 63
    characters, whatever [max_filename_length] says. *)
Theorem capture_names_are_usable (use_title : bool) (page_title url : text)
    (max_filename_length : Z) :
  (14 <= max_filename_length)%Z ->
  let name := base_filename use_title page_title url max_filename_length in
  usable name /\
  (from_title use_title page_title = true ->
   name = sanitize page_title (max_filename_length - 13)
            ++ underscore :: take 8 (md5_hexdigest url) /\
   (Z.of_nat (length name) <= Z.max (max_filename_length - 4) 16)%Z /\
   ((20 <= max_filename_length)%Z ->
    (Z.of_nat (length name) <= max_filename_length - 4)%Z)) /\
  (from_title use_title page_title = false ->
   name = generate_from_url url /\ (Z.of_nat (length name) <= 63)%Z).
Proof.
  intros Hmax. cbn zeta.
  assert (Hurl : usable (generate_from_url url) /\
                 (Z.of_nat (length (generate_from_url url)) <= 63)%Z).
  { unfold generate_from_url. cbn zeta.
    destruct (last _) as [part|].
    - destruct (named_usable part 50 url 12 ltac:(lia) ltac:(lia)) as [H1 H2].
      split; [exact H1|]. cbn zeta in H2. lia.
    - destruct (hash_usable url 12 ltac:(lia)) as [H1 H2].
      split; [exact H1|]. lia. }
  destruct (named_usable page_title (max_filename_length - 13) url 8
              ltac:(lia) ltac:(lia)) as [T1 T2].
  cbn zeta in T1, T2.
  unfold base_filename, from_title, generate_from_title.
  destruct use_title; cbn [andb].
  - destruct (nonempty page_title); cbn [andb negb orb].
    + destruct (length (strip_space page_title) <? 3)%nat; cbn [negb].
      * split; [apply Hurl|]. split; [discriminate|].
        intros _. split; [reflexivity|apply Hurl].
      * split; [exact T1|]. split; [|discriminate].
        intros _. split; [reflexivity|]. split; [lia|intros H; lia].
    + split; [apply Hurl|]. split; [discriminate|].
      intros _. split; [reflexivity|apply Hurl].
  - split; [apply Hurl|]. split; [discriminate|].
    intros _. split; [reflexivity|apply Hurl].
Qed.

End Names.

(** A digest for the examples: the MD5 of the empty string. *)
Definition sample_digest (u : text) : text :=
  of_string "d41d8cd98f00b204e9800998ecf8427e".

Lemma sample_digest_hex u :
  length (sample_digest u) = 32 /\ Forall hex (sample_digest u).
Proof.
  split; [reflexivity|]. unfold sample_digest.
  apply Forall_forall. intros c Hc. apply list_elem_of_In in Hc.
  unfold hex. vm_compute in Hc.
  repeat (destruct Hc as [<-|Hc]; [lia|]). destruct Hc.
Qed.

(** With a [max_filename_length] of 20 a page without a title still gets a
    name of 38 characters, made from the URL. *)
Example short_limit_long_name :
  length (base_filename sample_digest (fun u => drop 19 u) true []
            (of_string "https://example.org/papers/attention-is-all-you-need")
            20) = 38.
Proof. vm_compute. reflexivity. Qed.

(** With a [max_filename_length] of 14 a title of three dots cleans to
    "unnamed", and the name has 16 characters. *)
Example dots_title_name :
  base_filename sample_digest (fun u => drop 19 u) true (of_string "...")
    (of_string "https://example.org/papers/1706.03762") 14
  = of_string "unnamed_d41d8cd9".
Proof. vm_compute. reflexivity. Qed.

Lemma capture_names_witness :
  (forall u, length (sample_digest u) = 32 /\ Forall hex (sample_digest u)) /\
  (14 <= 100)%Z /\
  base_filename sample_digest (fun u => drop 19 u) true
    (of_string "  Attention: Is All You Need?  ")
    (of_string "https://example.org/papers/1706.03762") 100
  = of_string "Attention_Is_All_You_Need__d41d8cd9" /\
  usable (base_filename sample_digest (fun u => drop 19 u) true
            (of_string "  Attention: Is All You Need?  ")
            (of_string "https://example.org/papers/1706.03762") 100).
Proof.
  split; [exact sample_digest_hex|]. split; [lia|].
  split; [vm_compute; reflexivity|].
  exact (proj1 (capture_names_are_usable sample_digest (fun u => drop 19 u)
                  sample_digest_hex true
                  (of_string "  Attention: Is All You Need?  ")
                  (of_string "https://example.org/papers/1706.03762") 100
                  ltac:(lia))).
Defined.

(** *** The names of the downloaded files *)

Lemma split_first_dot_parts s : forall a b,
  split_first_dot s = Some (a, b) -> s = a ++ dot :: b.
Proof.
  induction s as [|c s IH]; intros a b H; simpl in H; [discriminate|].
  destruct (c =? dot)%N eqn:Hc.
  - inversion H; subst. apply N.eqb_eq in Hc. subst c. reflexivity.
  - destruct (split_first_dot s) as [[a' b']|]; [|discriminate].
    inversion H; subst. simpl. rewrite (IH a' b eq_refl). reflexivity.
Qed.

Lemma rsplit_dot_parts s name ext :
  rsplit_dot s = Some (name, ext) -> s = name ++ dot :: ext.
Proof.
  unfold rsplit_dot.
  destruct (split_first_dot (rev s)) as [[ext_rev name_rev]|] eqn:E;
    [|discriminate].
  intros H; inversion H; subst. apply split_first_dot_parts in E.
  apply (f_equal (@rev N)) in E. rewrite rev_involutive in E. rewrite E.
  rewrite rev_app_distr. simpl. rewrite <- app_assoc. reflexivity.
Qed.

Lemma slice_to_Forall (P : N -> Prop) k s : Forall P s -> Forall P (slice_to k s).
Proof. intros H. unfold slice_to. destruct (k <? 0)%Z; apply Forall_take, H. Qed.

(** X22: the name of a downloaded file has no separator.  Whatever the URL
    holds after unquoting and whatever [max_length] is, the name
    [sanitize] of [downloader_pdf.py] returns is not empty and has no
    character of [ILLEGAL_CHARS], so no slash and no backslash: joined to
    the year directory it names a file in that directory.  When the name is
    cut, its extension is kept whole. *)
Theorem download_names_have_no_separator (unquoted : text) (max_length : Z) :
  let r := sanitize_pdf unquoted max_length in
  r <> [] /\ Forall legal r /\
  (forall name ext,
     (max_length < Z.of_nat (length (strip (replace_illegal unquoted))))%Z ->
     rsplit_dot (strip (replace_illegal unquoted)) = Some (name, ext) ->
     ext <> [] ->
     exists kept, r = kept ++ dot :: ext).
Proof.
  cbn zeta. unfold sanitize_pdf.
  set (f := strip (replace_illegal unquoted)).
  assert (Hf : Forall legal f) by apply strip_Forall, replace_illegal_legal.
  destruct (max_length <? Z.of_nat (length f))%Z eqn:Hlong.
  - destruct (rsplit_dot f) as [[name ext]|] eqn:Hsplit.
    + pose proof (rsplit_dot_parts _ _ _ Hsplit) as E.
      rewrite E in Hf. apply Forall_app in Hf as [Hname Hext].
      inversion Hext as [|? ? Hdot Hext']; subst.
      destruct ext as [|e ext].
      * split; [|split].
        -- destruct (slice_to max_length name); [discriminate|discriminate].
        -- destruct (slice_to max_length name) eqn:Es; simpl.
           ++ unfold of_string. simpl.
              repeat (constructor; [reflexivity|]). constructor.
           ++ rewrite <- Es. apply slice_to_Forall, Hname.
        -- intros name' ext' _ H Hne. inversion H; subst. congruence.
      * set (kept := slice_to (max_length - Z.of_nat (length (e :: ext)) - 1)
                       name).
        assert (Hr : or_else (kept ++ dot :: e :: ext) (of_string "unnamed.pdf")
                     = kept ++ dot :: e :: ext)
          by (destruct kept; reflexivity).
        rewrite Hr. split; [destruct kept; discriminate|]. split.
        -- apply Forall_app. split; [apply slice_to_Forall, Hname|].
           constructor; assumption.
        -- intros name' ext' _ H _. inversion H; subst.
           exists kept. reflexivity.
    + split; [|split].
      * destruct (slice_to max_length f); discriminate.
      * destruct (slice_to max_length f) eqn:Es; simpl.
        -- unfold of_string. simpl.
           repeat (constructor; [reflexivity|]). constructor.
        -- rewrite <- Es. apply slice_to_Forall, Hf.
      * intros name ext _ H. discriminate.
  - split; [|split].
    + destruct f; discriminate.
    + destruct f eqn:Ef; simpl.
      * unfold of_string. simpl. repeat (constructor; [reflexivity|]).
        constructor.
      * exact Hf.
    + intros name ext Hlt. apply Z.ltb_ge in Hlong. lia.
Qed.

(** *** [sanitize] on its own results *)

(** No whitespace, and no underscore after an underscore ([after] says that
    the character before was one). *)
Fixpoint tidy (after : bool) (s : text) : Prop :=
  match s with
  | [] => True
  | c :: s' =>
      whitespace c = false /\
      if (c =? underscore)%N then after = false /\ tidy true s'
      else tidy false s'
  end.

Lemma tidy_weaken s : tidy true s -> tidy false s.
Proof.
  destruct s as [|c s]; [auto|]. simpl. intros [Hw H]. split; [exact Hw|].
  destruct (c =? underscore)%N; [destruct H; discriminate|exact H].
Qed.

Lemma collapse_tidy s : forall b, tidy b (collapse b s).
Proof.
  induction s as [|c s IH]; intros b; simpl; [exact I|].
  destruct (whitespace c) eqn:Hw; simpl.
  - destruct b; [apply IH|]. simpl. split; [reflexivity|].
    split; [reflexivity|apply IH].
  - destruct (c =? underscore)%N eqn:Hu.
    + destruct b; [apply IH|]. simpl. split; [reflexivity|].
      split; [reflexivity|apply IH].
    + simpl. rewrite Hw, Hu. split; [reflexivity|apply IH].
Qed.

Lemma tidy_take n : forall s b, tidy b s -> tidy b (take n s).
Proof.
  induction n as [|n IH]; intros s b H; [destruct s; exact I|].
  destruct s as [|c s]; [exact I|]. simpl in *. destruct H as [Hw H].
  split; [exact Hw|]. destruct (c =? underscore)%N.
  - destruct H as [Hb H]. split; [exact Hb|apply IH, H].
  - apply IH, H.
Qed.

Lemma tidy_fixed s : forall b, tidy b s -> collapse b s = s.
Proof.
  induction s as [|c s IH]; intros b H; [reflexivity|].
  simpl in *. destruct H as [Hw H]. rewrite Hw. simpl.
  destruct (c =? underscore)%N eqn:Hu.
  - destruct H as [-> H]. apply N.eqb_eq in Hu. subst c.
    rewrite (IH true H). reflexivity.
  - rewrite (IH false H). reflexivity.
Qed.

Lemma replace_illegal_fixed s : Forall legal s -> replace_illegal s = s.
Proof.
  unfold replace_illegal. induction 1 as [|c s Hc Hs IH]; [reflexivity|].
  simpl. rewrite Hc, IH. reflexivity.
Qed.

Lemma lstrip_fixed s :
  (forall c rest, s = c :: rest -> stripped c = false) -> lstrip s = s.
Proof.
  destruct s as [|c s]; [reflexivity|]. intros H. simpl.
  rewrite (H c s eq_refl). reflexivity.
Qed.

Lemma last_rev_head (s : text) c rest : rev s = c :: rest -> last s = Some c.
Proof.
  intros H. apply (f_equal (@rev N)) in H. rewrite rev_involutive in H.
  subst s. simpl. apply last_snoc.
Qed.

Lemma strip_fixed s :
  (forall c rest, s = c :: rest -> stripped c = false) ->
  (forall c, last s = Some c -> stripped c = false) ->
  strip s = s.
Proof.
  intros Hhead Hlast. unfold strip, rstrip. rewrite (lstrip_fixed s Hhead).
  rewrite lstrip_fixed; [apply rev_involutive|].
  intros c rest E. apply Hlast. exact (last_rev_head _ _ _ E).
Qed.

Lemma lstrip_length s : length (lstrip s) <= length s.
Proof.
  destruct (lstrip_suffix s) as [pre E]. rewrite E at 2.
  rewrite length_app. lia.
Qed.

Lemma strip_shortens s c :
  last s = Some c -> stripped c = true -> length (strip s) < length s.
Proof.
  intros Hl Hc. unfold strip, rstrip. rewrite length_rev.
  pose proof (lstrip_length s) as H1.
  destruct (lstrip_suffix s) as [pre E].
  destruct (rev (lstrip s)) as [|d rest] eqn:Er.
  - simpl. destruct s; [discriminate|simpl; lia].
  - assert (Hd : last (lstrip s) = Some d) by exact (last_rev_head _ _ _ Er).
    assert (d = c).
    { rewrite E in Hl. destruct (lstrip s) as [|x xs] eqn:El; [discriminate|].
      rewrite last_app in Hl. rewrite Hd in Hl. congruence. }
    subst d. simpl. rewrite Hc.
    pose proof (lstrip_length rest) as H2.
    assert (length (lstrip s) = S (length rest)).
    { rewrite <- (length_rev (lstrip s)), Er. reflexivity. }
    lia.
Qed.

Lemma collapse_length s : forall b, length (collapse b s) <= length s.
Proof.
  induction s as [|c s IH]; intros b; simpl; [lia|].
  destruct (whitespace c || (c =? underscore)%N).
  - destruct b; simpl; [specialize (IH true)|specialize (IH true)]; lia.
  - simpl. specialize (IH false). lia.
Qed.

Lemma lstrip_nil s : lstrip s = [] -> Forall (fun c => stripped c = true) s.
Proof.
  induction s as [|c s IH]; simpl; [constructor|].
  destruct (stripped c) eqn:Hc; [|discriminate].
  intros H. constructor; [exact Hc|exact (IH H)].
Qed.

(** A name that does not start with a stripped character is not stripped
    away. *)
Lemma strip_nonempty s :
  s <> [] -> (forall c rest, s = c :: rest -> stripped c = false) ->
  strip s <> [].
Proof.
  intros Hne Hhead. unfold strip, rstrip. rewrite (lstrip_fixed s Hhead).
  intros E. apply (f_equal (@rev N)) in E. rewrite rev_involutive in E.
  simpl in E. apply lstrip_nil in E.
  destruct s as [|c rest]; [congruence|].
  assert (Hc : stripped c = true).
  { apply (proj1 (List.Forall_forall _ _) E c).
    apply in_rev. rewrite rev_involutive. left. reflexivity. }
  rewrite (Hhead c rest eq_refl) in Hc. discriminate.
Qed.

Lemma sanitize_tidy filename max_length :
  (1 <= max_length)%Z -> tidy false (sanitize filename max_length).
Proof.
  intros Hmax. unfold sanitize.
  set (f3 := collapse false (strip (replace_illegal filename))).
  assert (H3 : tidy false f3) by apply collapse_tidy.
  assert (H4 : tidy false (if (max_length <? Z.of_nat (length f3))%Z
                           then slice_to max_length f3 else f3)).
  { destruct (max_length <? _)%Z; [|exact H3]. unfold slice_to.
    destruct (max_length <? 0)%Z; apply tidy_take, H3. }
  destruct (if (max_length <? Z.of_nat (length f3))%Z
            then slice_to max_length f3 else f3); [|exact H4].
  simpl. repeat split.
Qed.

(** X25: [sanitize] on its own results.  A name that [sanitize] has
    returned within the length asked for is returned unchanged when
    sanitized again with the same length, exactly when it does not end
    with a dot; a name ending with a dot comes back shorter. *)
Theorem sanitize_twice (filename : text) (max_length : Z) :
  (1 <= max_length)%Z ->
  let r := sanitize filename max_length in
  (Z.of_nat (length r) <= max_length)%Z ->
  (sanitize r max_length = r <-> last r <> Some dot) /\
  (last r = Some dot -> length (sanitize r max_length) < length r).
Proof.
  intros Hmax r Hlen.
  destruct (sanitize_safe filename max_length Hmax)
    as (Hne & Hleg & Hsp & Hhead & _).
  pose proof (sanitize_tidy filename max_length Hmax) as Htidy.
  fold r in Hne, Hleg, Hsp, Hhead, Htidy.
  assert (Hhead' : forall c rest, r = c :: rest -> stripped c = false).
  { intros c rest E. unfold stripped. apply orb_false_iff. split.
    - rewrite E in Hsp. inversion Hsp as [|? ? Hc _]; subst.
      apply N.eqb_neq. intros ->. discriminate.
    - apply N.eqb_neq. exact (Hhead _ _ E). }
  assert (Hshort : last r = Some dot -> length (sanitize r max_length) < length r).
  { intros Hdot. unfold sanitize. rewrite (replace_illegal_fixed r Hleg).
    pose proof (strip_shortens r dot Hdot eq_refl) as Hs.
    pose proof (collapse_length (strip r) false) as Hc.
    assert (Hnz : collapse false (strip r) <> []).
    { apply collapse_nonempty, strip_nonempty; assumption. }
    destruct (max_length <? Z.of_nat (length (collapse false (strip r))))%Z.
    - unfold slice_to. replace (max_length <? 0)%Z with false
        by (symmetry; apply Z.ltb_ge; lia).
      destruct (take (Z.to_nat max_length) (collapse false (strip r))) eqn:Et.
      + exfalso. destruct (collapse false (strip r)); [congruence|].
        destruct (Z.to_nat max_length) eqn:Em; [lia|discriminate].
      + cbn [or_else]. rewrite <- Et, length_take. lia.
    - destruct (collapse false (strip r)); [congruence|]. simpl in *. lia. }
  split; [|exact Hshort]. split.
  - intros Efix Hdot. specialize (Hshort Hdot). rewrite Efix in Hshort. lia.
  - intros Hdot. unfold sanitize.
    rewrite (replace_illegal_fixed r Hleg).
    rewrite (strip_fixed r Hhead').
    + rewrite (tidy_fixed r false Htidy).
      replace (max_length <? Z.of_nat (length r))%Z with false
        by (symmetry; apply Z.ltb_ge; lia).
      destruct r; [congruence|reflexivity].
    + intros c Hc. unfold stripped. apply orb_false_iff. split.
      * apply N.eqb_neq. intros ->.
        assert (Hin : In space r).
        { destruct (rev r) as [|d rest] eqn:Er.
          - apply (f_equal (@rev N)) in Er. rewrite rev_involutive in Er.
            simpl in Er. rewrite Er in Hc. discriminate.
          - pose proof (last_rev_head _ _ _ Er) as Hd. rewrite Hc in Hd.
            inversion Hd; subst d. apply in_rev. rewrite Er. left. reflexivity. }
        pose proof (proj1 (List.Forall_forall _ _) Hsp space Hin) as Hw.
        discriminate.
      * apply N.eqb_neq. intros ->. exact (Hdot Hc).
Qed.

Lemma sanitize_twice_witness :
  (1 <= 10)%Z /\
  sanitize (of_string "report v1.2 final") 10 = of_string "report_v1." /\
  last (sanitize (of_string "report v1.2 final") 10) = Some dot /\
  length (sanitize (sanitize (of_string "report v1.2 final") 10) 10) < 10.
Proof.
  split; [lia|]. split; [reflexivity|]. split; [reflexivity|].
  exact (proj2 (sanitize_twice (of_string "report v1.2 final") 10
                  ltac:(lia) ltac:(vm_compute; discriminate))
               eq_refl).
Defined.
End FilenameProcessor.
